(** * IndiaMART Auto Product Agent: queue runner, CSV importer and upload route

    A shallow embedding of [src/web/src/app/page.tsx] (the browser console:
    CSV tokenizer, draft normalizer, queue runner) and of the API route kept
    in the second part of [src/web/README.md] (payload builder and [POST]
    handler), followed by the properties established about them.

    Modelling conventions.
    - A JavaScript string is a [string]: a sequence of code units below 256.
      [trim], the regular expression class for white space and [toLowerCase]
      are written out for that range.
    - [makeId] draws from a counter and [Date.now] reads a clock, both kept
      in the state.
    - React state is updated by the handlers; the refs ([queueRef],
      [processingRef], [activeProductRef]) only change when the effects of a
      commit run.  Every event is a handler run to completion followed by a
      commit.
    - A pending [fetch] and a pending [setTimeout] are entries of the state
      that the environment completes later, in any order it likes. *)

From Stdlib Require Import List String Ascii Bool Arith Lia ZArith.
From Stdlib Require Import Permutation Sorted.
From Stdlib Require Import Numbers.DecimalString.
Import ListNotations.

Open Scope list_scope.
Open Scope string_scope.

(** ** JavaScript string primitives used by the sources *)

Module Js.

Definition dquote : ascii := "034"%char.
Definition comma : ascii := ","%char.
Definition LF : ascii := "010"%char.
Definition CR : ascii := "013"%char.

(** The one-character string holding a double quote. *)
Definition q : string := String dquote EmptyString.

(** WhiteSpace and LineTerminator code units below 256: TAB, LF, VT, FF, CR,
    SP and NBSP.  This is the set removed by [String.prototype.trim] and
    matched by the class [\s]. *)
Definition isWhiteSpace (c : ascii) : bool :=
  existsb (Ascii.eqb c)
    ["009"%char; "010"%char; "011"%char; "012"%char; "013"%char; " "%char; "160"%char].

Fixpoint trimStart (s : string) : string :=
  match s with
  | EmptyString => EmptyString
  | String c s' => if isWhiteSpace c then trimStart s' else s
  end.

Fixpoint trimEnd (s : string) : string :=
  match s with
  | EmptyString => EmptyString
  | String c s' =>
      match trimEnd s' with
      | EmptyString => if isWhiteSpace c then EmptyString else String c EmptyString
      | t => String c t
      end
  end.

(** [s.trim()] *)
Definition trim (s : string) : string := trimEnd (trimStart s).

(** [s.startsWith(p)] *)
Definition startsWith (p s : string) : bool := String.prefix p s.

(** [s.endsWith(p)]: some tail of [s] is [p]. *)
Fixpoint endsWith (p s : string) : bool :=
  String.eqb s p ||
  match s with
  | EmptyString => false
  | String _ s' => endsWith p s'
  end.

(** [s.slice(from, to)], with the negative indices counted from the end. *)
Definition slice (from to : Z) (s : string) : string :=
  let len := Z.of_nat (String.length s) in
  let k := (if from <? 0 then Z.max (len + from) 0 else Z.min from len)%Z in
  let final := (if to <? 0 then Z.max (len + to) 0 else Z.min to len)%Z in
  String.substring (Z.to_nat k) (Z.to_nat (Z.max (final - k) 0)) s.

(** [s.replace(/<dq><dq>/g, <dq>)]: every pair of quotes, leftmost first and
    without overlap, becomes one quote. *)
Fixpoint replaceDoubledQuotes (s : string) : string :=
  match s with
  | EmptyString => EmptyString
  | String c1 tl =>
      match tl with
      | String c2 rest =>
          if Ascii.eqb c1 dquote && Ascii.eqb c2 dquote
          then String dquote (replaceDoubledQuotes rest)
          else String c1 (replaceDoubledQuotes tl)
      | EmptyString => String c1 EmptyString
      end
  end.

(** [s.replace(/\s+/g, EmptyString)] *)
Fixpoint removeWhiteSpace (s : string) : string :=
  match s with
  | EmptyString => EmptyString
  | String c s' =>
      if isWhiteSpace c then removeWhiteSpace s' else String c (removeWhiteSpace s')
  end.

(** [toLowerCase] on one code unit below 256: A-Z and the Latin-1 capitals
    (192-222 except the multiplication sign 215) move up by 32. *)
Definition lowerChar (c : ascii) : ascii :=
  let n := nat_of_ascii c in
  if (((65 <=? n) && (n <=? 90)) || ((192 <=? n) && (n <=? 222) && negb (n =? 215)))%nat
  then ascii_of_nat (n + 32)
  else c.

Fixpoint toLowerCase (s : string) : string :=
  match s with
  | EmptyString => EmptyString
  | String c s' => String (lowerChar c) (toLowerCase s')
  end.

(** Push a code unit in front of the first piece of a split. *)
Definition consHead (c : ascii) (pieces : list string) : list string :=
  match pieces with
  | [] => [String c EmptyString]
  | x :: xs => String c x :: xs
  end.

(** [s.split(sep)] for a one-character separator. *)
Fixpoint split (sep : ascii) (s : string) : list string :=
  match s with
  | EmptyString => [EmptyString]
  | String c s' =>
      if Ascii.eqb c sep then EmptyString :: split sep s' else consHead c (split sep s')
  end.

(** [s.split(/\r?\n/)]: a line feed, or a carriage return directly followed
    by one, separates two lines. *)
Fixpoint splitLines (s : string) : list string :=
  match s with
  | EmptyString => [EmptyString]
  | String c s' =>
      if Ascii.eqb c LF then EmptyString :: splitLines s'
      else
        match s' with
        | String c2 s'' =>
            if Ascii.eqb c CR && Ascii.eqb c2 LF
            then EmptyString :: splitLines s''
            else consHead c (splitLines s')
        | EmptyString => consHead c (splitLines s')
        end
  end.

(** [xs.join(sep)] *)
Definition join (sep : string) (xs : list string) : string := String.concat sep xs.

(** [hay.includes(needle)] on strings. *)
Fixpoint includes (needle hay : string) : bool :=
  String.prefix needle hay ||
  match hay with
  | EmptyString => false
  | String _ hay' => includes needle hay'
  end.

(** [xs.includes(x)] on arrays of strings. *)
Definition arrayIncludes (xs : list string) (x : string) : bool :=
  existsb (String.eqb x) xs.

(** [xs.indexOf(x)]: the first position holding [x], [None] for -1. *)
Fixpoint indexOf (xs : list string) (x : string) : option nat :=
  match xs with
  | [] => None
  | y :: ys => if String.eqb y x then Some 0 else option_map S (indexOf ys x)
  end.

(** A string is falsy exactly when it is empty. *)
Definition truthy (s : string) : bool := negb (String.eqb s EmptyString).

(** [a || b] on strings. *)
Definition orElse (a b : string) : string := if truthy a then a else b.

(** A number inside a template literal. *)
Definition ofNat (n : nat) : string := NilEmpty.string_of_uint (Nat.to_uint n).

(** [xs.slice(-n)] on an array: its last [n] elements, all of them when it
    has fewer. *)
Definition lastN {A : Type} (n : nat) (xs : list A) : list A :=
  skipn (List.length xs - n) xs.

(** One step of [xs.sort(compare)]: [x] goes in front of the first element
    that it does not come after. *)
Fixpoint insertSorted {A : Type} (compare : A -> A -> Z) (x : A) (sorted : list A)
  : list A :=
  match sorted with
  | [] => [x]
  | y :: ys =>
      if (compare x y <=? 0)%Z then x :: sorted else y :: insertSorted compare x ys
  end.

(** [xs.sort(compare)].  The sort is stable: of two elements that compare
    equal, the one that came first stays first. *)
Definition sort {A : Type} (compare : A -> A -> Z) (xs : list A) : list A :=
  fold_right (insertSorted compare) [] xs.

End Js.

(** ** The API route: [buildIndiaMartPayload] and [POST] *)

Module Route.

Inductive AgentMode := simulate | live.

(** Every field of the request is optional: [None] stands for a field that
    is [undefined] or [null] in the decoded JSON. *)
Record AgentSettings := mkAgentSettings {
  apiKey : option string;
  sellerId : option string;
  baseUrl : option string;
  mode : option AgentMode
}.

Record ProductPayload := mkProductPayload {
  title : option string;
  category : option string;
  price : option string;
  currency : option string;
  unit : option string;
  stock : option string;
  minOrderQty : option string;
  keywords : option (list string);
  imageUrls : option (list string);
  shortDescription : option string;
  description : option string;
  features : option (list string);
  packaging : option string;
  leadTime : option string
}.

Record RequestBody := mkRequestBody {
  settings : option AgentSettings;
  product : option ProductPayload
}.

(** The keys listed in [MINIMUM_FIELDS]. *)
Inductive MinimumField := k_title | k_description | k_shortDescription.

Definition MINIMUM_FIELDS : list MinimumField :=
  [k_title; k_description; k_shortDescription].

Definition fieldName (field : MinimumField) : string :=
  match field with
  | k_title => "title"
  | k_description => "description"
  | k_shortDescription => "shortDescription"
  end.

(** [product[field]] *)
Definition fieldValue (p : ProductPayload) (field : MinimumField) : option string :=
  match field with
  | k_title => title p
  | k_description => description p
  | k_shortDescription => shortDescription p
  end.

(** [value === undefined || value === null || value === EmptyString] *)
Definition isMissing (p : ProductPayload) (field : MinimumField) : bool :=
  match fieldValue p field with
  | None => true
  | Some value => String.eqb value EmptyString
  end.

(** [a ?? b] *)
Definition nullish {A : Type} (a : option A) (b : A) : A :=
  match a with
  | Some v => v
  | None => b
  end.

(** [xs?.[i]] *)
Definition at_ (xs : option (list string)) (i : nat) : option string :=
  match xs with
  | Some l => nth_error l i
  | None => None
  end.

Record IndiaMartPayload := mkIndiaMartPayload {
  PRODUCT_NAME : option string;
  SELLER_ID : string;
  CURRENCY_TYPE : string;
  YOUR_PRICE : string;
  UNIT : string;
  MIN_ORDER_QUANTITY : string;
  PACKAGE_DETAILS : string;
  SUPPLY_ABILITY : string;
  DELIVERY_TIME : string;
  SHORT_DESC : string;
  LONG_DESC : string;
  KEY_FEATURES : string;
  KEYWORDS : string;
  IMAGE1 : string;
  IMAGE2 : string;
  IMAGE3 : string;
  CATEGORY : string
}.

Definition buildIndiaMartPayload (p : ProductPayload) (st : AgentSettings)
  : IndiaMartPayload :=
  let featuresText := nullish (option_map (Js.join "|") (features p)) EmptyString in
  {| PRODUCT_NAME := title p;
     SELLER_ID := nullish (sellerId st) EmptyString;
     CURRENCY_TYPE := nullish (currency p) "INR";
     YOUR_PRICE := nullish (price p) EmptyString;
     UNIT := nullish (unit p) EmptyString;
     MIN_ORDER_QUANTITY := nullish (minOrderQty p) EmptyString;
     PACKAGE_DETAILS := nullish (packaging p) EmptyString;
     SUPPLY_ABILITY := nullish (stock p) EmptyString;
     DELIVERY_TIME := nullish (leadTime p) EmptyString;
     SHORT_DESC := nullish (shortDescription p) EmptyString;
     LONG_DESC := nullish (description p) EmptyString;
     KEY_FEATURES := featuresText;
     KEYWORDS := nullish (option_map (Js.join ",") (keywords p)) EmptyString;
     IMAGE1 := nullish (at_ (imageUrls p) 0) EmptyString;
     IMAGE2 := nullish (at_ (imageUrls p) 1) EmptyString;
     IMAGE3 := nullish (at_ (imageUrls p) 2) EmptyString;
     CATEGORY := nullish (category p) EmptyString |}.

(** The request sent to the marketplace in live mode. *)
Record RemoteRequest := mkRemoteRequest {
  endpoint : string;
  method : string;
  contentTypeHeader : string;
  authtoken : string;
  requestBody : IndiaMartPayload
}.

(** What the marketplace answered, decoded either as JSON or as text. *)
Inductive Decoded := JsonValue (v : string) | TextValue (v : string).

(** A resolved remote response.  [jsonBody] is the outcome of
    [response.json()] and [textBody] that of [response.text()]: either the
    value thrown (its message when it is an [Error]), or the value read. *)
Record RemoteResponse := mkRemoteResponse {
  ok : bool;
  remoteStatus : nat;
  contentType : option string;
  jsonBody : option string + string;
  textBody : option string + string
}.

(** The outcome of the remote [fetch]: rejected (with the message of the
    error when it is an [Error]) or resolved. *)
Inductive FetchResult :=
| Rejected (message : option string)
| Resolved (r : RemoteResponse).

Inductive ResponseBody :=
| ErrorBody (error : string)
| RemoteErrorBody (error : string) (status : nat) (response : Decoded)
| SimulatedBody (payload : IndiaMartPayload)
| SuccessBody (response : Decoded).

(** [NextResponse.json(body, { status })] *)
Record NextResponse := mkNextResponse {
  body : ResponseBody;
  status : nat
}.

Definition DEFAULT_ENDPOINT : string :=
  "https://sellerapi.indiamart.com/catalog/v1/product/add".

(** [settings?.f?.trim()] *)
Definition trimmedField (st : option AgentSettings) (f : AgentSettings -> option string)
  : option string :=
  match st with
  | Some s => option_map Js.trim (f s)
  | None => None
  end.

(** [!value] on an optional string. *)
Definition falsy (value : option string) : bool :=
  match value with
  | None => true
  | Some s => negb (Js.truthy s)
  end.

(** The [catch] block of [POST]: [thrown] is the message of what was
    thrown when it is an [Error]. *)
Definition caught (thrown : option string) : NextResponse :=
  mkNextResponse
    (ErrorBody (nullish thrown "Unexpected error while reaching IndiaMART.")) 504.

(** The part of [POST] that follows the remote call: the [try] block from
    the point where [fetch] settles on, and the [catch] block. *)
Definition afterFetch (outcome : FetchResult) : NextResponse :=
  match outcome with
  | Rejected thrown => caught thrown
  | Resolved response =>
      let isJson :=
        match contentType response with
        | Some ct => Js.truthy ct && Js.includes "application/json" ct
        | None => false
        end in
      let decoded :=
        if isJson
        then match jsonBody response with
             | inl thrown => inl thrown
             | inr v => inr (JsonValue v)
             end
        else match textBody response with
             | inl thrown => inl thrown
             | inr v => inr (TextValue v)
             end in
      match decoded with
      | inl thrown => caught thrown
      | inr responsePayload =>
          if negb (ok response)
          then mkNextResponse
                 (RemoteErrorBody "IndiaMART API returned an error."
                    (remoteStatus response) responsePayload) 502
          else mkNextResponse (SuccessBody responsePayload) 200
      end
  end.

(** [POST].  The argument is the decoded request body, [None] when
    [request.json()] throws; [fetch] is the marketplace.  The result pairs
    the response with the remote calls that were made, in order.

    The model covers the bodies of type [RequestBody]: JSON objects whose
    fields, when they are there, have the declared types.  For other bodies
    (the value null, a credential that is not a string, ...) the source
    throws before its [try] block and gives no reply of its own; they have
    no counterpart here. *)
Definition POST (fetch : RemoteRequest -> FetchResult) (request : option RequestBody)
  : NextResponse * list RemoteRequest :=
  match request with
  | None => (mkNextResponse (ErrorBody "Invalid JSON payload received.") 400, [])
  | Some rq =>
      match product rq with
      | None => (mkNextResponse (ErrorBody "Product payload not provided.") 400, [])
      | Some p =>
          let missingFields := filter (isMissing p) MINIMUM_FIELDS in
          if negb (Nat.eqb (List.length missingFields) 0)
          then (mkNextResponse
                  (ErrorBody ("Missing required product fields: "
                              ++ Js.join ", " (map fieldName missingFields))) 400, [])
          else
            let normalizedSettings :=
              {| apiKey := trimmedField (settings rq) apiKey;
                 sellerId := trimmedField (settings rq) sellerId;
                 baseUrl := trimmedField (settings rq) baseUrl;
                 mode := Some (nullish (match settings rq with
                                        | Some s => mode s
                                        | None => None
                                        end) simulate) |} in
            let preparedPayload := buildIndiaMartPayload p normalizedSettings in
            match mode normalizedSettings with
            | Some simulate =>
                (mkNextResponse (SimulatedBody preparedPayload) 200, [])
            | _ =>
                if falsy (apiKey normalizedSettings)
                then (mkNextResponse (ErrorBody "API key is required in live mode.") 400, [])
                else if falsy (sellerId normalizedSettings)
                then (mkNextResponse (ErrorBody "Seller ID is required in live mode.") 400, [])
                else
                  let endpoint :=
                    Js.orElse (nullish (baseUrl normalizedSettings) EmptyString)
                              DEFAULT_ENDPOINT in
                  let call :=
                    {| endpoint := endpoint;
                       method := "POST";
                       contentTypeHeader := "application/json";
                       authtoken := nullish (apiKey normalizedSettings) EmptyString;
                       requestBody := preparedPayload |} in
                  (afterFetch (fetch call), [call])
            end
      end
  end.

End Route.

(** ** The console: CSV import, draft normalizer and queue runner *)

Module Page.

Inductive AgentMode := simulate | live.

Record AgentSettings := mkAgentSettings {
  apiKey : string;
  sellerId : string;
  baseUrl : string;
  mode : AgentMode;
  autoStart : bool
}.

Record ProductDraft := mkProductDraft {
  title : string;
  category : string;
  price : string;
  currency : string;
  unit : string;
  stock : string;
  minOrderQty : string;
  keywords : string;
  imageUrls : string;
  shortDescription : string;
  description : string;
  features : string;
  packaging : string;
  leadTime : string
}.

(** Identifiers handed out by [makeId]. *)
Definition Id := nat.

Record ProductPayload := mkProductPayload {
  id : Id;
  createdAt : nat;
  payload : ProductDraft
}.

Inductive LogLevel := info | error | success.

Record LogEntry := mkLogEntry {
  entryId : Id;
  level : LogLevel;
  headline : string;
  details : option string;
  timestamp : nat
}.

(** *** CSV cells *)

(** The loop of [splitCsvLine]: [line] is what is left to read, [values] the
    fields pushed so far, [current] the field being built. *)
Fixpoint splitCsvLoop (line : string) (values : list string) (current : string)
  (insideQuotes : bool) : list string :=
  match line with
  | EmptyString => (values ++ [current])%list
  | String character rest =>
      if Ascii.eqb character Js.dquote then
        match rest with
        | String following rest' =>
            if insideQuotes && Ascii.eqb following Js.dquote
            then splitCsvLoop rest' values (current ++ Js.q) insideQuotes
            else splitCsvLoop rest values current (negb insideQuotes)
        | EmptyString => splitCsvLoop rest values current (negb insideQuotes)
        end
      else if Ascii.eqb character Js.comma && negb insideQuotes then
        splitCsvLoop rest (values ++ [current])%list EmptyString insideQuotes
      else
        splitCsvLoop rest values (current ++ String character EmptyString) insideQuotes
  end.

Definition splitCsvLine (line : string) : list string :=
  splitCsvLoop line [] EmptyString false.

Definition cleanCell (value : string) : string :=
  let trimmed := Js.trim value in
  if Js.startsWith Js.q trimmed && Js.endsWith Js.q trimmed
  then Js.replaceDoubledQuotes (Js.slice 1 (-1) trimmed)
  else trimmed.

Definition initialDraft : ProductDraft :=
  {| title := EmptyString;
     category := EmptyString;
     price := EmptyString;
     currency := "INR";
     unit := "Unit";
     stock := EmptyString;
     minOrderQty := EmptyString;
     keywords := EmptyString;
     imageUrls := EmptyString;
     shortDescription := EmptyString;
     description := EmptyString;
     features := EmptyString;
     packaging := EmptyString;
     leadTime := EmptyString |}.

Definition defaultSettings : AgentSettings :=
  {| apiKey := EmptyString;
     sellerId := EmptyString;
     baseUrl := "https://sellerapi.indiamart.com/catalog/v1/product/add";
     mode := simulate;
     autoStart := true |}.

(** *** The draft normalizer *)

(** The object returned by [normalizeProduct]: the draft with its three
    list-like fields exploded. *)
Record NormalizedProduct := mkNormalizedProduct {
  n_title : string;
  n_category : string;
  n_price : string;
  n_currency : string;
  n_unit : string;
  n_stock : string;
  n_minOrderQty : string;
  n_keywords : list string;
  n_imageUrls : list string;
  n_shortDescription : string;
  n_description : string;
  n_features : list string;
  n_packaging : string;
  n_leadTime : string
}.

(** [text.split(sep).map(trim).filter(Boolean)] *)
Definition explode (sep : ascii) (text : string) : list string :=
  filter Js.truthy (map Js.trim (Js.split sep text)).

Definition normalizeProduct (p : ProductDraft) : NormalizedProduct :=
  {| n_title := title p;
     n_category := category p;
     n_price := price p;
     n_currency := currency p;
     n_unit := unit p;
     n_stock := stock p;
     n_minOrderQty := minOrderQty p;
     n_keywords := explode Js.comma (keywords p);
     n_imageUrls := explode Js.LF (imageUrls p);
     n_shortDescription := shortDescription p;
     n_description := description p;
     n_features := explode Js.LF (features p);
     n_packaging := packaging p;
     n_leadTime := leadTime p |}.

(** *** The request sent to the route and the reply as the console reads it *)

Definition wireMode (m : AgentMode) : Route.AgentMode :=
  match m with
  | simulate => Route.simulate
  | live => Route.live
  end.

(** [JSON.stringify({ settings, product })] as the route decodes it: every
    field is present. *)
Definition requestBody (st : AgentSettings) (p : NormalizedProduct) : Route.RequestBody :=
  {| Route.settings :=
       Some {| Route.apiKey := Some (apiKey st);
               Route.sellerId := Some (sellerId st);
               Route.baseUrl := Some (baseUrl st);
               Route.mode := Some (wireMode (mode st)) |};
     Route.product :=
       Some {| Route.title := Some (n_title p);
               Route.category := Some (n_category p);
               Route.price := Some (n_price p);
               Route.currency := Some (n_currency p);
               Route.unit := Some (n_unit p);
               Route.stock := Some (n_stock p);
               Route.minOrderQty := Some (n_minOrderQty p);
               Route.keywords := Some (n_keywords p);
               Route.imageUrls := Some (n_imageUrls p);
               Route.shortDescription := Some (n_shortDescription p);
               Route.description := Some (n_description p);
               Route.features := Some (n_features p);
               Route.packaging := Some (n_packaging p);
               Route.leadTime := Some (n_leadTime p) |} |}.

(** What [fetch] followed by [response.json()] gives the console: an
    exception (with its message when it is an [Error]), or [response.ok]
    with the fields [error] and [status] of the decoded body, each present
    only when it is a string. *)
Inductive ApiResult :=
| ApiThrew (message : option string)
| ApiReplied (ok : bool) (error : option string) (status : option string).

(** The reply of the route as the console reads it. *)
Definition ofResponse (r : Route.NextResponse) : ApiResult :=
  let ok := ((200 <=? Route.status r) && (Route.status r <=? 299))%nat in
  match Route.body r with
  | Route.ErrorBody e => ApiReplied ok (Some e) None
  | Route.RemoteErrorBody e st _ => ApiReplied ok (Some e) (Some (Js.ofNat st))
  | Route.SimulatedBody _ => ApiReplied ok None (Some "simulated")
  | Route.SuccessBody _ => ApiReplied ok None (Some "success")
  end.

(** *** The component state *)

(** A call of [processNextProduct] suspended at its [fetch]: the item it
    took from the queue and the settings its closure holds. *)
Record Dispatch := mkDispatch {
  next : ProductPayload;
  closureSettings : AgentSettings
}.

Record State := mkState {
  (* React state *)
  settings : AgentSettings;
  draft : ProductDraft;
  queue : list ProductPayload;
  processing : bool;
  activeProductId : option Id;
  logs : list LogEntry;
  (* refs, written by the effects only *)
  queueRef : list ProductPayload;
  processingRef : bool;
  activeProductRef : option Id;
  (* [setQueue] / [setSettings] was called since the last commit: the array
     or object is a new one, whatever it holds *)
  queueDirty : bool;
  settingsDirty : bool;
  (* environment *)
  idCounter : nat;
  clock : nat;
  inflight : list Dispatch;
  sent : list Dispatch;
  timers : list AgentSettings
}.

Definition initialState : State :=
  {| settings := defaultSettings;
     draft := initialDraft;
     queue := [];
     processing := false;
     activeProductId := None;
     logs := [];
     queueRef := [];
     processingRef := false;
     activeProductRef := None;
     queueDirty := false;
     settingsDirty := false;
     idCounter := 0;
     clock := 0;
     inflight := [];
     sent := [];
     timers := [] |}.

Definition setSettings (f : AgentSettings -> AgentSettings) (s : State) : State :=
  mkState (f (settings s)) (draft s) (queue s) (processing s) (activeProductId s) (logs s)
    (queueRef s) (processingRef s) (activeProductRef s) (queueDirty s) true
    (idCounter s) (clock s) (inflight s) (sent s) (timers s).

Definition setDraft (f : ProductDraft -> ProductDraft) (s : State) : State :=
  mkState (settings s) (f (draft s)) (queue s) (processing s) (activeProductId s) (logs s)
    (queueRef s) (processingRef s) (activeProductRef s) (queueDirty s) (settingsDirty s)
    (idCounter s) (clock s) (inflight s) (sent s) (timers s).

Definition setQueue (f : list ProductPayload -> list ProductPayload) (s : State) : State :=
  mkState (settings s) (draft s) (f (queue s)) (processing s) (activeProductId s) (logs s)
    (queueRef s) (processingRef s) (activeProductRef s) true (settingsDirty s)
    (idCounter s) (clock s) (inflight s) (sent s) (timers s).

Definition setProcessing (v : bool) (s : State) : State :=
  mkState (settings s) (draft s) (queue s) v (activeProductId s) (logs s)
    (queueRef s) (processingRef s) (activeProductRef s) (queueDirty s) (settingsDirty s)
    (idCounter s) (clock s) (inflight s) (sent s) (timers s).

Definition setActiveProductId (v : option Id) (s : State) : State :=
  mkState (settings s) (draft s) (queue s) (processing s) v (logs s)
    (queueRef s) (processingRef s) (activeProductRef s) (queueDirty s) (settingsDirty s)
    (idCounter s) (clock s) (inflight s) (sent s) (timers s).

(** [makeId()] inside a state update: the identifier the counter holds. *)
Definition makeId (s : State) : Id := idCounter s.

Definition bumpId (s : State) : State :=
  mkState (settings s) (draft s) (queue s) (processing s) (activeProductId s) (logs s)
    (queueRef s) (processingRef s) (activeProductRef s) (queueDirty s) (settingsDirty s)
    (S (idCounter s)) (clock s) (inflight s) (sent s) (timers s).

Definition setLogs (f : list LogEntry -> list LogEntry) (s : State) : State :=
  mkState (settings s) (draft s) (queue s) (processing s) (activeProductId s) (f (logs s))
    (queueRef s) (processingRef s) (activeProductRef s) (queueDirty s) (settingsDirty s)
    (idCounter s) (clock s) (inflight s) (sent s) (timers s).

(** The three effects that copy the state into the refs. *)
Definition syncRefs (s : State) : State :=
  mkState (settings s) (draft s) (queue s) (processing s) (activeProductId s) (logs s)
    (queue s) (processing s) (activeProductId s) false false
    (idCounter s) (clock s) (inflight s) (sent s) (timers s).

(** [fetch] is called: the request is on its way. *)
Definition startFetch (d : Dispatch) (s : State) : State :=
  mkState (settings s) (draft s) (queue s) (processing s) (activeProductId s) (logs s)
    (queueRef s) (processingRef s) (activeProductRef s) (queueDirty s) (settingsDirty s)
    (idCounter s) (clock s) (inflight s ++ [d])%list (sent s ++ [d])%list (timers s).

Definition setInflight (l : list Dispatch) (s : State) : State :=
  mkState (settings s) (draft s) (queue s) (processing s) (activeProductId s) (logs s)
    (queueRef s) (processingRef s) (activeProductRef s) (queueDirty s) (settingsDirty s)
    (idCounter s) (clock s) l (sent s) (timers s).

Definition setTimers (l : list AgentSettings) (s : State) : State :=
  mkState (settings s) (draft s) (queue s) (processing s) (activeProductId s) (logs s)
    (queueRef s) (processingRef s) (activeProductRef s) (queueDirty s) (settingsDirty s)
    (idCounter s) (clock s) (inflight s) (sent s) l.

Definition advanceClock (ms : nat) (s : State) : State :=
  mkState (settings s) (draft s) (queue s) (processing s) (activeProductId s) (logs s)
    (queueRef s) (processingRef s) (activeProductRef s) (queueDirty s) (settingsDirty s)
    (idCounter s) (clock s + ms) (inflight s) (sent s) (timers s).

(** *** Handlers *)

Definition appendLog (lv : LogLevel) (head : string) (det : option string) (s : State)
  : State :=
  bumpId
    (setLogs (fun prev =>
                (prev ++ [{| entryId := makeId s;
                             timestamp := clock s;
                             level := lv;
                             headline := head;
                             details := det |}])%list) s).

Definition resetDraft (s : State) : State := setDraft (fun _ => initialDraft) s.

Definition addToQueue (product : ProductDraft) (s : State) : State :=
  let item := {| id := makeId s; createdAt := clock s; payload := product |} in
  let s1 := bumpId s in
  let s2 := setQueue (fun prev => (prev ++ [item])%list) s1 in
  let s3 := appendLog info ("Product queued: " ++ Js.orElse (title product) "Untitled")
                      (Some "Added to automation queue") s2 in
  if autoStart (settings s) && negb (processingRef s3)
  then setProcessing true s3
  else s3.

(** The keys of a draft, one per input of the form. *)
Inductive DraftKey :=
| key_title | key_category | key_price | key_currency | key_unit | key_stock
| key_minOrderQty | key_keywords | key_imageUrls | key_shortDescription
| key_description | key_features | key_packaging | key_leadTime.

(** [{ ...prev, [key]: value }] *)
Definition withKey (key : DraftKey) (value : string) (d : ProductDraft) : ProductDraft :=
  match key with
  | key_title =>
      mkProductDraft value (category d) (price d) (currency d) (unit d) (stock d)
        (minOrderQty d) (keywords d) (imageUrls d) (shortDescription d) (description d)
        (features d) (packaging d) (leadTime d)
  | key_category =>
      mkProductDraft (title d) value (price d) (currency d) (unit d) (stock d)
        (minOrderQty d) (keywords d) (imageUrls d) (shortDescription d) (description d)
        (features d) (packaging d) (leadTime d)
  | key_price =>
      mkProductDraft (title d) (category d) value (currency d) (unit d) (stock d)
        (minOrderQty d) (keywords d) (imageUrls d) (shortDescription d) (description d)
        (features d) (packaging d) (leadTime d)
  | key_currency =>
      mkProductDraft (title d) (category d) (price d) value (unit d) (stock d)
        (minOrderQty d) (keywords d) (imageUrls d) (shortDescription d) (description d)
        (features d) (packaging d) (leadTime d)
  | key_unit =>
      mkProductDraft (title d) (category d) (price d) (currency d) value (stock d)
        (minOrderQty d) (keywords d) (imageUrls d) (shortDescription d) (description d)
        (features d) (packaging d) (leadTime d)
  | key_stock =>
      mkProductDraft (title d) (category d) (price d) (currency d) (unit d) value
        (minOrderQty d) (keywords d) (imageUrls d) (shortDescription d) (description d)
        (features d) (packaging d) (leadTime d)
  | key_minOrderQty =>
      mkProductDraft (title d) (category d) (price d) (currency d) (unit d) (stock d)
        value (keywords d) (imageUrls d) (shortDescription d) (description d)
        (features d) (packaging d) (leadTime d)
  | key_keywords =>
      mkProductDraft (title d) (category d) (price d) (currency d) (unit d) (stock d)
        (minOrderQty d) value (imageUrls d) (shortDescription d) (description d)
        (features d) (packaging d) (leadTime d)
  | key_imageUrls =>
      mkProductDraft (title d) (category d) (price d) (currency d) (unit d) (stock d)
        (minOrderQty d) (keywords d) value (shortDescription d) (description d)
        (features d) (packaging d) (leadTime d)
  | key_shortDescription =>
      mkProductDraft (title d) (category d) (price d) (currency d) (unit d) (stock d)
        (minOrderQty d) (keywords d) (imageUrls d) value (description d)
        (features d) (packaging d) (leadTime d)
  | key_description =>
      mkProductDraft (title d) (category d) (price d) (currency d) (unit d) (stock d)
        (minOrderQty d) (keywords d) (imageUrls d) (shortDescription d) value
        (features d) (packaging d) (leadTime d)
  | key_features =>
      mkProductDraft (title d) (category d) (price d) (currency d) (unit d) (stock d)
        (minOrderQty d) (keywords d) (imageUrls d) (shortDescription d) (description d)
        value (packaging d) (leadTime d)
  | key_packaging =>
      mkProductDraft (title d) (category d) (price d) (currency d) (unit d) (stock d)
        (minOrderQty d) (keywords d) (imageUrls d) (shortDescription d) (description d)
        (features d) value (leadTime d)
  | key_leadTime =>
      mkProductDraft (title d) (category d) (price d) (currency d) (unit d) (stock d)
        (minOrderQty d) (keywords d) (imageUrls d) (shortDescription d) (description d)
        (features d) (packaging d) value
  end.

Definition handleDraftChange (key : DraftKey) (value : string) (s : State) : State :=
  setDraft (withKey key value) s.

Definition runAgent (s : State) : State :=
  if processingRef s then s
  else if Nat.eqb (List.length (queueRef s)) 0
  then appendLog info "Queue empty" (Some "No products waiting in the queue.") s
  else setProcessing true s.

Definition stopAgent (s : State) : State :=
  appendLog info "Agent paused" (Some "Automation paused manually.")
    (setActiveProductId None (setProcessing false s)).

Definition modeWord (m : AgentMode) : string :=
  match m with
  | simulate => "simulation"
  | live => "live"
  end.

(** [processNextProduct] up to its [await]: [st] is the [settings] of the
    closure that runs. *)
Definition processNextProduct (st : AgentSettings) (s : State) : State :=
  if negb (processingRef s) then s
  else
    match activeProductRef s with
    | Some _ => s
    | None =>
        match queueRef s with
        | [] =>
            appendLog success "Queue complete"
              (Some "All products processed successfully.") (setProcessing false s)
        | item :: _ =>
            let s1 := setActiveProductId (Some (id item)) s in
            let s2 :=
              appendLog info
                ("Processing: " ++ Js.orElse (title (payload item)) "Untitled product")
                (Some ("Attempting IndiaMART sync in " ++ modeWord (mode st) ++ " mode."))
                s1 in
            startFetch {| next := item; closureSettings := st |} s2
        end
    end.

(** The [try] block after the [await]: the message thrown, if any. *)
Definition thrownMessage (r : ApiResult) : option string :=
  match r with
  | ApiThrew (Some message) => Some message
  | ApiThrew None => Some "Unexpected error while uploading product."
  | ApiReplied false (Some e) _ => Some e
  | ApiReplied false None _ => Some "Unable to upload product."
  | ApiReplied true _ _ => None
  end.

(** [processNextProduct] from the point where its [fetch] settles: the
    [try], [catch] and [finally] blocks. *)
Definition settleFetch (d : Dispatch) (r : ApiResult) (s : State) : State :=
  let name := Js.orElse (title (payload (next d))) "Untitled product" in
  let s1 :=
    match thrownMessage r with
    | None =>
        appendLog success ("Uploaded: " ++ name)
          (Some (match mode (closureSettings d) with
                 | simulate => "Simulation completed. Ready to upload live."
                 | live =>
                     "IndiaMART responded with status: "
                     ++ match r with
                        | ApiReplied _ _ (Some st) => st
                        | _ => "success"
                        end
                 end)) s
    | Some message => appendLog error ("Failed: " ++ name) (Some message) s
    end in
  let s2 :=
    setQueue (filter (fun item => negb (Nat.eqb (id item) (id (next d))))) s1 in
  let s3 := setActiveProductId None s2 in
  setTimers (timers s3 ++ [closureSettings d])%list s3.

(** The callback of [setTimeout]. *)
Definition timerCallback (st : AgentSettings) (s : State) : State :=
  if processingRef s then processNextProduct st s else s.

Definition handleAddDraftToQueue (s : State) : State :=
  if negb (Js.truthy (title (draft s)))
  then appendLog error "Missing product name"
         (Some "Add a product title before queuing.") s
  else resetDraft (addToQueue (draft s) s).

Definition autoGenerateDescriptions (s : State) : State :=
  let d := draft s in
  let feats := explode Js.LF (features d) in
  let highlights :=
    if negb (Nat.eqb (List.length feats) 0)
    then Js.join ", " feats
    else "premium quality build with reliable performance" in
  let generatedShort :=
    Js.orElse (title d) "This product" ++ " delivers "
    ++ Js.toLowerCase highlights ++ "." in
  let generatedLong :=
    Js.orElse (title d) "This product"
    ++ " is engineered for businesses that need dependable supply. Key highlights include "
    ++ Js.toLowerCase highlights ++ ". Suitable for categories like "
    ++ Js.orElse (category d) "industrial supplies" ++ " with ready stock of "
    ++ Js.orElse (stock d) "custom quantities" ++ "." in
  appendLog success "Descriptions generated"
    (Some "Draft updated using the agent template.")
    (setDraft (fun prev =>
                 withKey key_description generatedLong
                   (withKey key_shortDescription generatedShort prev)) s).

(** *** CSV import *)

Definition expected : list string :=
  ["title"; "category"; "price"; "currency"; "unit"; "stock"; "minorderqty";
   "keywords"; "imageurls"; "shortdescription"; "description"; "features";
   "packaging"; "leadtime"].

(** The non-blank lines of the file, trimmed. *)
Definition csvLines (text : string) : list string :=
  filter (fun line => Nat.ltb 0 (String.length line))
         (map Js.trim (Js.splitLines text)).

Definition csvHeaders (headerLine : string) : list string :=
  map (fun column => Js.removeWhiteSpace (Js.toLowerCase (cleanCell column)))
      (splitCsvLine headerLine).

Definition missingColumns (headers : list string) : list string :=
  filter (fun key => negb (Js.arrayIncludes headers key)) expected.

Definition getValue (headers : list string) (row : list string) (column : string)
  : string :=
  match Js.indexOf headers column with
  | None => EmptyString
  | Some index =>
      match nth_error row index with
      | Some cell => cell
      | None => EmptyString
      end
  end.

(** The draft built from one data line. *)
Definition rowProduct (headers : list string) (rowLine : string) : ProductDraft :=
  let cells := map cleanCell (splitCsvLine rowLine) in
  {| title := getValue headers cells "title";
     category := getValue headers cells "category";
     price := getValue headers cells "price";
     currency := Js.orElse (getValue headers cells "currency") "INR";
     unit := Js.orElse (getValue headers cells "unit") "Unit";
     stock := getValue headers cells "stock";
     minOrderQty := getValue headers cells "minorderqty";
     keywords := getValue headers cells "keywords";
     imageUrls := getValue headers cells "imageurls";
     shortDescription := getValue headers cells "shortdescription";
     description := getValue headers cells "description";
     features := getValue headers cells "features";
     packaging := getValue headers cells "packaging";
     leadTime := getValue headers cells "leadtime" |}.

(** [parseCsvFile], from the text of the file on. *)
Definition parseCsvFile (text : string) (s : State) : State :=
  match csvLines text with
  | [] => appendLog error "Empty CSV" (Some "No header row detected.") s
  | headerLine :: rows =>
      let headers := csvHeaders headerLine in
      let missing := missingColumns headers in
      if negb (Nat.eqb (List.length missing) 0)
      then appendLog error "CSV headers mismatch"
             (Some ("Missing columns: " ++ Js.join ", " missing)) s
      else
        let s1 :=
          fold_left (fun acc rowLine => addToQueue (rowProduct headers rowLine) acc)
                    rows s in
        appendLog success "CSV imported"
          (Some (Js.ofNat (List.length rows) ++ " product rows processed.")) s1
  end.

(** *** Settings panel *)

Inductive SettingsUpdate :=
| set_apiKey (value : string)
| set_sellerId (value : string)
| set_baseUrl (value : string)
| set_mode (value : AgentMode)
| set_autoStart (checked : bool).

Definition applySettings (u : SettingsUpdate) (prev : AgentSettings) : AgentSettings :=
  match u with
  | set_apiKey v => mkAgentSettings v (sellerId prev) (baseUrl prev) (mode prev) (autoStart prev)
  | set_sellerId v => mkAgentSettings (apiKey prev) v (baseUrl prev) (mode prev) (autoStart prev)
  | set_baseUrl v => mkAgentSettings (apiKey prev) (sellerId prev) v (mode prev) (autoStart prev)
  | set_mode m => mkAgentSettings (apiKey prev) (sellerId prev) (baseUrl prev) m (autoStart prev)
  | set_autoStart b => mkAgentSettings (apiKey prev) (sellerId prev) (baseUrl prev) (mode prev) b
  end.

(** *** Commit: the effects that follow a render *)

Definition isSome {A : Type} (o : option A) : bool :=
  match o with
  | Some _ => true
  | None => false
  end.

(** One render and its effects, in the order they are declared: the refs
    are synchronised, the effect on [processing, processNextProduct] runs
    when one of the two changed, then the effect on
    [queue, processNextProduct].  [processNextProduct] is a new function
    exactly when [settings] is a new object. *)
Definition commitPass (s : State) : State :=
  let processingChanged := negb (Bool.eqb (processing s) (processingRef s)) in
  let queueChanged := queueDirty s in
  let callbackChanged := settingsDirty s in
  let s1 := syncRefs s in
  let s2 :=
    if (processingChanged || callbackChanged) && processing s1
    then processNextProduct (settings s1) s1
    else s1 in
  if queueChanged || callbackChanged
  then
    if negb (processingRef s2) || isSome (activeProductRef s2) then s2
    else if Nat.ltb 0 (List.length (queueRef s2))
    then processNextProduct (settings s1) s2
    else s2
  else s2.

(** The state updates made by the effects cause one more render. *)
Definition commit (s : State) : State := commitPass (commitPass s).

(** *** Events *)

Inductive Event :=
| DraftChange (key : DraftKey) (value : string)
| ResetDraft
| SubmitDraft
| AutoGenerate
| SettingsChange (u : SettingsUpdate)
| CsvUpload (text : string)
| RunAgent
| StopAgent
| FetchDone (k : nat) (r : ApiResult)
| TimerFire
| ClockAdvance (ms : nat).

(** [l] without its element at position [k]. *)
Fixpoint removeAt {A : Type} (k : nat) (l : list A) : list A :=
  match l, k with
  | [], _ => []
  | _ :: xs, 0 => xs
  | x :: xs, S k' => x :: removeAt k' xs
  end.

(** The handler of an event, [None] when the event cannot happen in [s]:
    no such pending request, no pending timer. *)
Definition handle (e : Event) (s : State) : option State :=
  match e with
  | DraftChange key value => Some (handleDraftChange key value s)
  | ResetDraft => Some (resetDraft s)
  | SubmitDraft => Some (handleAddDraftToQueue s)
  | AutoGenerate => Some (autoGenerateDescriptions s)
  | SettingsChange u => Some (setSettings (applySettings u) s)
  | CsvUpload text => Some (parseCsvFile text s)
  | RunAgent => Some (runAgent s)
  | StopAgent => Some (stopAgent s)
  | FetchDone k r =>
      match nth_error (inflight s) k with
      | Some d => Some (settleFetch d r (setInflight (removeAt k (inflight s)) s))
      | None => None
      end
  | TimerFire =>
      match timers s with
      | st :: rest => Some (timerCallback st (setTimers rest s))
      | [] => None
      end
  | ClockAdvance ms => Some (advanceClock ms s)
  end.

Definition step (e : Event) (s : State) : option State :=
  option_map commit (handle e s).

Fixpoint run (events : list Event) (s : State) : option State :=
  match events with
  | [] => Some s
  | e :: rest =>
      match step e s with
      | Some s' => run rest s'
      | None => None
      end
  end.

(** Nothing is pending: no request in flight, no timer armed. *)
Definition quiescent (s : State) : bool :=
  Nat.eqb (List.length (inflight s)) 0 && Nat.eqb (List.length (timers s)) 0.

(** *** What the page shows *)

(** The entries of the activity log: the last fifty, latest first. *)
Definition filteredLogs (entries : list LogEntry) : list LogEntry :=
  Js.sort (fun a b => (Z.of_nat (timestamp b) - Z.of_nat (timestamp a))%Z)
          (Js.lastN 50 entries).

(** [disabled] on the start button. *)
Definition startDisabled (s : State) : bool :=
  processing s || Nat.eqb (List.length (queue s)) 0.



End Page.

(** * Vocabulary of the properties *)

Import Page.

(** All code units of [s] are white space. *)
Fixpoint blank (s : string) : bool :=
  match s with
  | EmptyString => true
  | String c s' => Js.isWhiteSpace c && blank s'
  end.

(** No code unit of [s] is a double quote. *)
Fixpoint unquoted (s : string) : bool :=
  match s with
  | EmptyString => true
  | String c s' => negb (Ascii.eqb c Js.dquote) && unquoted s'
  end.

(** The commas of [line] that stand outside quotes, read from the left:
    a quote opens or closes a quoted stretch, except that inside one a pair
    of quotes is an escaped quote and closes nothing. *)
Fixpoint commasOutsideQuotes (line : string) (insideQuotes : bool) : nat :=
  match line with
  | EmptyString => 0
  | String c rest =>
      if Ascii.eqb c Js.dquote then
        match rest with
        | String c2 rest' =>
            if insideQuotes && Ascii.eqb c2 Js.dquote
            then commasOutsideQuotes rest' insideQuotes
            else commasOutsideQuotes rest (negb insideQuotes)
        | EmptyString => 0
        end
      else if Ascii.eqb c Js.comma && negb insideQuotes
      then S (commasOutsideQuotes rest insideQuotes)
      else commasOutsideQuotes rest insideQuotes
  end.

(** RFC 4180 quoting of one field: every quote doubled, the whole wrapped
    in quotes. *)
Fixpoint doubleQuotes (field : string) : string :=
  match field with
  | EmptyString => EmptyString
  | String c rest =>
      if Ascii.eqb c Js.dquote
      then String Js.dquote (String Js.dquote (doubleQuotes rest))
      else String c (doubleQuotes rest)
  end.

Definition quoteField (field : string) : string :=
  Js.q ++ doubleQuotes field ++ Js.q.

Definition encodeLine (fields : list string) : string :=
  Js.join "," (map quoteField fields).

(** The lines of [s] when a line feed follows it: as [Js.splitLines], but
    a carriage return that ends [s] belongs to the separator. *)
Fixpoint linesBefore (s : string) : list string :=
  match s with
  | EmptyString => [EmptyString]
  | String c s' =>
      if Ascii.eqb c Js.LF then EmptyString :: linesBefore s'
      else
        match s' with
        | String c2 s'' =>
            if Ascii.eqb c Js.CR && Ascii.eqb c2 Js.LF
            then EmptyString :: linesBefore s''
            else Js.consHead c (linesBefore s')
        | EmptyString =>
            if Ascii.eqb c Js.CR then [EmptyString] else [String c EmptyString]
        end
  end.

(** The trimmed lines that are not empty. *)
Definition nonBlank (lines : list string) : list string :=
  filter (fun line => Nat.ltb 0 (String.length line)) (map Js.trim lines).

(** The header line of the documented CSV format. *)
Definition documentedHeader : string :=
  "title,category,price,currency,unit,stock,minorderqty,keywords,imageurls,shortdescription,description,features,packaging,leadtime".

(** The field of a draft that a column of the CSV file fills. *)
Definition draftField (column : string) (d : ProductDraft) : string :=
  if String.eqb column "title" then title d
  else if String.eqb column "category" then category d
  else if String.eqb column "price" then price d
  else if String.eqb column "currency" then currency d
  else if String.eqb column "unit" then unit d
  else if String.eqb column "stock" then stock d
  else if String.eqb column "minorderqty" then minOrderQty d
  else if String.eqb column "keywords" then keywords d
  else if String.eqb column "imageurls" then imageUrls d
  else if String.eqb column "shortdescription" then shortDescription d
  else if String.eqb column "description" then description d
  else if String.eqb column "features" then features d
  else if String.eqb column "packaging" then packaging d
  else if String.eqb column "leadtime" then leadTime d
  else EmptyString.

(** What a column holds when its cell is empty or absent. *)
Definition columnDefault (column : string) : string :=
  if String.eqb column "currency" then "INR"
  else if String.eqb column "unit" then "Unit"
  else EmptyString.

(** An optional string that is there and not empty. *)
Definition present (v : option string) : Prop :=
  exists t, v = Some t /\ t <> EmptyString.

(** An optional string that is absent or empty. *)
Definition absentOrEmpty (v : option string) : Prop :=
  v = None \/ v = Some EmptyString.

(** Two lines that differ by white space at their end. *)
Definition sameUpToEnd (a b : string) : Prop := Js.trimEnd a = Js.trimEnd b.

(** A state between two events: the refs hold what the state holds and no
    effect is waiting for a commit. *)
Definition settled (s : State) : Prop :=
  queueRef s = queue s /\
  processingRef s = processing s /\
  activeProductRef s = activeProductId s /\
  queueDirty s = false /\
  settingsDirty s = false.

(** The component as it is mounted, with [st] for settings. *)
Definition mounted (st : AgentSettings) : State :=
  syncRefs (setSettings (fun _ => st) initialState).

(** A log event at level success or error. *)
Definition terminal (e : LogEntry) : bool :=
  match level e with
  | info => false
  | error => true
  | success => true
  end.

Definition terminalCount (l : list LogEntry) : nat := List.length (filter terminal l).

Definition errorCount (l : list LogEntry) : nat :=
  List.length (filter (fun e => match level e with error => true | _ => false end) l).

(** The log event that reports the outcome of one dispatched item. *)
Definition isOutcome (e : LogEntry) : bool :=
  match level e with
  | success => String.prefix "Uploaded: " (headline e)
  | error => String.prefix "Failed: " (headline e)
  | info => false
  end.

Definition outcomeCount (l : list LogEntry) : nat := List.length (filter isOutcome l).

(** Events that come from the network and the clock, not from the operator. *)
Definition fromEnvironment (e : Event) : bool :=
  match e with
  | FetchDone _ _ => true
  | TimerFire => true
  | ClockAdvance _ => true
  | _ => false
  end.

(** The operator types a whole draft into the form, one field at a time. *)
Definition fillDraft (d : ProductDraft) : list Event :=
  [DraftChange key_title (title d);
   DraftChange key_category (category d);
   DraftChange key_price (price d);
   DraftChange key_currency (currency d);
   DraftChange key_unit (unit d);
   DraftChange key_stock (stock d);
   DraftChange key_minOrderQty (minOrderQty d);
   DraftChange key_keywords (keywords d);
   DraftChange key_imageUrls (imageUrls d);
   DraftChange key_shortDescription (shortDescription d);
   DraftChange key_description (description d);
   DraftChange key_features (features d);
   DraftChange key_packaging (packaging d);
   DraftChange key_leadTime (leadTime d)].

(** The operator enqueues [d] through the form. *)
Definition enqueue (d : ProductDraft) : list Event := (fillDraft d ++ [SubmitDraft])%list.

(** An event that may set the runner going: the start button, or an
    attempt to enqueue (form or CSV) while [autoStart] is on. *)
Definition mayStart (e : Event) (s : State) : bool :=
  match e with
  | RunAgent => true
  | SubmitDraft => autoStart (settings s)
  | CsvUpload _ => autoStart (settings s)
  | _ => false
  end.

(** [run], stopping with [None] at the first event that [mayStart]. *)
Fixpoint runWithoutStart (events : list Event) (s : State) : option State :=
  match events with
  | [] => Some s
  | e :: rest =>
      if mayStart e s then None
      else
        match step e s with
        | Some s' => runWithoutStart rest s'
        | None => None
        end
  end.


(** The log event written when the dispatch [d] settles with [r]. *)
Definition outcomeEntry (d : Dispatch) (r : ApiResult) (s : State) : LogEntry :=
  let name := Js.orElse (title (payload (next d))) "Untitled product" in
  match thrownMessage r with
  | Some message =>
      mkLogEntry (idCounter s) error ("Failed: " ++ name) (Some message) (clock s)
  | None =>
      mkLogEntry (idCounter s) success ("Uploaded: " ++ name)
        (Some (match mode (closureSettings d) with
               | simulate => "Simulation completed. Ready to upload live."
               | live =>
                   "IndiaMART responded with status: "
                   ++ match r with
                      | ApiReplied _ _ (Some st) => st
                      | _ => "success"
                      end
               end)) (clock s)
  end.


(** The number of requests that settle in a list of events. *)
Definition completions (events : list Event) : nat :=
  List.length (filter (fun e => match e with FetchDone _ _ => true | _ => false end) events).

(** The titles of the items for which a request was sent, oldest first. *)
Definition sentTitles (s : State) : list string :=
  map (fun d => title (payload (next d))) (sent s).

(** A reply of the route that the console takes for a success. *)
Definition replyOk : ApiResult := ApiReplied true None (Some "simulated").

(** A draft that only has a title. *)
Definition titled (name : string) : ProductDraft := withKey key_title name initialDraft.

(** The default settings with [autoStart] switched off. *)
Definition manualStart : AgentSettings :=
  applySettings (set_autoStart false) defaultSettings.

(** The state in which a pending request has settled, before the commit. *)
Definition settledRequest (s : State) (k : nat) (d : Dispatch) (r : ApiResult) : State :=
  settleFetch d r (setInflight (removeAt k (inflight s)) s).

(** The state reached by [events], the state itself when they cannot all
    happen. *)
Definition afterEvents (events : list Event) (s : State) : State :=
  match run events s with
  | Some s' => s'
  | None => s
  end.

(** The runner between two events of a drain that nobody interferes with:
    the refs are up to date; the identifiers of the queue are distinct; the
    head of the queue, if any, is the one item in flight and the active
    one; a stopped runner has an empty queue; a running one with an empty
    queue has a timer armed.  [total] and [outcomes] are the numbers that
    stay constant: terminal events plus items queued plus one while
    running, and outcome events plus items queued. *)
Definition draining (total outcomes : nat) (s : State) : Prop :=
  settled s /\
  NoDup (map id (queue s)) /\
  map next (inflight s) = firstn 1 (queue s) /\
  activeProductId s = option_map id (hd_error (queue s)) /\
  (processing s = false -> queue s = []) /\
  (processing s = true -> queue s = [] -> timers s <> []) /\
  terminalCount (logs s) + List.length (queue s) + (if processing s then 1 else 0) = total /\
  outcomeCount (logs s) + List.length (queue s) = outcomes.

(** The runner at rest with [n] items queued, nothing in flight, no timer
    and auto start off; the log holds [c] events at level success or error,
    none of them the outcome of an item. *)
Definition atRest (n c : nat) (s : State) : Prop :=
  processing s = false /\
  activeProductId s = None /\
  inflight s = [] /\
  timers s = [] /\
  autoStart (settings s) = false /\
  NoDup (map id (queue s)) /\
  (forall x, In x (queue s) -> id x < idCounter s) /\
  List.length (queue s) = n /\
  terminalCount (logs s) = c /\
  outcomeCount (logs s) = 0.

(** The same between two events. *)
Definition ready (n c : nat) (s : State) : Prop := settled s /\ atRest n c s.

(** A way to enqueue: the operator fills in the form and submits it, or
    uploads a CSV file. *)
Inductive Enqueue :=
| ViaForm (d : ProductDraft)
| ViaCsv (text : string).

Definition enqueueEvents (q : Enqueue) : list Event :=
  match q with
  | ViaForm d => enqueue d
  | ViaCsv text => [CsvUpload text]
  end.

(** The enqueue succeeds: the draft has a title; the file has a header
    line, and every expected column is named in it. *)
Definition accepted (q : Enqueue) : Prop :=
  match q with
  | ViaForm d => title d <> EmptyString
  | ViaCsv text =>
      exists headerLine rows,
        csvLines text = headerLine :: rows /\
        forall name, In name expected -> In name (csvHeaders headerLine)
  end.

(** The number of items an enqueue that succeeds adds to the queue: one
    for the form, one per data line for a file. *)
Definition admitted (q : Enqueue) : nat :=
  match q with
  | ViaForm _ => 1
  | ViaCsv text => List.length (tl (csvLines text))
  end.

(** The number of files among [ops]. *)
Definition imports (ops : list Enqueue) : nat :=
  List.length (filter (fun q => match q with ViaCsv _ => true | ViaForm _ => false end) ops).

(** The schedule in which every request succeeds at once and the timers
    fire afterwards. *)
Definition promptSchedule (n : nat) : list Event :=
  (repeat (FetchDone 0 replyOk) n ++ repeat TimerFire n)%list.

(** The reply of the route, as the console reads it, to the request the
    console sends for [d] under [st], with a marketplace that cannot be
    reached. *)
Definition routeReply (st : AgentSettings) (d : ProductDraft) : ApiResult :=
  ofResponse
    (fst (Route.POST (fun _ => Route.Rejected None)
            (Some (requestBody st (normalizeProduct d))))).

(** A CSV file with the documented header and one data line whose first
    cell, the title, is empty. *)
Definition untitledCsv : string :=
  documentedHeader ++ String Js.LF ",Tools,100".

(** No code unit of [s] is a comma. *)
Fixpoint commaFree (s : string) : bool :=
  match s with
  | EmptyString => true
  | String c s' => negb (Ascii.eqb c Js.comma) && commaFree s'
  end.

(** A field as it is written in a line: quoted ([true], any content) or
    bare ([false]). *)
Definition Field : Type := (bool * string)%type.

Definition render (f : Field) : string :=
  if fst f then quoteField (snd f) else snd f.

(** A bare field holds no quote and no comma. *)
Definition bareOk (f : Field) : Prop :=
  fst f = false -> unquoted (snd f) = true /\ commaFree (snd f) = true.

Definition renderLine (fields : list Field) : string :=
  Js.join "," (map render fields).

(** No code unit of [s] is [sep]. *)
Fixpoint free (sep : ascii) (s : string) : bool :=
  match s with
  | EmptyString => true
  | String c s' => negb (Ascii.eqb c sep) && free sep s'
  end.

(** An entry as the normalizer leaves it: not empty, no white space at
    either end. *)
Definition tidy (x : string) : Prop := x <> EmptyString /\ Js.trim x = x.

(** No two quotes stand next to each other in [s]. *)
Fixpoint noDoubledQuote (s : string) : bool :=
  match s with
  | EmptyString => true
  | String c1 tl =>
      match tl with
      | EmptyString => true
      | String c2 _ =>
          negb (Ascii.eqb c1 Js.dquote && Ascii.eqb c2 Js.dquote) && noDoubledQuote tl
      end
  end.

(** The [error] field of a reply of the route, when it has one. *)
Definition errorText (b : Route.ResponseBody) : option string :=
  match b with
  | Route.ErrorBody e => Some e
  | Route.RemoteErrorBody e _ _ => Some e
  | Route.SimulatedBody _ => None
  | Route.SuccessBody _ => None
  end.

(** The marketplace says that its answer is JSON. *)
Definition declaresJson (r : Route.RemoteResponse) : bool :=
  match Route.contentType r with
  | Some ct => Js.includes "application/json" ct
  | None => false
  end.

(** The body of the answer can be read: as JSON that parses when the
    answer is declared to be JSON, as text otherwise. *)
Definition readable (r : Route.RemoteResponse) : Prop :=
  if declaresJson r
  then exists v, Route.jsonBody r = inr v
  else exists v, Route.textBody r = inr v.

(** The reply of the route to the request the console sends for the draft
    [d] under the settings [st], as the console reads it. *)
Definition consoleReply (fetch : Route.RemoteRequest -> Route.FetchResult)
  (st : AgentSettings) (d : ProductDraft) : ApiResult :=
  ofResponse (fst (Route.POST fetch (Some (requestBody st (normalizeProduct d))))).

(** What the page shows about the runner hangs together: the active item,
    if any, is the head of the queue and the runner is on; a runner that
    is on with no active item has an empty queue. *)
Definition coherent (s : State) : Prop :=
  (forall i, activeProductId s = Some i ->
     processing s = true /\ option_map id (hd_error (queue s)) = Some i) /\
  (processing s = true -> activeProductId s = None -> queue s = []).

(** The state a handler leaves for the commit: the active item, if any, is
    the head of the queue and the runner is on; and when the runner is on
    with items queued and none active, something tells the effects to run. *)
Definition committable (h : State) : Prop :=
  (forall i, activeProductId h = Some i ->
     processing h = true /\ option_map id (hd_error (queue h)) = Some i) /\
  (processing h = true -> activeProductId h = None -> queue h <> [] ->
     queueDirty h = true \/ settingsDirty h = true \/ processingRef h = false).

(** The log event written when [item] is dispatched under [st]. *)
Definition processingEntry (st : AgentSettings) (item : ProductPayload) (s : State)
  : LogEntry :=
  mkLogEntry (idCounter s) info
    ("Processing: " ++ Js.orElse (title (payload item)) "Untitled product")
    (Some ("Attempting IndiaMART sync in " ++ modeWord (mode st) ++ " mode."))
    (clock s).

(** The drafts for which a request was sent, oldest first. *)
Definition sentDrafts (s : State) : list ProductDraft :=
  map (fun d => payload (next d)) (sent s).

(** [draft[key]] *)
Definition fieldOf (key : DraftKey) (d : ProductDraft) : string :=
  match key with
  | key_title => title d
  | key_category => category d
  | key_price => price d
  | key_currency => currency d
  | key_unit => unit d
  | key_stock => stock d
  | key_minOrderQty => minOrderQty d
  | key_keywords => keywords d
  | key_imageUrls => imageUrls d
  | key_shortDescription => shortDescription d
  | key_description => description d
  | key_features => features d
  | key_packaging => packaging d
  | key_leadTime => leadTime d
  end.

(** [l'] is [l] with elements added at its end. *)
Definition grows {A : Type} (l l' : list A) : Prop := exists more, l' = (l ++ more)%list.

(** The comparison that [filteredLogs] sorts by. *)
Definition byLatest (a b : LogEntry) : Z :=
  (Z.of_nat (timestamp b) - Z.of_nat (timestamp a))%Z.

(** [a] may be shown above [b]: it is not older. *)
Definition notOlder (a b : LogEntry) : Prop := timestamp b <= timestamp a.

(** [a] was logged at an earlier time than [b]. *)
Definition older (a b : LogEntry) : Prop := timestamp a < timestamp b.

(** An event that is neither a start, nor an attempt to enqueue, nor a
    request that settles. *)
Definition quietEvent (e : Event) : bool :=
  match e with
  | RunAgent => false
  | SubmitDraft => false
  | CsvUpload _ => false
  | FetchDone _ _ => false
  | _ => true
  end.

(** * Properties *)

(** ** Strings *)

Section StringFacts.

Lemma append_empty_r (s : string) : s ++ EmptyString = s.
Proof.
  induction s as [|c s IH]; simpl; [reflexivity | now rewrite IH].
Qed.

Lemma append_assoc (a b c : string) : (a ++ b) ++ c = a ++ (b ++ c).
Proof.
  induction a as [|x a IH]; simpl; [reflexivity | now rewrite IH].
Qed.

Lemma append_char_assoc (a : string) (c : ascii) (b : string) :
  (a ++ String c EmptyString) ++ b = a ++ String c b.
Proof. now rewrite append_assoc. Qed.

(** Induction that peels one or two code units at a time, as the loop of
    [splitCsvLine] does. *)
Lemma string_pair_ind (P : string -> Prop) :
  P EmptyString ->
  (forall c, P (String c EmptyString)) ->
  (forall c1 c2 s, P s -> P (String c2 s) -> P (String c1 (String c2 s))) ->
  forall s, P s.
Proof.
  intros H0 H1 H2 s.
  assert (H : P s /\ forall c, P (String c s)).
  { induction s as [|c s [IHa IHb]].
    - split; [exact H0 | exact H1].
    - split; [apply IHb | intro c0; apply H2; [exact IHa | apply IHb]]. }
  exact (proj1 H).
Qed.

Lemma prefix_append (p s : string) : String.prefix p (p ++ s) = true.
Proof.
  induction p as [|c p IH]; simpl.
  - now destruct s.
  - destruct (ascii_dec c c) as [_|n]; [exact IH | now elim n].
Qed.

Lemma includes_prefix (n h : string) : String.prefix n h = true -> Js.includes n h = true.
Proof.
  intros H. destruct h; simpl in *; rewrite H; reflexivity.
Qed.

Lemma includes_append_r (n a b : string) :
  Js.includes n b = true -> Js.includes n (a ++ b) = true.
Proof.
  intros H. induction a as [|c a IH]; simpl; [exact H|].
  rewrite IH. apply orb_true_r.
Qed.

Lemma includes_append_l (n a : string) : Js.includes n (n ++ a) = true.
Proof. apply includes_prefix, prefix_append. Qed.

(** A member of an array shows in the joined text. *)
Lemma includes_join (sep x : string) (xs : list string) :
  In x xs -> Js.includes x (Js.join sep xs) = true.
Proof.
  unfold Js.join.
  induction xs as [|y ys IH]; intros Hin; [contradiction|].
  destruct ys as [|z zs].
  - destruct Hin as [->|[]]. simpl.
    rewrite <- (append_empty_r x) at 2. apply includes_append_l.
  - change (String.concat sep (y :: z :: zs))
      with (y ++ sep ++ String.concat sep (z :: zs)).
    destruct Hin as [->|Hin].
    + apply includes_append_l.
    + apply includes_append_r, includes_append_r, IH, Hin.
Qed.

Lemma trimStart_blank (s : string) : blank s = true -> Js.trimStart s = EmptyString.
Proof.
  induction s as [|c s IH]; simpl; [reflexivity|].
  intros H. apply andb_true_iff in H as [Hc Hs]. rewrite Hc. now apply IH.
Qed.

Lemma trim_blank (s : string) : blank s = true -> Js.trim s = EmptyString.
Proof. intros H. unfold Js.trim. now rewrite trimStart_blank. Qed.

(** Trimming the two ends in either order gives the same string. *)
Lemma trimEnd_head (c : ascii) (s : string) :
  Js.isWhiteSpace c = false ->
  exists t, Js.trimEnd (String c s) = String c t.
Proof.
  intros Hc. simpl. destruct (Js.trimEnd s) as [|d t].
  - rewrite Hc. now exists EmptyString.
  - now exists (String d t).
Qed.

Lemma trim_comm (s : string) : Js.trimEnd (Js.trimStart s) = Js.trimStart (Js.trimEnd s).
Proof.
  induction s as [|c s IH]; [reflexivity|].
  destruct (Js.isWhiteSpace c) eqn:Hc.
  - change (Js.trimStart (String c s)) with
      (if Js.isWhiteSpace c then Js.trimStart s else String c s).
    rewrite Hc, IH. simpl Js.trimEnd at 2.
    destruct (Js.trimEnd s) as [|d t] eqn:He.
    + rewrite Hc. reflexivity.
    + simpl. rewrite Hc. reflexivity.
  - change (Js.trimStart (String c s)) with
      (if Js.isWhiteSpace c then Js.trimStart s else String c s).
    rewrite Hc.
    destruct (trimEnd_head c s Hc) as [t Ht]. rewrite Ht. simpl. now rewrite Hc.
Qed.

End StringFacts.

(** ** The CSV tokenizer *)

Section Tokenizer.

Lemma splitCsvLoop_cons2 (c1 c2 : ascii) (s : string) (values : list string)
  (current : string) (inside : bool) :
  splitCsvLoop (String c1 (String c2 s)) values current inside
  = if Ascii.eqb c1 Js.dquote then
      if inside && Ascii.eqb c2 Js.dquote
      then splitCsvLoop s values (current ++ Js.q) inside
      else splitCsvLoop (String c2 s) values current (negb inside)
    else if Ascii.eqb c1 Js.comma && negb inside
    then splitCsvLoop (String c2 s) (values ++ [current])%list EmptyString inside
    else splitCsvLoop (String c2 s) values (current ++ String c1 EmptyString) inside.
Proof. reflexivity. Qed.

Lemma commasOutsideQuotes_cons2 (c1 c2 : ascii) (s : string) (inside : bool) :
  commasOutsideQuotes (String c1 (String c2 s)) inside
  = if Ascii.eqb c1 Js.dquote then
      if inside && Ascii.eqb c2 Js.dquote
      then commasOutsideQuotes s inside
      else commasOutsideQuotes (String c2 s) (negb inside)
    else if Ascii.eqb c1 Js.comma && negb inside
    then S (commasOutsideQuotes (String c2 s) inside)
    else commasOutsideQuotes (String c2 s) inside.
Proof. reflexivity. Qed.

Lemma splitCsvLoop_values (line : string) :
  forall values current inside,
    splitCsvLoop line values current inside
    = (values ++ splitCsvLoop line [] current inside)%list.
Proof.
  induction line as [|c|c1 c2 s IHs IHc] using string_pair_ind; intros values current inside.
  - reflexivity.
  - simpl. destruct (Ascii.eqb c Js.dquote); [reflexivity|].
    destruct (Ascii.eqb c Js.comma && negb inside); simpl; [|reflexivity].
    now rewrite <- app_assoc.
  - rewrite !splitCsvLoop_cons2.
    destruct (Ascii.eqb c1 Js.dquote).
    + destruct (inside && Ascii.eqb c2 Js.dquote).
      * apply IHs.
      * apply IHc.
    + destruct (Ascii.eqb c1 Js.comma && negb inside).
      * rewrite (IHc (values ++ [current])%list), (IHc ([] ++ [current])%list).
        now rewrite <- app_assoc.
      * apply IHc.
Qed.

(** The number of fields is one more than the number of commas outside
    quotes. *)
Lemma splitCsvLoop_length (line : string) :
  forall values current inside,
    List.length (splitCsvLoop line values current inside)
    = List.length values + S (commasOutsideQuotes line inside).
Proof.
  induction line as [|c|c1 c2 s IHs IHc] using string_pair_ind; intros values current inside.
  - simpl. rewrite length_app. simpl. lia.
  - simpl. destruct (Ascii.eqb c Js.dquote); simpl.
    + rewrite length_app. simpl. lia.
    + destruct (Ascii.eqb c Js.comma && negb inside); simpl;
        rewrite ?length_app; simpl; rewrite ?length_app; simpl; lia.
  - rewrite splitCsvLoop_cons2, commasOutsideQuotes_cons2.
    destruct (Ascii.eqb c1 Js.dquote).
    + destruct (inside && Ascii.eqb c2 Js.dquote); [apply IHs | apply IHc].
    + destruct (Ascii.eqb c1 Js.comma && negb inside).
      * rewrite IHc, length_app. simpl. lia.
      * apply IHc.
Qed.

Lemma split_nonempty (sep : ascii) (s : string) : Js.split sep s <> [].
Proof.
  destruct s as [|c s]; simpl; [discriminate|].
  destruct (Ascii.eqb c sep); [discriminate|].
  destruct (Js.split sep s); discriminate.
Qed.

(** On a line without quotes the loop cuts at every comma and copies every
    other code unit. *)
Lemma splitCsvLoop_unquoted (line : string) :
  unquoted line = true ->
  forall current,
    splitCsvLoop line [] current false
    = match Js.split Js.comma line with
      | [] => []
      | x :: xs => (current ++ x) :: xs
      end.
Proof.
  induction line as [|c line IH]; intros Hq current.
  - simpl. now rewrite append_empty_r.
  - simpl in Hq. apply andb_true_iff in Hq as [Hc Hq].
    apply negb_true_iff in Hc.
    assert (Hstep : splitCsvLoop (String c line) [] current false
                    = if Ascii.eqb c Js.comma
                      then splitCsvLoop line [current] EmptyString false
                      else splitCsvLoop line [] (current ++ String c EmptyString) false).
    { simpl. rewrite Hc. destruct (Ascii.eqb c Js.comma); reflexivity. }
    rewrite Hstep. simpl Js.split.
    destruct (Ascii.eqb c Js.comma).
    + rewrite splitCsvLoop_values, (IH Hq EmptyString), append_empty_r.
      destruct (Js.split Js.comma line) as [|x xs] eqn:E.
      * now apply split_nonempty in E.
      * reflexivity.
    + rewrite (IH Hq).
      destruct (Js.split Js.comma line) as [|x xs] eqn:E.
      * now apply split_nonempty in E.
      * simpl. now rewrite append_char_assoc.
Qed.

Lemma splitCsvLine_unquoted (line : string) :
  unquoted line = true -> splitCsvLine line = Js.split Js.comma line.
Proof.
  intros Hq. unfold splitCsvLine. rewrite (splitCsvLoop_unquoted line Hq).
  destruct (Js.split Js.comma line); reflexivity.
Qed.

(** Joining the pieces of a split with the separator gives the text back. *)
Lemma join_split (s : string) : Js.join "," (Js.split Js.comma s) = s.
Proof.
  unfold Js.join.
  induction s as [|c s IH]; [reflexivity|].
  simpl Js.split. destruct (Ascii.eqb c Js.comma) eqn:Hc.
  - apply Ascii.eqb_eq in Hc. subst c.
    destruct (Js.split Js.comma s) as [|x xs] eqn:E.
    + now apply split_nonempty in E.
    + change (String.concat "," (EmptyString :: x :: xs))
        with (EmptyString ++ "," ++ String.concat "," (x :: xs)).
      rewrite IH. reflexivity.
  - destruct (Js.split Js.comma s) as [|x xs] eqn:E.
    + now apply split_nonempty in E.
    + simpl Js.consHead. destruct xs as [|y ys].
      * simpl in *. now rewrite IH.
      * change (String.concat "," (String c x :: y :: ys))
          with (String c (x ++ "," ++ String.concat "," (y :: ys))).
        change (String.concat "," (x :: y :: ys))
          with (x ++ "," ++ String.concat "," (y :: ys)) in IH.
        now rewrite IH.
Qed.

Lemma unquoted_trimStart (s : string) :
  unquoted s = true -> unquoted (Js.trimStart s) = true.
Proof.
  induction s as [|c s IH]; [reflexivity|].
  intros H. simpl. destruct (Js.isWhiteSpace c); [|exact H].
  simpl in H. apply andb_true_iff in H as [_ H]. now apply IH.
Qed.

Lemma unquoted_trimEnd (s : string) :
  unquoted s = true -> unquoted (Js.trimEnd s) = true.
Proof.
  induction s as [|c s IH]; [reflexivity|].
  intros H. simpl in H. apply andb_true_iff in H as [Hc H].
  simpl. specialize (IH H).
  destruct (Js.trimEnd s) as [|d t].
  - destruct (Js.isWhiteSpace c); simpl; [reflexivity | now rewrite Hc].
  - simpl in *. now rewrite Hc, IH.
Qed.

Lemma startsWith_q (c : ascii) (t : string) :
  Js.startsWith Js.q (String c t) = Ascii.eqb c Js.dquote.
Proof.
  unfold Js.startsWith, Js.q. cbn [String.prefix].
  destruct (ascii_dec Js.dquote c) as [e|n].
  - subst c. rewrite Ascii.eqb_refl. now destruct t.
  - symmetry. apply Ascii.eqb_neq. congruence.
Qed.

(** [cleanCell] only trims a cell that holds no quote. *)
Lemma cleanCell_unquoted (cell : string) :
  unquoted cell = true -> cleanCell cell = Js.trim cell.
Proof.
  intros H. unfold cleanCell.
  assert (Ht : unquoted (Js.trim cell) = true)
    by (unfold Js.trim; now apply unquoted_trimEnd, unquoted_trimStart).
  destruct (Js.trim cell) as [|c t]; [reflexivity|].
  simpl in Ht. apply andb_true_iff in Ht as [Hc _]. apply negb_true_iff in Hc.
  now rewrite startsWith_q, Hc.
Qed.

Lemma unquoted_split (s : string) :
  unquoted s = true -> Forall (fun x => unquoted x = true) (Js.split Js.comma s).
Proof.
  induction s as [|c s IH]; intros H.
  - repeat constructor.
  - simpl in H. apply andb_true_iff in H as [Hc H]. specialize (IH H).
    simpl. destruct (Ascii.eqb c Js.comma).
    + constructor; [reflexivity | exact IH].
    + destruct (Js.split Js.comma s) as [|x xs]; simpl.
      * repeat constructor. simpl. now rewrite Hc.
      * inversion IH; subst. constructor; [|assumption].
        simpl. now rewrite Hc.
Qed.

End Tokenizer.

(** ** Quoted fields *)

Section QuotedFields.

Lemma splitCsvLoop_plain (c : ascii) (rest : string) (values : list string)
  (current : string) (inside : bool) :
  Ascii.eqb c Js.dquote = false ->
  splitCsvLoop (String c rest) values current inside
  = if Ascii.eqb c Js.comma && negb inside
    then splitCsvLoop rest (values ++ [current])%list EmptyString inside
    else splitCsvLoop rest values (current ++ String c EmptyString) inside.
Proof. intros H. simpl. now rewrite H. Qed.

Lemma splitCsvLoop_open (rest : string) (values : list string) (current : string) :
  splitCsvLoop (String Js.dquote rest) values current false
  = splitCsvLoop rest values current true.
Proof.
  destruct rest as [|c r]; [reflexivity|].
  now rewrite splitCsvLoop_cons2.
Qed.

(** Inside quotes, the doubled form of [field] followed by the closing
    quote adds exactly [field] to the field being built. *)
Lemma splitCsvLoop_quoted_body (field : string) :
  forall rest values current,
    rest = EmptyString \/ (exists r, rest = String Js.comma r) ->
    splitCsvLoop (doubleQuotes field ++ Js.q ++ rest) values current true
    = splitCsvLoop rest values (current ++ field) false.
Proof.
  induction field as [|c field IH]; intros rest values current Hrest.
  - rewrite append_empty_r. destruct Hrest as [->|[r ->]]; [reflexivity|].
    change (doubleQuotes EmptyString ++ Js.q ++ String Js.comma r)
      with (String Js.dquote (String Js.comma r)).
    now rewrite splitCsvLoop_cons2.
  - cbn [doubleQuotes]. destruct (Ascii.eqb c Js.dquote) eqn:Hc.
    + apply Ascii.eqb_eq in Hc. subst c.
      change ((String Js.dquote (String Js.dquote (doubleQuotes field))) ++ Js.q ++ rest)
        with (String Js.dquote (String Js.dquote (doubleQuotes field ++ Js.q ++ rest))).
      rewrite splitCsvLoop_cons2. rewrite Ascii.eqb_refl. cbn [andb].
      rewrite (IH rest values (current ++ Js.q) Hrest).
      unfold Js.q. now rewrite append_char_assoc.
    + change ((String c (doubleQuotes field)) ++ Js.q ++ rest)
        with (String c (doubleQuotes field ++ Js.q ++ rest)).
      rewrite (splitCsvLoop_plain _ _ _ _ _ Hc), andb_false_r.
      rewrite (IH rest values _ Hrest). now rewrite append_char_assoc.
Qed.

Lemma splitCsvLoop_quoted_field (field rest : string) (values : list string)
  (current : string) :
  rest = EmptyString \/ (exists r, rest = String Js.comma r) ->
  splitCsvLoop (quoteField field ++ rest) values current false
  = splitCsvLoop rest values (current ++ field) false.
Proof.
  intros Hrest. unfold quoteField.
  rewrite append_assoc, append_assoc.
  change (Js.q ++ doubleQuotes field ++ Js.q ++ rest)
    with (String Js.dquote (doubleQuotes field ++ Js.q ++ rest)).
  rewrite splitCsvLoop_open. now apply splitCsvLoop_quoted_body.
Qed.

Lemma splitCsvLoop_encodeLine (fields : list string) :
  fields <> [] ->
  forall values,
    splitCsvLoop (encodeLine fields) values EmptyString false = (values ++ fields)%list.
Proof.
  induction fields as [|f fs IH]; intros Hne values; [congruence|].
  destruct fs as [|g gs].
  - change (encodeLine [f]) with (quoteField f).
    rewrite <- (append_empty_r (quoteField f)).
    rewrite splitCsvLoop_quoted_field by now left.
    reflexivity.
  - change (encodeLine (f :: g :: gs))
      with (quoteField f ++ String Js.comma (encodeLine (g :: gs))).
    rewrite splitCsvLoop_quoted_field by (right; eauto).
    rewrite splitCsvLoop_plain by reflexivity.
    cbn [andb negb]. rewrite Ascii.eqb_refl. cbn [andb].
    rewrite IH by discriminate.
    now rewrite <- app_assoc.
Qed.

(** X1.  The tokenizer alone inverts RFC 4180 quoting: whatever the fields hold
    (commas, quotes, white space), quoting them and joining them with commas
    gives a line that [splitCsvLine] reads back as the same fields. *)
Lemma splitCsvLine_encodeLine (fields : list string) :
  fields <> [] -> splitCsvLine (encodeLine fields) = fields.
Proof.
  intros H. unfold splitCsvLine. now rewrite splitCsvLoop_encodeLine.
Qed.

(** Outside quotes, a bare field adds exactly its text to the field being
    built. *)
Lemma splitCsvLoop_bare_field (field : string) :
  forall rest values current,
    unquoted field = true ->
    commaFree field = true ->
    splitCsvLoop (field ++ rest) values current false
    = splitCsvLoop rest values (current ++ field) false.
Proof.
  induction field as [|c field IH]; intros rest values current Hq Hc.
  - now rewrite append_empty_r.
  - simpl in Hq, Hc.
    apply andb_true_iff in Hq as [Hq1 Hq2]. apply negb_true_iff in Hq1.
    apply andb_true_iff in Hc as [Hc1 Hc2]. apply negb_true_iff in Hc1.
    change (String c field ++ rest) with (String c (field ++ rest)).
    rewrite (splitCsvLoop_plain _ _ _ _ _ Hq1), Hc1. cbn [andb].
    rewrite (IH rest values _ Hq2 Hc2). now rewrite append_char_assoc.
Qed.

Lemma splitCsvLoop_rendered_field (f : Field) (rest : string) (values : list string)
  (current : string) :
  bareOk f ->
  rest = EmptyString \/ (exists r, rest = String Js.comma r) ->
  splitCsvLoop (render f ++ rest) values current false
  = splitCsvLoop rest values (current ++ snd f) false.
Proof.
  intros Hok Hrest. destruct f as [[|] content]; unfold render; cbn [fst snd].
  - now apply splitCsvLoop_quoted_field.
  - destruct (Hok eq_refl) as [Hq Hc]. now apply splitCsvLoop_bare_field.
Qed.

Lemma splitCsvLoop_renderLine (fields : list Field) :
  fields <> [] ->
  Forall bareOk fields ->
  forall values,
    splitCsvLoop (renderLine fields) values EmptyString false
    = (values ++ map snd fields)%list.
Proof.
  induction fields as [|f fs IH]; intros Hne Hall values; [congruence|].
  inversion Hall as [|f' l Hf Hfs]; subst.
  destruct fs as [|g gs].
  - change (renderLine [f]) with (render f).
    rewrite <- (append_empty_r (render f)).
    rewrite splitCsvLoop_rendered_field by (auto).
    reflexivity.
  - change (renderLine (f :: g :: gs))
      with (render f ++ String Js.comma (renderLine (g :: gs))).
    rewrite splitCsvLoop_rendered_field by (eauto).
    rewrite splitCsvLoop_plain by reflexivity.
    cbn [andb negb]. rewrite Ascii.eqb_refl. cbn [andb].
    rewrite IH by (discriminate || assumption).
    now rewrite <- app_assoc.
Qed.

(** A line made of quoted and bare fields is read back field for field. *)
Lemma splitCsvLine_renderLine (fields : list Field) :
  fields <> [] -> Forall bareOk fields ->
  splitCsvLine (renderLine fields) = map snd fields.
Proof.
  intros Hne Hall. unfold splitCsvLine. now rewrite splitCsvLoop_renderLine.
Qed.

(** The two lines given as examples of quoted fields: the tokenizer and the
    cell cleaner agree on them. *)
Lemma quoted_examples :
  let wire := "Wire," ++ Js.q ++ "16 AWG, copper" ++ Js.q ++ ",10" in
  let said := Js.q ++ "He said " ++ Js.q ++ Js.q ++ "hi" ++ Js.q ++ Js.q ++ Js.q ++ ",2" in
  splitCsvLine wire = ["Wire"; "16 AWG, copper"; "10"] /\
  map cleanCell (splitCsvLine wire) = ["Wire"; "16 AWG, copper"; "10"] /\
  splitCsvLine said = ["He said " ++ Js.q ++ "hi" ++ Js.q; "2"] /\
  map cleanCell (splitCsvLine said) = ["He said " ++ Js.q ++ "hi" ++ Js.q; "2"].
Proof. repeat split; vm_compute; reflexivity. Qed.

(** C5, at the failing input.  The data line made of the quoted field whose
    content is hi between two literal quotes, followed by the field 2: the
    tokenizer decodes each doubled quote to one quote, and [cleanCell],
    applied to every cell of a data row, then takes the two decoded quotes
    for enclosing quotes and removes them.  A field that is one literal
    quote comes out empty. *)
Theorem cleanCell_drops_decoded_quotes :
  let content := Js.q ++ "hi" ++ Js.q in
  let line := encodeLine [content; "2"] in
  line = Js.q ++ Js.q ++ Js.q ++ "hi" ++ Js.q ++ Js.q ++ Js.q ++ "," ++ Js.q ++ "2" ++ Js.q /\
  splitCsvLine line = [content; "2"] /\
  map cleanCell (splitCsvLine line) = ["hi"; "2"] /\
  map cleanCell (splitCsvLine (encodeLine [Js.q])) = [EmptyString].
Proof. repeat split; vm_compute; reflexivity. Qed.

(** C6, counterexample.  On the line a, b ,c (no quote anywhere) the cells
    of the import are a, b and c: the blanks around b are gone, so the
    field is not the text between the two commas. *)
Lemma cells_not_verbatim_counterexample :
  unquoted "a, b ,c" = true /\
  Js.split Js.comma "a, b ,c" = ["a"; " b "; "c"] /\
  map cleanCell (splitCsvLine "a, b ,c") = ["a"; "b"; "c"] /\
  map cleanCell (splitCsvLine "a, b ,c") <> Js.split Js.comma "a, b ,c".
Proof. repeat split; vm_compute; congruence. Qed.

(** C6, amended.  Whatever the line, [splitCsvLine] emits one more field
    than the line has commas outside quotes, a last field included when no
    comma ends the line, and cleaning the cells keeps their number.  The
    tokenizer emits a field written without quotes code unit for code unit,
    white space included: on a line without any quote it cuts at the commas
    and joining its fields with commas gives the line back, and on a line
    that mixes quoted and bare fields every field comes out with its exact
    content.  The import then cleans each cell, and for a cell without
    quotes that is a trim: the cell is the field without its leading and
    trailing white space. *)
Theorem unquoted_fields_verbatim_then_trimmed (line plain : string)
  (fields : list Field) :
  unquoted plain = true ->
  fields <> [] ->
  Forall bareOk fields ->
  List.length (splitCsvLine line) = S (commasOutsideQuotes line false) /\
  List.length (map cleanCell (splitCsvLine line)) = S (commasOutsideQuotes line false) /\
  splitCsvLine plain = Js.split Js.comma plain /\
  Js.join "," (splitCsvLine plain) = plain /\
  map cleanCell (splitCsvLine plain) = map Js.trim (Js.split Js.comma plain) /\
  splitCsvLine (renderLine fields) = map snd fields /\
  (forall k content,
     nth_error fields k = Some (false, content) ->
     nth_error (splitCsvLine (renderLine fields)) k = Some content /\
     nth_error (map cleanCell (splitCsvLine (renderLine fields))) k
     = Some (Js.trim content)).
Proof.
  intros Hq Hne Hall.
  assert (Hlen : List.length (splitCsvLine line) = S (commasOutsideQuotes line false))
    by (unfold splitCsvLine; now rewrite splitCsvLoop_length).
  assert (Hmixed := splitCsvLine_renderLine fields Hne Hall).
  split; [exact Hlen|].
  split; [now rewrite length_map|].
  split; [now apply splitCsvLine_unquoted|].
  split; [rewrite splitCsvLine_unquoted by assumption; apply join_split|].
  split.
  { rewrite splitCsvLine_unquoted by assumption.
    apply map_ext_in. intros cell Hin.
    apply cleanCell_unquoted.
    pose proof (unquoted_split plain Hq) as Hsplit.
    rewrite Forall_forall in Hsplit. now apply Hsplit. }
  split; [exact Hmixed|].
  intros k content Hk. rewrite Hmixed.
  assert (Hsnd : nth_error (map snd fields) k = Some content)
    by exact (map_nth_error snd k fields Hk).
  split; [exact Hsnd|].
  rewrite (map_nth_error cleanCell k (map snd fields) Hsnd). f_equal.
  apply cleanCell_unquoted.
  rewrite Forall_forall in Hall.
  apply nth_error_In in Hk. now destruct (Hall _ Hk eq_refl).
Qed.

Lemma unquoted_fields_verbatim_then_trimmed_witness :
  let line := "a," ++ Js.q ++ "b,c" ++ Js.q in
  let plain := " a , b,c" in
  let fields := [(false, " Wire "); (true, "16 AWG, copper"); (false, "10")] in
  List.length (splitCsvLine line) = 2 /\
  List.length (map cleanCell (splitCsvLine line)) = 2 /\
  splitCsvLine plain = [" a "; " b"; "c"] /\
  Js.join "," (splitCsvLine plain) = plain /\
  map cleanCell (splitCsvLine plain) = ["a"; "b"; "c"] /\
  splitCsvLine (renderLine fields) = [" Wire "; "16 AWG, copper"; "10"] /\
  nth_error (map cleanCell (splitCsvLine (renderLine fields))) 0 = Some "Wire".
Proof.
  destruct (unquoted_fields_verbatim_then_trimmed
              ("a," ++ Js.q ++ "b,c" ++ Js.q) " a , b,c"
              [(false, " Wire "); (true, "16 AWG, copper"); (false, "10")] eq_refl)
    as (H1 & H2 & H3 & H4 & H5 & H6 & H7).
  - discriminate.
  - repeat constructor; discriminate.
  - destruct (H7 0 " Wire " eq_refl) as [_ H8].
    exact (conj H1 (conj H2 (conj H3 (conj H4 (conj H5 (conj H6 H8)))))).
Defined.

End QuotedFields.

(** ** Lines of a CSV file *)

Section Lines.

Lemma splitLines_cons2 (c1 c2 : ascii) (s : string) :
  Js.splitLines (String c1 (String c2 s))
  = if Ascii.eqb c1 Js.LF then EmptyString :: Js.splitLines (String c2 s)
    else if Ascii.eqb c1 Js.CR && Ascii.eqb c2 Js.LF
    then EmptyString :: Js.splitLines s
    else Js.consHead c1 (Js.splitLines (String c2 s)).
Proof. reflexivity. Qed.

Lemma linesBefore_cons2 (c1 c2 : ascii) (s : string) :
  linesBefore (String c1 (String c2 s))
  = if Ascii.eqb c1 Js.LF then EmptyString :: linesBefore (String c2 s)
    else if Ascii.eqb c1 Js.CR && Ascii.eqb c2 Js.LF
    then EmptyString :: linesBefore s
    else Js.consHead c1 (linesBefore (String c2 s)).
Proof. reflexivity. Qed.

Lemma linesBefore_nonempty (s : string) : linesBefore s <> [].
Proof.
  induction s as [|c|c1 c2 s IHs IHc] using string_pair_ind.
  - discriminate.
  - simpl. destruct (Ascii.eqb c Js.LF); [discriminate|].
    destruct (Ascii.eqb c Js.CR); discriminate.
  - rewrite linesBefore_cons2.
    destruct (Ascii.eqb c1 Js.LF); [discriminate|].
    destruct (Ascii.eqb c1 Js.CR && Ascii.eqb c2 Js.LF); [discriminate|].
    destruct (linesBefore (String c2 s)); [now elim IHc | discriminate].
Qed.

Lemma consHead_app (c : ascii) (l1 l2 : list string) :
  l1 <> [] -> Js.consHead c (l1 ++ l2) = (Js.consHead c l1 ++ l2)%list.
Proof. destruct l1; [congruence | reflexivity]. Qed.

(** The lines of a text cut at a line feed: those before it, then those
    after it. *)
Lemma splitLines_app_LF (x y : string) :
  Js.splitLines (x ++ String Js.LF y) = (linesBefore x ++ Js.splitLines y)%list.
Proof.
  induction x as [|c|c1 c2 s IHs IHc] using string_pair_ind.
  - reflexivity.
  - change (String c EmptyString ++ String Js.LF y) with (String c (String Js.LF y)).
    rewrite splitLines_cons2. simpl linesBefore.
    destruct (Ascii.eqb c Js.LF); [reflexivity|].
    rewrite Ascii.eqb_refl, andb_true_r.
    destruct (Ascii.eqb c Js.CR); reflexivity.
  - change (String c1 (String c2 s) ++ String Js.LF y)
      with (String c1 (String c2 (s ++ String Js.LF y))).
    rewrite splitLines_cons2, linesBefore_cons2.
    change (String c2 (s ++ String Js.LF y)) with (String c2 s ++ String Js.LF y).
    destruct (Ascii.eqb c1 Js.LF); [now rewrite IHc|].
    destruct (Ascii.eqb c1 Js.CR && Ascii.eqb c2 Js.LF); [now rewrite IHs|].
    rewrite IHc. apply consHead_app, linesBefore_nonempty.
Qed.

Lemma sameUpToEnd_cons (c : ascii) (a b : string) :
  sameUpToEnd a b -> sameUpToEnd (String c a) (String c b).
Proof. unfold sameUpToEnd. intros H. simpl. now rewrite H. Qed.

Lemma sameUpToEnd_consHead (c : ascii) (l1 l2 : list string) :
  Forall2 sameUpToEnd l1 l2 -> Forall2 sameUpToEnd (Js.consHead c l1) (Js.consHead c l2).
Proof.
  intros H. destruct H as [|a b l1 l2 Hab H]; simpl.
  - repeat constructor.
  - constructor; [now apply sameUpToEnd_cons | exact H].
Qed.

Lemma linesBefore_splitLines (s : string) :
  Forall2 sameUpToEnd (linesBefore s) (Js.splitLines s).
Proof.
  induction s as [|c|c1 c2 s IHs IHc] using string_pair_ind.
  - repeat constructor.
  - simpl. destruct (Ascii.eqb c Js.LF); [repeat constructor|].
    destruct (Ascii.eqb c Js.CR) eqn:Hc; [|repeat constructor].
    apply Ascii.eqb_eq in Hc. subst c. repeat constructor.
  - rewrite linesBefore_cons2, splitLines_cons2.
    destruct (Ascii.eqb c1 Js.LF); [constructor; [reflexivity | exact IHc]|].
    destruct (Ascii.eqb c1 Js.CR && Ascii.eqb c2 Js.LF);
      [constructor; [reflexivity | exact IHs]|].
    now apply sameUpToEnd_consHead.
Qed.

Lemma nonBlank_sameUpToEnd (l1 l2 : list string) :
  Forall2 sameUpToEnd l1 l2 -> nonBlank l1 = nonBlank l2.
Proof.
  unfold nonBlank. intros H. f_equal.
  induction H as [|a b l1 l2 Hab H IH]; [reflexivity|].
  simpl. f_equal; [|exact IH].
  unfold Js.trim. rewrite !trim_comm. unfold sameUpToEnd in Hab. now rewrite Hab.
Qed.

Lemma nonBlank_app (l1 l2 : list string) :
  nonBlank (l1 ++ l2) = (nonBlank l1 ++ nonBlank l2)%list.
Proof. unfold nonBlank. now rewrite map_app, filter_app. Qed.

Lemma csvLines_nonBlank (text : string) : csvLines text = nonBlank (Js.splitLines text).
Proof. reflexivity. Qed.

Lemma csvLines_app_LF (x y : string) :
  csvLines (x ++ String Js.LF y) = (csvLines x ++ csvLines y)%list.
Proof.
  rewrite !csvLines_nonBlank, splitLines_app_LF, nonBlank_app.
  f_equal. apply nonBlank_sameUpToEnd, linesBefore_splitLines.
Qed.

Lemma blank_consHead (c : ascii) (l : list string) :
  Js.isWhiteSpace c = true ->
  Forall (fun x => blank x = true) l ->
  Forall (fun x => blank x = true) (Js.consHead c l).
Proof.
  intros Hc H. destruct H as [|a l Ha H]; simpl.
  - repeat constructor. simpl. now rewrite Hc.
  - constructor; [simpl; now rewrite Hc, Ha | exact H].
Qed.

Lemma blank_splitLines (w : string) :
  blank w = true -> Forall (fun x => blank x = true) (Js.splitLines w).
Proof.
  induction w as [|c|c1 c2 s IHs IHc] using string_pair_ind; intros H.
  - repeat constructor.
  - simpl in H. rewrite andb_true_r in H. simpl.
    destruct (Ascii.eqb c Js.LF); [repeat constructor|].
    repeat constructor. simpl. now rewrite H.
  - simpl in H. apply andb_true_iff in H as [H1 H2].
    assert (Hs : blank s = true) by (now apply andb_true_iff in H2 as [_ H2]).
    assert (Hc : blank (String c2 s) = true) by exact H2.
    rewrite splitLines_cons2.
    destruct (Ascii.eqb c1 Js.LF); [constructor; [reflexivity | now apply IHc]|].
    destruct (Ascii.eqb c1 Js.CR && Ascii.eqb c2 Js.LF);
      [constructor; [reflexivity | now apply IHs]|].
    apply blank_consHead; [exact H1 | now apply IHc].
Qed.

Lemma csvLines_blank (w : string) : blank w = true -> csvLines w = [].
Proof.
  intros H. rewrite csvLines_nonBlank. unfold nonBlank.
  pose proof (blank_splitLines w H) as Hall.
  induction Hall as [|a l Ha Hall IH]; [reflexivity|].
  simpl. rewrite (trim_blank a Ha). exact IH.
Qed.

(** A blank line between two parts of a file changes nothing to the lines
    the import reads. *)
Lemma csvLines_skip_blank (a w b : string) :
  blank w = true ->
  csvLines (a ++ String Js.LF (w ++ String Js.LF b)) = csvLines (a ++ String Js.LF b).
Proof.
  intros H. rewrite !csvLines_app_LF, (csvLines_blank w H). reflexivity.
Qed.

End Lines.

(** ** CSV import *)

Section CsvImport.

Lemma arrayIncludes_In (xs : list string) (x : string) :
  Js.arrayIncludes xs x = true <-> In x xs.
Proof.
  unfold Js.arrayIncludes. rewrite existsb_exists. split.
  - intros [y [Hy He]]. apply String.eqb_eq in He. now subst.
  - intros H. exists x. split; [exact H | apply String.eqb_refl].
Qed.

Lemma missingColumns_In (headers : list string) (c : string) :
  In c (missingColumns headers) <-> In c expected /\ ~ In c headers.
Proof.
  unfold missingColumns. rewrite filter_In, negb_true_iff.
  pose proof (arrayIncludes_In headers c) as H.
  destruct (Js.arrayIncludes headers c); intuition congruence.
Qed.

(** [indexOf] finds the first position of a name. *)
Lemma indexOf_first (headers : list string) (c : string) :
  forall i,
    nth_error headers i = Some c ->
    (forall j, j < i -> nth_error headers j <> Some c) ->
    Js.indexOf headers c = Some i.
Proof.
  induction headers as [|h hs IH]; intros i Hi Hfirst.
  - now destruct i.
  - simpl. destruct i as [|i].
    + simpl in Hi. injection Hi as ->. now rewrite String.eqb_refl.
    + destruct (String.eqb h c) eqn:E.
      * apply String.eqb_eq in E. subst h.
        exfalso. apply (Hfirst 0); [lia | reflexivity].
      * rewrite (IH i); [reflexivity | exact Hi |].
        intros j Hj. apply (Hfirst (S j)). lia.
Qed.

Lemma getValue_by_name (headers cells : list string) (c : string) (i : nat) :
  nth_error headers i = Some c ->
  (forall j, j < i -> nth_error headers j <> Some c) ->
  getValue headers cells c = nth i cells EmptyString.
Proof.
  intros Hi Hfirst. unfold getValue. rewrite (indexOf_first headers c i Hi Hfirst).
  destruct (nth_error cells i) as [cell|] eqn:E.
  - symmetry. now apply nth_error_nth.
  - apply nth_error_None in E. symmetry. now apply nth_overflow.
Qed.

Lemma orElse_empty (v : string) : Js.orElse v EmptyString = v.
Proof.
  unfold Js.orElse, Js.truthy. destruct (String.eqb v EmptyString) eqn:E; simpl.
  - apply String.eqb_eq in E. now subst.
  - reflexivity.
Qed.

Lemma rowProduct_field (headers : list string) (rowLine c : string) :
  In c expected ->
  draftField c (rowProduct headers rowLine)
  = Js.orElse (getValue headers (map cleanCell (splitCsvLine rowLine)) c) (columnDefault c).
Proof.
  intros Hin. unfold expected in Hin.
  repeat (destruct Hin as [<-|Hin];
          [first [ reflexivity | symmetry; apply orElse_empty ] |]).
  contradiction.
Qed.

Lemma appendLog_queue lv h d s : queue (appendLog lv h d s) = queue s.
Proof. reflexivity. Qed.

Lemma appendLog_logs lv h d s :
  logs (appendLog lv h d s)
  = (logs s ++ [mkLogEntry (idCounter s) lv h d (clock s)])%list.
Proof. reflexivity. Qed.

Lemma addToQueue_queue (p : ProductDraft) (s : State) :
  queue (addToQueue p s)
  = (queue s ++ [mkProductPayload (idCounter s) (clock s) p])%list.
Proof. unfold addToQueue. destruct (_ && _); reflexivity. Qed.

Lemma addToQueue_rows (f : string -> ProductDraft) (rows : list string) :
  forall s,
    map payload (queue (fold_left (fun acc rowLine => addToQueue (f rowLine) acc) rows s))
    = (map payload (queue s) ++ map f rows)%list.
Proof.
  induction rows as [|r rows IH]; intros s; simpl.
  - now rewrite app_nil_r.
  - rewrite IH, addToQueue_queue, map_app. simpl. now rewrite <- app_assoc.
Qed.

(** C7, counterexample.  Under the documented header, the data line Widget
    has one cell and thirteen missing trailing columns; the draft gets INR
    for the missing currency and Unit for the missing unit, not the empty
    string. *)
Lemma short_row_defaults_counterexample :
  let headers := csvHeaders documentedHeader in
  let cells := map cleanCell (splitCsvLine "Widget") in
  missingColumns headers = [] /\
  List.length cells = 1 /\
  Js.indexOf headers "currency" = Some 3 /\
  Js.indexOf headers "unit" = Some 4 /\
  currency (rowProduct headers "Widget") = "INR" /\
  unit (rowProduct headers "Widget") = "Unit" /\
  currency (rowProduct headers "Widget") <> EmptyString /\
  unit (rowProduct headers "Widget") <> EmptyString.
Proof. repeat split; vm_compute; congruence. Qed.

(** C7, amended.  For a file with a header line: the header cells are
    cleaned, case-folded and stripped of white space ([csvHeaders]).
    - When a required name is missing, nothing is enqueued and one error
      event is logged whose details list the missing names: every required
      name absent from the header occurs in that message.
    - When all fourteen are present, one item is enqueued per data line, in
      order, built by [rowProduct]; each of its fields is looked up by the
      first position of its name in the header, wherever that is; a row
      with too few cells gives the empty string for a missing plain column,
      and the defaults INR and Unit for a missing currency and unit (as it
      does for an empty cell there).
    - A blank line (white space only) between two lines of the file changes
      nothing to the import. *)
Theorem csv_import_by_header (text : string) (s : State) (headerLine : string)
  (rows : list string) :
  csvLines text = headerLine :: rows ->
  let headers := csvHeaders headerLine in
  let missing := missingColumns headers in
  let s' := parseCsvFile text s in
  (forall c, In c expected -> ~ In c headers -> In c missing) /\
  (missing <> [] ->
     queue s' = queue s /\ processing s' = processing s /\
     exists entry message,
       logs s' = (logs s ++ [entry])%list /\
       level entry = error /\
       headline entry = "CSV headers mismatch" /\
       details entry = Some message /\
       message = "Missing columns: " ++ Js.join ", " missing /\
       forall c, In c expected -> ~ In c headers -> Js.includes c message = true) /\
  (missing = [] ->
     map payload (queue s') = (map payload (queue s) ++ map (rowProduct headers) rows)%list) /\
  (forall rowLine c,
     In c expected ->
     draftField c (rowProduct headers rowLine)
     = Js.orElse (getValue headers (map cleanCell (splitCsvLine rowLine)) c)
                 (columnDefault c)) /\
  (forall cells c i,
     nth_error headers i = Some c ->
     (forall j, j < i -> nth_error headers j <> Some c) ->
     getValue headers cells c = nth i cells EmptyString /\
     (List.length cells <= i -> getValue headers cells c = EmptyString)) /\
  (forall a w b,
     blank w = true ->
     parseCsvFile (a ++ String Js.LF (w ++ String Js.LF b)) s
     = parseCsvFile (a ++ String Js.LF b) s).
Proof.
  intros Hlines headers missing s'.
  assert (Hmiss : forall c, In c expected -> ~ In c headers -> In c missing)
    by (intros c H1 H2; apply missingColumns_In; now split).
  split; [exact Hmiss|].
  split; [|split; [|split; [|split]]].
  - intros Hne. subst s'. unfold parseCsvFile. rewrite Hlines.
    fold headers. fold missing.
    destruct missing as [|m ms] eqn:Em; [congruence|].
    cbn [List.length Nat.eqb negb].
    split; [reflexivity|]. split; [reflexivity|].
    eexists. eexists. rewrite appendLog_logs.
    split; [reflexivity|]. cbn [level headline details].
    repeat split.
    intros c H1 H2. apply includes_append_r, includes_join. now apply Hmiss.
  - intros He. subst s'. unfold parseCsvFile. rewrite Hlines.
    fold headers. fold missing. rewrite He. cbn [List.length Nat.eqb negb].
    rewrite appendLog_queue. apply addToQueue_rows.
  - intros rowLine c Hin. now apply rowProduct_field.
  - intros cells c i Hi Hfirst.
    pose proof (getValue_by_name headers cells c i Hi Hfirst) as Hv.
    split; [exact Hv|]. intros Hlen. rewrite Hv. now apply nth_overflow.
  - intros a w b Hb. unfold parseCsvFile. now rewrite csvLines_skip_blank.
Qed.

Lemma csv_import_by_header_witness :
  let text := "title,category" ++ String Js.LF ("Widget,Tools") in
  let s' := parseCsvFile text initialState in
  queue s' = [] /\
  exists entry,
    logs s' = [entry] /\
    details entry
    = Some ("Missing columns: price, currency, unit, stock, minorderqty, keywords, "
            ++ "imageurls, shortdescription, description, features, packaging, leadtime").
Proof.
  destruct (csv_import_by_header
              ("title,category" ++ String Js.LF ("Widget,Tools")) initialState
              "title,category" ["Widget,Tools"] eq_refl)
    as (_ & Hfail & _).
  destruct Hfail as (Hq & _ & entry & message & Hl & _ & _ & Hd & Hm & _).
  - vm_compute. discriminate.
  - split; [exact Hq|]. exists entry. split; [exact Hl|].
    rewrite Hd, Hm. reflexivity.
Defined.

End CsvImport.

(** ** The upload route *)

Section UploadRoute.

Variable fetch : Route.RemoteRequest -> Route.FetchResult.

Lemma present_some (c : ascii) (t : string) : present (Some (String c t)).
Proof. exists (String c t). split; [reflexivity | discriminate]. Qed.

Lemma isMissing_present (p : Route.ProductPayload) (f : Route.MinimumField) :
  present (Route.fieldValue p f) -> Route.isMissing p f = false.
Proof.
  intros [t [Ht Hne]]. unfold Route.isMissing. rewrite Ht.
  now apply String.eqb_neq.
Qed.

Lemma no_missing_fields (p : Route.ProductPayload) :
  present (Route.title p) ->
  present (Route.description p) ->
  present (Route.shortDescription p) ->
  filter (Route.isMissing p) Route.MINIMUM_FIELDS = [].
Proof.
  intros Ht Hd Hs. unfold Route.MINIMUM_FIELDS. cbn [filter].
  rewrite (isMissing_present p Route.k_title Ht).
  rewrite (isMissing_present p Route.k_description Hd).
  now rewrite (isMissing_present p Route.k_shortDescription Hs).
Qed.

(** [POST] once the product is known to be there. *)
Lemma POST_product (rq : Route.RequestBody) (p : Route.ProductPayload) :
  Route.product rq = Some p ->
  Route.POST fetch (Some rq)
  = let missingFields := filter (Route.isMissing p) Route.MINIMUM_FIELDS in
    if negb (Nat.eqb (List.length missingFields) 0)
    then (Route.mkNextResponse
            (Route.ErrorBody ("Missing required product fields: "
                              ++ Js.join ", " (map Route.fieldName missingFields))) 400, [])
    else
      let normalizedSettings :=
        Route.mkAgentSettings
          (Route.trimmedField (Route.settings rq) Route.apiKey)
          (Route.trimmedField (Route.settings rq) Route.sellerId)
          (Route.trimmedField (Route.settings rq) Route.baseUrl)
          (Some (Route.nullish (match Route.settings rq with
                                | Some st => Route.mode st
                                | None => None
                                end) Route.simulate)) in
      let preparedPayload := Route.buildIndiaMartPayload p normalizedSettings in
      match Route.mode normalizedSettings with
      | Some Route.simulate =>
          (Route.mkNextResponse (Route.SimulatedBody preparedPayload) 200, [])
      | _ =>
          if Route.falsy (Route.apiKey normalizedSettings)
          then (Route.mkNextResponse (Route.ErrorBody "API key is required in live mode.") 400, [])
          else if Route.falsy (Route.sellerId normalizedSettings)
          then (Route.mkNextResponse (Route.ErrorBody "Seller ID is required in live mode.") 400, [])
          else
            let call :=
              Route.mkRemoteRequest
                (Js.orElse (Route.nullish (Route.baseUrl normalizedSettings) EmptyString)
                           Route.DEFAULT_ENDPOINT)
                "POST" "application/json"
                (Route.nullish (Route.apiKey normalizedSettings) EmptyString)
                preparedPayload in
            (Route.afterFetch (fetch call), [call])
      end.
Proof. intros H. unfold Route.POST. rewrite H. reflexivity. Qed.

(** C8, counterexample.  A draft that only has a title, normalized and
    submitted in simulate mode, is refused with status 400: the route
    checks the three required fields before it looks at the mode. *)
Lemma simulate_needs_required_fields_counterexample :
  let product := normalizeProduct (withKey key_title "Widget" initialDraft) in
  mode defaultSettings = simulate /\
  Route.POST (fun _ => Route.Rejected None) (Some (requestBody defaultSettings product))
  = (Route.mkNextResponse
       (Route.ErrorBody "Missing required product fields: description, shortDescription")
       400, []).
Proof. split; vm_compute; reflexivity. Qed.

(** C8, amended.  For every record whose title, description and short
    description are present and not empty, and settings whose mode is
    simulate, [POST] answers 200 with a body tagged simulated and makes no
    remote call; in the payload PRODUCT_NAME is the title, IMAGE1, IMAGE2
    and IMAGE3 are the first three image URLs (the empty string where there
    is none; nothing else of the list is in the payload), KEY_FEATURES is
    the features joined with a pipe, KEYWORDS the keywords joined with a
    comma, and CURRENCY_TYPE is the currency, INR when it is absent. *)
Theorem simulate_returns_mapped_payload (p : Route.ProductPayload)
  (st : Route.AgentSettings) :
  Route.mode st = Some Route.simulate ->
  present (Route.title p) ->
  present (Route.description p) ->
  present (Route.shortDescription p) ->
  exists w,
    Route.POST fetch (Some (Route.mkRequestBody (Some st) (Some p)))
    = (Route.mkNextResponse (Route.SimulatedBody w) 200, []) /\
    Route.PRODUCT_NAME w = Route.title p /\
    Route.IMAGE1 w = nth 0 (Route.nullish (Route.imageUrls p) []) EmptyString /\
    Route.IMAGE2 w = nth 1 (Route.nullish (Route.imageUrls p) []) EmptyString /\
    Route.IMAGE3 w = nth 2 (Route.nullish (Route.imageUrls p) []) EmptyString /\
    Route.KEY_FEATURES w = Js.join "|" (Route.nullish (Route.features p) []) /\
    Route.KEYWORDS w = Js.join "," (Route.nullish (Route.keywords p) []) /\
    Route.CURRENCY_TYPE w = Route.nullish (Route.currency p) "INR" /\
    (Route.currency p = None -> Route.CURRENCY_TYPE w = "INR").
Proof.
  intros Hmode Ht Hd Hs.
  eexists. split.
  - rewrite (POST_product (Route.mkRequestBody (Some st) (Some p)) p eq_refl).
    cbv zeta. rewrite (no_missing_fields p Ht Hd Hs).
    cbn [List.length Nat.eqb negb Route.settings Route.mode Route.nullish].
    rewrite Hmode. cbn [Route.nullish]. reflexivity.
  - cbn [Route.buildIndiaMartPayload Route.PRODUCT_NAME Route.IMAGE1 Route.IMAGE2
         Route.IMAGE3 Route.KEY_FEATURES Route.KEYWORDS Route.CURRENCY_TYPE].
    repeat split.
    + destruct (Route.imageUrls p) as [[|a l]|]; reflexivity.
    + destruct (Route.imageUrls p) as [[|a [|b l]]|]; reflexivity.
    + destruct (Route.imageUrls p) as [[|a [|b [|c l]]]|]; reflexivity.
    + destruct (Route.features p); reflexivity.
    + destruct (Route.keywords p); reflexivity.
    + intros ->. reflexivity.
Qed.

End UploadRoute.

Lemma simulate_returns_mapped_payload_witness :
  let p :=
    Route.mkProductPayload (Some "Wire") None None None None None None
      (Some ["copper"; "awg"]) (Some ["u1"; "u2"; "u3"; "u4"]) (Some "short")
      (Some "long") (Some ["tough"; "light"]) None None in
  let st := Route.mkAgentSettings None None None (Some Route.simulate) in
  exists w,
    Route.POST (fun _ => Route.Rejected None)
      (Some (Route.mkRequestBody (Some st) (Some p)))
    = (Route.mkNextResponse (Route.SimulatedBody w) 200, []) /\
    Route.PRODUCT_NAME w = Some "Wire" /\
    Route.IMAGE1 w = "u1" /\ Route.IMAGE2 w = "u2" /\ Route.IMAGE3 w = "u3" /\
    Route.KEY_FEATURES w = "tough|light" /\
    Route.KEYWORDS w = "copper,awg" /\
    Route.CURRENCY_TYPE w = "INR".
Proof.
  destruct (simulate_returns_mapped_payload (fun _ => Route.Rejected None)
              (Route.mkProductPayload (Some "Wire") None None None None None None
                 (Some ["copper"; "awg"]) (Some ["u1"; "u2"; "u3"; "u4"]) (Some "short")
                 (Some "long") (Some ["tough"; "light"]) None None)
              (Route.mkAgentSettings None None None (Some Route.simulate))
              eq_refl (present_some _ _) (present_some _ _) (present_some _ _))
    as (w & Hpost & Hn & H1 & H2 & H3 & Hf & Hk & Hc & _).
  exists w.
  exact (conj Hpost (conj Hn (conj H1 (conj H2 (conj H3 (conj Hf (conj Hk Hc))))))).
Defined.

Section Credentials.

Variable fetch : Route.RemoteRequest -> Route.FetchResult.

Lemma falsy_absentOrEmpty (st : Route.AgentSettings)
  (f : Route.AgentSettings -> option string) :
  absentOrEmpty (f st) -> Route.falsy (Route.trimmedField (Some st) f) = true.
Proof. unfold Route.trimmedField. intros [-> | ->]; reflexivity. Qed.

Lemma falsy_blank (st : Route.AgentSettings)
  (f : Route.AgentSettings -> option string) (v : string) :
  f st = Some v -> blank v = true -> Route.falsy (Route.trimmedField (Some st) f) = true.
Proof.
  intros Hf Hb. unfold Route.trimmedField. rewrite Hf. simpl.
  now rewrite (trim_blank v Hb).
Qed.

Lemma falsy_trimmed (st : Route.AgentSettings)
  (f : Route.AgentSettings -> option string) (v : string) :
  f st = Some v -> Js.trim v <> EmptyString ->
  Route.falsy (Route.trimmedField (Some st) f) = false.
Proof.
  intros Hf Hne. unfold Route.trimmedField. rewrite Hf. simpl.
  unfold Js.truthy. rewrite negb_involutive. now apply String.eqb_neq.
Qed.

Lemma orElse_truthy (a b : string) : a <> EmptyString -> Js.orElse a b = a.
Proof.
  intros H. unfold Js.orElse, Js.truthy.
  apply String.eqb_neq in H. now rewrite H.
Qed.

(** [POST] in live mode, once the required fields are known to be there. *)
Lemma POST_live (p : Route.ProductPayload) (st : Route.AgentSettings)
  (rq : Route.RequestBody) :
  Route.product rq = Some p ->
  Route.settings rq = Some st ->
  filter (Route.isMissing p) Route.MINIMUM_FIELDS = [] ->
  Route.mode st = Some Route.live ->
  Route.POST fetch (Some rq)
  = let normalizedSettings :=
      Route.mkAgentSettings
        (Route.trimmedField (Some st) Route.apiKey)
        (Route.trimmedField (Some st) Route.sellerId)
        (Route.trimmedField (Some st) Route.baseUrl)
        (Some Route.live) in
    if Route.falsy (Route.apiKey normalizedSettings)
    then (Route.mkNextResponse (Route.ErrorBody "API key is required in live mode.") 400, [])
    else if Route.falsy (Route.sellerId normalizedSettings)
    then (Route.mkNextResponse (Route.ErrorBody "Seller ID is required in live mode.") 400, [])
    else
      let call :=
        Route.mkRemoteRequest
          (Js.orElse (Route.nullish (Route.baseUrl normalizedSettings) EmptyString)
                     Route.DEFAULT_ENDPOINT)
          "POST" "application/json"
          (Route.nullish (Route.apiKey normalizedSettings) EmptyString)
          (Route.buildIndiaMartPayload p normalizedSettings) in
      (Route.afterFetch (fetch call), [call]).
Proof.
  intros Hp Hst Hmiss Hmode.
  rewrite (POST_product fetch rq p Hp). cbv zeta.
  rewrite Hmiss, Hst, Hmode. reflexivity.
Qed.

(** The test of [POST] on a required field succeeds exactly when the
    field is absent or empty. *)
Lemma isMissing_absentOrEmpty (p : Route.ProductPayload) (f : Route.MinimumField) :
  Route.isMissing p f = true <-> absentOrEmpty (Route.fieldValue p f).
Proof.
  unfold Route.isMissing, absentOrEmpty.
  destruct (Route.fieldValue p f) as [[|c t]|]; cbn [String.eqb].
  - split; [intros _; now right | reflexivity].
  - split; [discriminate | intros [H|H]; discriminate].
  - split; [intros _; now left | reflexivity].
Qed.

Ltac listed :=
  split;
  [ intros H; first [ reflexivity | simpl in H; repeat destruct H as [H|H];
                                    first [ discriminate H | contradiction ] ]
  | intros H; first [ discriminate H | simpl; auto ] ].

(** The names that [POST] lists are those of the required fields that are
    absent or empty, each of them once. *)
Lemma missing_names (p : Route.ProductPayload) :
  let names := map Route.fieldName (filter (Route.isMissing p) Route.MINIMUM_FIELDS) in
  (In "title" names <-> absentOrEmpty (Route.title p)) /\
  (In "description" names <-> absentOrEmpty (Route.description p)) /\
  (In "shortDescription" names <-> absentOrEmpty (Route.shortDescription p)) /\
  (forall name, In name names ->
     name = "title" \/ name = "description" \/ name = "shortDescription") /\
  NoDup names.
Proof.
  cbv zeta.
  pose proof (isMissing_absentOrEmpty p Route.k_title) as Ht.
  pose proof (isMissing_absentOrEmpty p Route.k_description) as Hd.
  pose proof (isMissing_absentOrEmpty p Route.k_shortDescription) as Hs.
  cbn [Route.fieldValue] in Ht, Hd, Hs.
  rewrite <- Ht, <- Hd, <- Hs. clear Ht Hd Hs.
  unfold Route.MINIMUM_FIELDS. cbn [filter].
  destruct (Route.isMissing p Route.k_title),
           (Route.isMissing p Route.k_description),
           (Route.isMissing p Route.k_shortDescription);
    cbn [map Route.fieldName];
    (split; [listed|]); (split; [listed|]); (split; [listed|]);
    (split; [intros name H; simpl in H; intuition auto
            | repeat constructor; simpl; intuition discriminate]).
Qed.

(** A required field that is absent or empty makes the list of [POST]
    non-empty. *)
Lemma some_missing (p : Route.ProductPayload) :
  absentOrEmpty (Route.title p) \/ absentOrEmpty (Route.description p) \/
  absentOrEmpty (Route.shortDescription p) ->
  negb (Nat.eqb (List.length (filter (Route.isMissing p) Route.MINIMUM_FIELDS)) 0) = true.
Proof.
  intros H.
  assert (Hin : exists f, In f (filter (Route.isMissing p) Route.MINIMUM_FIELDS)).
  { destruct H as [H | [H | H]];
      [exists Route.k_title | exists Route.k_description | exists Route.k_shortDescription];
      (apply filter_In; split;
       [simpl; auto | now apply isMissing_absentOrEmpty]). }
  destruct Hin as [f Hf].
  now destruct (filter (Route.isMissing p) Route.MINIMUM_FIELDS).
Qed.

(** C9.  Once the request carries a product, [POST] checks the three
    required fields first: when the title, the description or the short
    description is absent or empty it answers 400 and makes no remote call;
    the message lists names of required fields, each at most once, and a
    name is listed exactly when its field is absent or empty.  Otherwise,
    in live mode, an absent or empty API key or seller identifier is
    answered with 400 and the matching message, again with no remote
    call. *)
Theorem submit_checks_before_any_call (rq : Route.RequestBody) (p : Route.ProductPayload) :
  Route.product rq = Some p ->
  (absentOrEmpty (Route.title p) \/ absentOrEmpty (Route.description p) \/
   absentOrEmpty (Route.shortDescription p) ->
     exists names,
       Route.POST fetch (Some rq)
       = (Route.mkNextResponse
            (Route.ErrorBody ("Missing required product fields: " ++ Js.join ", " names))
            400, []) /\
       (In "title" names <-> absentOrEmpty (Route.title p)) /\
       (In "description" names <-> absentOrEmpty (Route.description p)) /\
       (In "shortDescription" names <-> absentOrEmpty (Route.shortDescription p)) /\
       (forall name, In name names ->
          name = "title" \/ name = "description" \/ name = "shortDescription") /\
       NoDup names) /\
  (present (Route.title p) ->
   present (Route.description p) ->
   present (Route.shortDescription p) ->
     forall st,
       Route.settings rq = Some st ->
       Route.mode st = Some Route.live ->
       (absentOrEmpty (Route.apiKey st) ->
          Route.POST fetch (Some rq)
          = (Route.mkNextResponse (Route.ErrorBody "API key is required in live mode.") 400,
             [])) /\
       (absentOrEmpty (Route.sellerId st) ->
          exists message,
            Route.POST fetch (Some rq)
            = (Route.mkNextResponse (Route.ErrorBody message) 400, []) /\
            (message = "API key is required in live mode."
             \/ message = "Seller ID is required in live mode."))).
Proof.
  intros Hp. split.
  - intros Hempty.
    exists (map Route.fieldName (filter (Route.isMissing p) Route.MINIMUM_FIELDS)).
    split; [|exact (missing_names p)].
    rewrite (POST_product fetch rq p Hp). cbv zeta.
    now rewrite (some_missing p Hempty).
  - intros Ht Hd Hs st Hst Hmode.
    pose proof (no_missing_fields p Ht Hd Hs) as Hnone.
    split.
    + intros Hkey. rewrite (POST_live p st rq Hp Hst Hnone Hmode). cbv zeta.
      cbn [Route.apiKey]. now rewrite (falsy_absentOrEmpty st Route.apiKey Hkey).
    + intros Hsid. rewrite (POST_live p st rq Hp Hst Hnone Hmode). cbv zeta.
      cbn [Route.apiKey Route.sellerId].
      destruct (Route.falsy (Route.trimmedField (Some st) Route.apiKey)).
      * eexists. split; [reflexivity | now left].
      * rewrite (falsy_absentOrEmpty st Route.sellerId Hsid).
        eexists. split; [reflexivity | now right].
Qed.

(** C10.  In live mode, with the required fields there, the credentials
    are trimmed before they are tested and used: an API key or a seller
    identifier made of white space only is refused as missing, with no
    remote call; otherwise exactly one call is made, its authtoken header
    is the trimmed API key, SELLER_ID is the trimmed seller identifier, and
    its endpoint is the trimmed base URL, or the default endpoint when the
    base URL is absent or white space only. *)
Theorem credentials_are_trimmed (p : Route.ProductPayload) (st : Route.AgentSettings) :
  present (Route.title p) ->
  present (Route.description p) ->
  present (Route.shortDescription p) ->
  Route.mode st = Some Route.live ->
  let rq := Route.mkRequestBody (Some st) (Some p) in
  (forall key, Route.apiKey st = Some key -> blank key = true ->
     Route.POST fetch (Some rq)
     = (Route.mkNextResponse (Route.ErrorBody "API key is required in live mode.") 400, [])) /\
  (forall key sid,
     Route.apiKey st = Some key -> Js.trim key <> EmptyString ->
     Route.sellerId st = Some sid -> blank sid = true ->
     Route.POST fetch (Some rq)
     = (Route.mkNextResponse (Route.ErrorBody "Seller ID is required in live mode.") 400, [])) /\
  (forall key sid,
     Route.apiKey st = Some key -> Js.trim key <> EmptyString ->
     Route.sellerId st = Some sid -> Js.trim sid <> EmptyString ->
     exists call,
       Route.POST fetch (Some rq) = (Route.afterFetch (fetch call), [call]) /\
       Route.authtoken call = Js.trim key /\
       Route.SELLER_ID (Route.requestBody call) = Js.trim sid /\
       (Route.baseUrl st = None -> Route.endpoint call = Route.DEFAULT_ENDPOINT) /\
       (forall url, Route.baseUrl st = Some url -> blank url = true ->
                    Route.endpoint call = Route.DEFAULT_ENDPOINT) /\
       (forall url, Route.baseUrl st = Some url -> Js.trim url <> EmptyString ->
                    Route.endpoint call = Js.trim url)).
Proof.
  intros Ht Hd Hs Hmode rq.
  pose proof (no_missing_fields p Ht Hd Hs) as Hnone.
  assert (Hpost := POST_live p st rq eq_refl eq_refl Hnone Hmode).
  cbv zeta in Hpost. cbn [Route.apiKey Route.sellerId Route.baseUrl] in Hpost.
  split; [|split].
  - intros key Hkey Hb. rewrite Hpost.
    now rewrite (falsy_blank st Route.apiKey key Hkey Hb).
  - intros key sid Hkey Hk Hsid Hb. rewrite Hpost.
    rewrite (falsy_trimmed st Route.apiKey key Hkey Hk).
    now rewrite (falsy_blank st Route.sellerId sid Hsid Hb).
  - intros key sid Hkey Hk Hsid Hsd. rewrite Hpost.
    rewrite (falsy_trimmed st Route.apiKey key Hkey Hk).
    rewrite (falsy_trimmed st Route.sellerId sid Hsid Hsd).
    eexists. split; [reflexivity|].
    cbn [Route.authtoken Route.requestBody Route.endpoint Route.buildIndiaMartPayload
         Route.SELLER_ID Route.sellerId].
    unfold Route.trimmedField. rewrite Hkey, Hsid.
    split; [reflexivity|]. split; [reflexivity|].
    split; [|split].
    + intros ->. reflexivity.
    + intros url -> Hb. simpl. now rewrite (trim_blank url Hb).
    + intros url -> Hne. simpl. now apply orElse_truthy.
Qed.

End Credentials.

Lemma submit_checks_before_any_call_witness :
  let p :=
    Route.mkProductPayload (Some "Wire") None None None None None None
      None None None (Some "long") None None None in
  let rq := Route.mkRequestBody None (Some p) in
  exists names,
    Route.POST (fun _ => Route.Rejected None) (Some rq)
    = (Route.mkNextResponse
         (Route.ErrorBody ("Missing required product fields: " ++ Js.join ", " names))
         400, []) /\
    In "shortDescription" names.
Proof.
  destruct (submit_checks_before_any_call (fun _ => Route.Rejected None)
              (Route.mkRequestBody None
                 (Some (Route.mkProductPayload (Some "Wire") None None None None None None
                          None None None (Some "long") None None None)))
              (Route.mkProductPayload (Some "Wire") None None None None None None
                 None None None (Some "long") None None None)
              eq_refl) as [Hmissing _].
  destruct Hmissing as (names & Hpost & _ & _ & Hs & _).
  - right. right. now left.
  - exists names. split; [exact Hpost|]. apply Hs. now left.
Defined.

Lemma credentials_are_trimmed_witness :
  let p :=
    Route.mkProductPayload (Some "Wire") None None None None None None
      None None (Some "short") (Some "long") None None None in
  let st := Route.mkAgentSettings (Some "  ") (Some "IM1") (Some " ") (Some Route.live) in
  Route.POST (fun _ => Route.Rejected None)
    (Some (Route.mkRequestBody (Some st) (Some p)))
  = (Route.mkNextResponse (Route.ErrorBody "API key is required in live mode.") 400, []).
Proof.
  destruct (credentials_are_trimmed (fun _ => Route.Rejected None)
              (Route.mkProductPayload (Some "Wire") None None None None None None
                 None None (Some "short") (Some "long") None None None)
              (Route.mkAgentSettings (Some "  ") (Some "IM1") (Some " ") (Some Route.live))
              (present_some _ _) (present_some _ _) (present_some _ _) eq_refl)
    as [Hkey _].
  exact (Hkey "  " eq_refl eq_refl).
Defined.

(** ** Commit *)

Section Commit.

Lemma syncRefs_settled (s : State) : settled (syncRefs s).
Proof. repeat split. Qed.

Lemma settled_syncRefs (s : State) : settled s -> syncRefs s = s.
Proof.
  destruct s. unfold settled. simpl. intros (H1 & H2 & H3 & H4 & H5).
  subst. reflexivity.
Qed.

(** What [processNextProduct] leaves alone. *)
Lemma processNextProduct_frame (st : AgentSettings) (s : State) :
  let s' := processNextProduct st s in
  settings s' = settings s /\ draft s' = draft s /\ queue s' = queue s /\
  queueRef s' = queueRef s /\ processingRef s' = processingRef s /\
  activeProductRef s' = activeProductRef s /\
  queueDirty s' = queueDirty s /\ settingsDirty s' = settingsDirty s /\
  clock s' = clock s /\ timers s' = timers s /\
  idCounter s <= idCounter s' /\
  (processing s' = true -> processing s = true).
Proof.
  unfold processNextProduct.
  destruct (processingRef s) eqn:E1; simpl; [|repeat split; auto].
  destruct (activeProductRef s) eqn:E2; simpl; [repeat split; auto|].
  destruct (queueRef s) eqn:E3; simpl; repeat split; auto; try lia;
    intros; discriminate.
Qed.

Lemma commitPass_flags (s : State) :
  queueDirty (commitPass s) = false /\
  settingsDirty (commitPass s) = false /\
  (processing (commitPass s) = true -> processingRef (commitPass s) = true).
Proof.
  unfold commitPass.
  set (s1 := syncRefs s).
  set (s2 := if (negb (Bool.eqb (processing s) (processingRef s)) || settingsDirty s)
                && processing s1
             then processNextProduct (settings s1) s1 else s1).
  assert (H2 : queueDirty s2 = false /\ settingsDirty s2 = false /\
               (processing s2 = true -> processingRef s2 = true)).
  { subst s2. destruct (_ && _).
    - destruct (processNextProduct_frame (settings s1) s1)
        as (_ & _ & _ & _ & Hp & _ & Hq & Hs & _ & _ & _ & Hproc).
      rewrite Hq, Hs, Hp. repeat split. intros H. now apply Hproc in H.
    - repeat split. auto. }
  destruct H2 as (Hq2 & Hs2 & Hp2).
  destruct (queueDirty s || settingsDirty s); [|auto].
  destruct (negb (processingRef s2) || isSome (activeProductRef s2)); [auto|].
  destruct (Nat.ltb 0 (List.length (queueRef s2))); [|auto].
  destruct (processNextProduct_frame (settings s1) s2)
    as (_ & _ & _ & _ & Hp & _ & Hq & Hs & _ & _ & _ & Hproc).
  rewrite Hq, Hs, Hp. repeat split; auto.
Qed.

(** The second render only brings the refs up to date. *)
Lemma commit_eq (s : State) : commit s = syncRefs (commitPass s).
Proof.
  unfold commit. set (o := commitPass s).
  destruct (commitPass_flags s) as (Hq & Hs & Hp). fold o in Hq, Hs, Hp.
  unfold commitPass at 1. rewrite Hq, Hs. simpl orb.
  replace ((negb (Bool.eqb (processing o) (processingRef o)) || false)
           && processing (syncRefs o)) with false; [reflexivity|].
  change (processing (syncRefs o)) with (processing o).
  destruct (processing o); [|now rewrite andb_false_r].
  now rewrite Hp.
Qed.

Lemma commit_settled (s : State) : settled (commit s).
Proof. rewrite commit_eq. apply syncRefs_settled. Qed.

(** While [processing] is off a commit only synchronises the refs. *)
Lemma commit_idle (s : State) : processing s = false -> commit s = syncRefs s.
Proof.
  intros H. rewrite commit_eq. unfold commitPass.
  change (processing (syncRefs s)) with (processing s). rewrite H, andb_false_r.
  change (processingRef (syncRefs s)) with (processing s). rewrite H. simpl.
  destruct (queueDirty s || settingsDirty s); reflexivity.
Qed.

(** Nothing happens when a settled state is committed again. *)
Lemma commit_fix (s : State) : settled s -> commit s = s.
Proof.
  intros H. rewrite commit_eq.
  pose proof H as (H1 & H2 & H3 & H4 & H5).
  unfold commitPass. rewrite H2, H4, H5, Bool.eqb_reflx. simpl.
  rewrite !(settled_syncRefs s H). reflexivity.
Qed.

Lemma step_settled (e : Event) (s s' : State) : step e s = Some s' -> settled s'.
Proof.
  unfold step. destruct (handle e s); simpl; [|discriminate].
  intros H. injection H as <-. apply commit_settled.
Qed.

Lemma run_app (e1 e2 : list Event) (s : State) :
  run (e1 ++ e2) s
  = match run e1 s with
    | Some s' => run e2 s'
    | None => None
    end.
Proof.
  revert s. induction e1 as [|e e1 IH]; intros s; simpl; [reflexivity|].
  destruct (step e s); [apply IH | reflexivity].
Qed.

End Commit.

(** ** Stopping the runner *)

Section Stop.

Lemma removeAt_incl {A : Type} (k : nat) (l : list A) : incl (removeAt k l) l.
Proof.
  revert k. induction l as [|x l IH]; intros k; simpl.
  - now destruct k.
  - destruct k as [|k].
    + apply incl_tl, incl_refl.
    + apply incl_cons; [now left | apply incl_tl, IH].
Qed.

Lemma removeAt_length {A : Type} (k : nat) (l : list A) (x : A) :
  nth_error l k = Some x -> S (List.length (removeAt k l)) = List.length l.
Proof.
  revert k. induction l as [|y l IH]; intros k H.
  - now destruct k.
  - destruct k as [|k]; simpl in *; [reflexivity|].
    now rewrite (IH k H).
Qed.

Lemma settleFetch_logs (d : Dispatch) (r : ApiResult) (s : State) :
  logs (settleFetch d r s) = (logs s ++ [outcomeEntry d r s])%list.
Proof.
  unfold settleFetch, outcomeEntry. destruct (thrownMessage r); reflexivity.
Qed.

Lemma settleFetch_frame (d : Dispatch) (r : ApiResult) (s : State) :
  let s' := settleFetch d r s in
  processing s' = processing s /\ processingRef s' = processingRef s /\
  sent s' = sent s /\ inflight s' = inflight s /\ settings s' = settings s /\
  queueRef s' = queueRef s /\ activeProductId s' = None /\
  queue s' = filter (fun item => negb (Nat.eqb (id item) (id (next d)))) (queue s) /\
  timers s' = (timers s ++ [closureSettings d])%list /\
  settingsDirty s' = settingsDirty s /\ queueDirty s' = true /\
  idCounter s' = S (idCounter s).
Proof.
  unfold settleFetch. destruct (thrownMessage r); repeat split.
Qed.

Lemma addToQueue_without_autoStart (p : ProductDraft) (s : State) :
  autoStart (settings s) = false ->
  let s' := addToQueue p s in
  processing s' = processing s /\ sent s' = sent s /\ inflight s' = inflight s /\
  settings s' = settings s.
Proof. intros H. unfold addToQueue. rewrite H. repeat split. Qed.

Lemma rows_without_autoStart (f : string -> ProductDraft) (rows : list string) :
  forall s,
    autoStart (settings s) = false ->
    let s' := fold_left (fun acc rowLine => addToQueue (f rowLine) acc) rows s in
    processing s' = processing s /\ sent s' = sent s /\ inflight s' = inflight s /\
    settings s' = settings s.
Proof.
  induction rows as [|r rows IH]; intros s H; simpl; [repeat split|].
  destruct (addToQueue_without_autoStart (f r) s H) as (H1 & H2 & H3 & H4).
  destruct (IH (addToQueue (f r) s)) as (I1 & I2 & I3 & I4); [now rewrite H4|].
  cbv zeta in I1, I2, I3, I4.
  rewrite I1, I2, I3, I4, H1, H2, H3, H4. repeat split.
Qed.

Lemma parseCsvFile_without_autoStart (text : string) (s : State) :
  autoStart (settings s) = false ->
  let s' := parseCsvFile text s in
  processing s' = processing s /\ sent s' = sent s /\ inflight s' = inflight s.
Proof.
  intros H. unfold parseCsvFile.
  destruct (csvLines text) as [|headerLine rows]; [repeat split|].
  destruct (negb _); [repeat split|].
  destruct (rows_without_autoStart (rowProduct (csvHeaders headerLine)) rows s H)
    as (H1 & H2 & H3 & _).
  cbv zeta in H1, H2, H3. repeat split; assumption.
Qed.

(** An event that is not a start leaves a stopped runner stopped: it sends
    nothing, and the only requests it can take off the pending list are
    the ones that settle. *)
Lemma idle_handle (e : Event) (s h : State) :
  processing s = false -> processingRef s = false ->
  mayStart e s = false ->
  handle e s = Some h ->
  processing h = false /\ sent h = sent s /\
  List.length (inflight h) + completions [e] = List.length (inflight s) /\
  incl (inflight h) (inflight s).
Proof.
  intros Hp Hr Hm Hh.
  destruct e; simpl in Hm, Hh; try discriminate.
  - injection Hh as <-. repeat split; auto using incl_refl; simpl; lia.
  - injection Hh as <-. repeat split; auto using incl_refl; simpl; lia.
  - injection Hh as <-. unfold handleAddDraftToQueue.
    destruct (negb _).
    + repeat split; auto using incl_refl; simpl; lia.
    + destruct (addToQueue_without_autoStart (draft s) s Hm) as (H1 & H2 & H3 & _).
      cbv zeta in H1, H2, H3.
      change (processing (resetDraft (addToQueue (draft s) s)))
        with (processing (addToQueue (draft s) s)).
      change (sent (resetDraft (addToQueue (draft s) s)))
        with (sent (addToQueue (draft s) s)).
      change (inflight (resetDraft (addToQueue (draft s) s)))
        with (inflight (addToQueue (draft s) s)).
      rewrite H1, H2, H3. repeat split; auto using incl_refl; simpl; lia.
  - injection Hh as <-. repeat split; auto using incl_refl; simpl; lia.
  - injection Hh as <-. repeat split; auto using incl_refl; simpl; lia.
  - injection Hh as <-.
    destruct (parseCsvFile_without_autoStart text s Hm) as (H1 & H2 & H3).
    cbv zeta in H1, H2, H3. rewrite H1, H2, H3.
    repeat split; auto using incl_refl; simpl; lia.
  - injection Hh as <-. repeat split; auto using incl_refl; simpl; lia.
  - destruct (nth_error (inflight s) k) as [d|] eqn:E; [|discriminate].
    injection Hh as <-.
    destruct (settleFetch_frame d r (setInflight (removeAt k (inflight s)) s))
      as (H1 & _ & H3 & H4 & _).
    cbv zeta in H1, H3, H4. rewrite H1, H3, H4. simpl.
    repeat split; auto using removeAt_incl.
    pose proof (removeAt_length k (inflight s) d E). unfold completions. simpl. lia.
  - destruct (timers s) as [|st rest]; [discriminate|].
    injection Hh as <-. unfold timerCallback.
    change (processingRef (setTimers rest s)) with (processingRef s). rewrite Hr.
    repeat split; auto using incl_refl; simpl; lia.
  - injection Hh as <-. repeat split; auto using incl_refl; simpl; lia.
Qed.

Lemma idle_step (e : Event) (s s' : State) :
  settled s -> processing s = false ->
  mayStart e s = false ->
  step e s = Some s' ->
  settled s' /\ processing s' = false /\ sent s' = sent s /\
  List.length (inflight s') + completions [e] = List.length (inflight s) /\
  incl (inflight s') (inflight s).
Proof.
  intros Hs Hp Hm Hstep.
  split; [now apply (step_settled e s)|].
  unfold step in Hstep. destruct (handle e s) as [h|] eqn:Hh; [|discriminate].
  injection Hstep as <-.
  assert (Hr : processingRef s = false)
    by (destruct Hs as (_ & H2 & _); now rewrite H2).
  destruct (idle_handle e s h Hp Hr Hm Hh) as (H1 & H2 & H3 & H4).
  rewrite (commit_idle h H1).
  split; [exact H1|]. split; [exact H2|]. split; [exact H3 | exact H4].
Qed.

Lemma idle_run (events : list Event) :
  forall s s',
    settled s -> processing s = false ->
    runWithoutStart events s = Some s' ->
    settled s' /\ processing s' = false /\ sent s' = sent s /\
    List.length (inflight s') + completions events = List.length (inflight s) /\
    incl (inflight s') (inflight s).
Proof.
  induction events as [|e events IH]; intros s s' Hs Hp Hrun; simpl in Hrun.
  - injection Hrun as <-. split; [exact Hs|].
    repeat split; auto using incl_refl; unfold completions; simpl; lia.
  - destruct (mayStart e s) eqn:Hm; [discriminate|].
    destruct (step e s) as [s1|] eqn:Hstep; [|discriminate].
    destruct (idle_step e s s1 Hs Hp Hm Hstep) as (S1 & P1 & T1 & L1 & I1).
    destruct (IH s1 s' S1 P1 Hrun) as (S2 & P2 & T2 & L2 & I2).
    split; [exact S2|]. split; [exact P2|]. split; [congruence|]. split.
    + unfold completions in *. cbn [filter] in *.
      destruct e; cbn [List.length] in *; lia.
    + eapply incl_tran; eassumption.
Qed.

(** A request that settles while the runner is stopped is logged, and
    nothing is sent. *)
Lemma idle_fetchDone (s : State) (k : nat) (d : Dispatch) (r : ApiResult) :
  settled s -> processing s = false ->
  nth_error (inflight s) k = Some d ->
  exists s',
    step (FetchDone k r) s = Some s' /\
    logs s' = (logs s ++ [outcomeEntry d r s])%list /\
    sent s' = sent s /\ processing s' = false.
Proof.
  intros Hs Hp Hk. unfold step. simpl. rewrite Hk. simpl.
  eexists. split; [reflexivity|].
  destruct (settleFetch_frame d r (setInflight (removeAt k (inflight s)) s))
    as (H1 & _ & H3 & _).
  cbv zeta in H1, H3.
  rewrite commit_idle by (rewrite H1; exact Hp).
  change (logs (syncRefs ?x)) with (logs x).
  rewrite settleFetch_logs. split; [reflexivity|]. split.
  - exact H3.
  - exact (eq_trans H1 Hp).
Qed.

End Stop.

(** C4, counterexample.  Two items are enqueued and the runner is started,
    then stopped while the request for A is pending.  The request settles
    and is logged.  The operator then switches auto start on and enqueues
    C: the request for B is sent, and the start button was never pressed
    again. *)
Lemma enqueue_with_autoStart_resumes_counterexample :
  let before := (enqueue (titled "A") ++ enqueue (titled "B") ++ [RunAgent; StopAgent])%list in
  let after :=
    ([FetchDone 0 replyOk; SettingsChange (set_autoStart true)] ++ enqueue (titled "C"))%list in
  existsb (fun e => match e with RunAgent => true | _ => false end) after = false /\
  exists stopped resumed,
    run before (mounted manualStart) = Some stopped /\
    processing stopped = false /\
    sentTitles stopped = ["A"] /\
    run after stopped = Some resumed /\
    processing resumed = true /\
    sentTitles resumed = ["A"; "B"; "B"].
Proof.
  split; [reflexivity|].
  destruct (run (enqueue (titled "A") ++ enqueue (titled "B") ++ [RunAgent; StopAgent])%list
              (mounted manualStart)) as [stopped|] eqn:E1; [|vm_compute in E1; discriminate].
  destruct (run ([FetchDone 0 replyOk; SettingsChange (set_autoStart true)]
                 ++ enqueue (titled "C"))%list stopped) as [resumed|] eqn:E2.
  - exists stopped, resumed.
    vm_compute in E1. injection E1 as <-.
    vm_compute in E2. injection E2 as <-.
    repeat split; reflexivity.
  - vm_compute in E1. injection E1 as <-. vm_compute in E2. discriminate.
Qed.

(** C4, amended.  [stopAgent] always leaves the runner idle with no active
    item, logs the paused info event, and cancels nothing: the pending
    requests are the same as before.  From then on, as long as the start
    button is not pressed and nothing is enqueued while auto start is on,
    the runner stays idle and no request is sent, whatever else happens
    (requests settling, timers firing, drafts edited, settings changed,
    further stops); a pending request leaves the pending list only by
    settling, and when it settles its outcome is logged. *)
Theorem stop_suppresses_next_dispatch (s : State) :
  exists stopped,
    step StopAgent s = Some stopped /\
    processing stopped = false /\
    activeProductId stopped = None /\
    processingRef stopped = false /\
    activeProductRef stopped = None /\
    inflight stopped = inflight s /\
    queue stopped = queue s /\
    sent stopped = sent s /\
    logs stopped
    = (logs s ++ [mkLogEntry (idCounter s) info "Agent paused"
                    (Some "Automation paused manually.") (clock s)])%list /\
    forall events later,
      runWithoutStart events stopped = Some later ->
      processing later = false /\
      sent later = sent stopped /\
      List.length (inflight later) + completions events = List.length (inflight stopped) /\
      incl (inflight later) (inflight stopped) /\
      forall k d r,
        nth_error (inflight later) k = Some d ->
        exists settledState,
          step (FetchDone k r) later = Some settledState /\
          logs settledState = (logs later ++ [outcomeEntry d r later])%list /\
          sent settledState = sent later /\
          processing settledState = false.
Proof.
  exists (syncRefs (stopAgent s)).
  assert (Hstep : step StopAgent s = Some (syncRefs (stopAgent s))).
  { unfold step. simpl. now rewrite commit_idle. }
  split; [exact Hstep|].
  repeat (split; [reflexivity|]).
  intros events later Hrun.
  destruct (idle_run events (syncRefs (stopAgent s)) later
              (syncRefs_settled _) eq_refl Hrun) as (Hs & Hp & Ht & Hl & Hi).
  repeat (split; [assumption|]).
  intros k d r Hk. now apply idle_fetchDone.
Qed.

(** ** What an event can send *)

Section Footprint.

Lemma processNextProduct_dispatch (st : AgentSettings) (s : State)
  (item : ProductPayload) (rest : list ProductPayload) :
  processingRef s = true ->
  activeProductRef s = None ->
  queueRef s = item :: rest ->
  processNextProduct st s
  = startFetch (mkDispatch item st)
      (appendLog info
         ("Processing: " ++ Js.orElse (title (payload item)) "Untitled product")
         (Some ("Attempting IndiaMART sync in " ++ modeWord (mode st) ++ " mode."))
         (setActiveProductId (Some (id item)) s)).
Proof. intros H1 H2 H3. unfold processNextProduct. now rewrite H1, H2, H3. Qed.

Lemma processNextProduct_complete (st : AgentSettings) (s : State) :
  processingRef s = true ->
  activeProductRef s = None ->
  queueRef s = [] ->
  processNextProduct st s
  = appendLog success "Queue complete" (Some "All products processed successfully.")
      (setProcessing false s).
Proof. intros H1 H2 H3. unfold processNextProduct. now rewrite H1, H2, H3. Qed.

Lemma processNextProduct_busy (st : AgentSettings) (s : State) (i : Id) :
  activeProductRef s = Some i -> processNextProduct st s = s.
Proof.
  intros H. unfold processNextProduct. rewrite H. now destruct (processingRef s).
Qed.

(** [processNextProduct] sends at most one request, for the head of
    [queueRef]. *)
Lemma processNextProduct_sent (st : AgentSettings) (s : State) :
  exists extra,
    sent (processNextProduct st s) = (sent s ++ extra)%list /\
    forall d, In d extra -> In (next d) (queueRef s).
Proof.
  unfold processNextProduct.
  destruct (processingRef s);
    [|exists []; split; [now rewrite app_nil_r | contradiction]].
  destruct (activeProductRef s);
    [exists []; split; [now rewrite app_nil_r | contradiction]|].
  destruct (queueRef s) as [|item rest].
  - exists []. split; [now rewrite app_nil_r | contradiction].
  - exists [mkDispatch item st]. split; [reflexivity|].
    intros d [<-|[]]. now left.
Qed.

Lemma commitPass_footprint (s : State) :
  queue (commitPass s) = queue s /\
  idCounter s <= idCounter (commitPass s) /\
  exists extra,
    sent (commitPass s) = (sent s ++ extra)%list /\
    forall d, In d extra -> In (next d) (queue s).
Proof.
  unfold commitPass.
  set (s1 := syncRefs s).
  set (s2 := if (negb (Bool.eqb (processing s) (processingRef s)) || settingsDirty s)
                && processing s1
             then processNextProduct (settings s1) s1 else s1).
  assert (H2 : queue s2 = queue s /\ queueRef s2 = queue s /\
               idCounter s <= idCounter s2 /\
               exists extra, sent s2 = (sent s ++ extra)%list /\
                             forall d, In d extra -> In (next d) (queue s)).
  { subst s2. destruct (_ && _).
    - destruct (processNextProduct_frame (settings s1) s1)
        as (_ & _ & Hq & Hr & _ & _ & _ & _ & _ & _ & Hi & _).
      destruct (processNextProduct_sent (settings s1) s1) as (extra & He & Hin).
      repeat split; try assumption. exists extra. split; assumption.
    - repeat split; auto. exists []. split; [now rewrite app_nil_r | contradiction]. }
  destruct H2 as (Hq2 & Hr2 & Hi2 & extra2 & He2 & Hin2).
  assert (Hsame : queue s2 = queue s /\ idCounter s <= idCounter s2 /\
                  exists extra, sent s2 = (sent s ++ extra)%list /\
                                forall d, In d extra -> In (next d) (queue s)).
  { repeat split; try assumption. exists extra2. split; assumption. }
  destruct (queueDirty s || settingsDirty s); [|exact Hsame].
  destruct (negb (processingRef s2) || isSome (activeProductRef s2)); [exact Hsame|].
  destruct (Nat.ltb 0 (List.length (queueRef s2))); [|exact Hsame].
  destruct (processNextProduct_frame (settings s1) s2)
    as (_ & _ & Hq & _ & _ & _ & _ & _ & _ & _ & Hi & _).
  destruct (processNextProduct_sent (settings s1) s2) as (extra3 & He3 & Hin3).
  rewrite Hq. repeat split; [assumption | lia |].
  exists (extra2 ++ extra3)%list. split.
  - rewrite He3, He2. now rewrite app_assoc.
  - intros d Hd. apply in_app_or in Hd as [Hd|Hd]; [now apply Hin2|].
    rewrite <- Hr2. now apply Hin3.
Qed.

Lemma commit_footprint (s : State) :
  queue (commit s) = queue s /\
  queueRef (commit s) = queue s /\
  idCounter s <= idCounter (commit s) /\
  exists extra,
    sent (commit s) = (sent s ++ extra)%list /\
    forall d, In d extra -> In (next d) (queue s).
Proof.
  rewrite commit_eq.
  destruct (commitPass_footprint s) as (Hq & Hi & extra & He & Hin).
  repeat split; try assumption. exists extra. split; assumption.
Qed.







End Footprint.

(** ** A dispatch that fails *)

Section Failure.

Lemma settledRequest_frame (s : State) (k : nat) (d : Dispatch) (r : ApiResult) :
  processing (settledRequest s k d r) = processing s /\
  processingRef (settledRequest s k d r) = processingRef s /\
  sent (settledRequest s k d r) = sent s /\
  inflight (settledRequest s k d r) = removeAt k (inflight s) /\
  settings (settledRequest s k d r) = settings s /\
  activeProductId (settledRequest s k d r) = None /\
  queue (settledRequest s k d r)
  = filter (fun item => negb (Nat.eqb (id item) (id (next d)))) (queue s) /\
  settingsDirty (settledRequest s k d r) = settingsDirty s /\
  queueDirty (settledRequest s k d r) = true /\
  idCounter (settledRequest s k d r) = S (idCounter s) /\
  timers (settledRequest s k d r) = (timers s ++ [closureSettings d])%list /\
  logs (settledRequest s k d r)
  = (logs s ++ [outcomeEntry d r s])%list.
Proof.
  unfold settledRequest. rewrite settleFetch_logs.
  unfold settleFetch. destruct (thrownMessage r); repeat split.
Qed.

(** The commit that follows a settled request, from a settled state: the
    head of the new queue is dispatched when the runner is on and the
    queue is not empty. *)
Lemma commit_settledRequest (s : State) (k : nat) (d : Dispatch) (r : ApiResult) :
  settled s ->
  commit (settledRequest s k d r)
  = syncRefs
      (if processing s && Nat.ltb 0 (List.length (queue (settledRequest s k d r)))
       then processNextProduct (settings s) (syncRefs (settledRequest s k d r))
       else syncRefs (settledRequest s k d r)).
Proof.
  intros (S1 & S2 & S3 & S4 & S5).
  destruct (settledRequest_frame s k d r)
    as (H1 & H2 & _ & _ & H5 & H7 & _ & H10 & H11 & _).
  set (h := settledRequest s k d r) in *. clearbody h.
  rewrite commit_eq. f_equal.
  unfold commitPass.
  rewrite H1, H2, S2, Bool.eqb_reflx, H10, S5, H11. cbn [negb orb andb].
  change (processingRef (syncRefs h)) with (processing h).
  change (activeProductRef (syncRefs h)) with (activeProductId h).
  change (queueRef (syncRefs h)) with (queue h).
  change (settings (syncRefs h)) with (settings h).
  rewrite H1, H7, H5. simpl isSome. rewrite orb_false_r.
  destruct (processing s); reflexivity.
Qed.

Lemma step_fetchDone (s : State) (k : nat) (d : Dispatch) (r : ApiResult) :
  nth_error (inflight s) k = Some d ->
  step (FetchDone k r) s = Some (commit (settledRequest s k d r)).
Proof. intros Hk. unfold step. simpl handle. now rewrite Hk. Qed.

Lemma errorCount_app (l1 l2 : list LogEntry) :
  errorCount (l1 ++ l2) = errorCount l1 + errorCount l2.
Proof. unfold errorCount. now rewrite filter_app, length_app. Qed.



End Failure.

(** ** Counting log events *)

Section Counting.

Lemma terminalCount_app (l1 l2 : list LogEntry) :
  terminalCount (l1 ++ l2) = terminalCount l1 + terminalCount l2.
Proof. unfold terminalCount. now rewrite filter_app, length_app. Qed.

Lemma outcomeCount_app (l1 l2 : list LogEntry) :
  outcomeCount (l1 ++ l2) = outcomeCount l1 + outcomeCount l2.
Proof. unfold outcomeCount. now rewrite filter_app, length_app. Qed.

Lemma outcomeEntry_counts (d : Dispatch) (r : ApiResult) (s : State) :
  terminalCount [outcomeEntry d r s] = 1 /\ outcomeCount [outcomeEntry d r s] = 1.
Proof.
  unfold outcomeEntry, terminalCount, outcomeCount.
  destruct (thrownMessage r); cbn [filter terminal isOutcome level headline];
    rewrite prefix_append; split; reflexivity.
Qed.

(** Removing the head of a queue by its identifier leaves the rest, when
    the identifiers are distinct. *)
Lemma filter_head (item : ProductPayload) (rest : list ProductPayload) :
  NoDup (map id (item :: rest)) ->
  filter (fun x => negb (Nat.eqb (id x) (id item))) (item :: rest) = rest.
Proof.
  intros H. simpl in H. inversion H as [|a l Hnot Hnd]; subst.
  simpl. rewrite Nat.eqb_refl. simpl.
  clear H Hnd. induction rest as [|y rest IH]; [reflexivity|].
  simpl. destruct (Nat.eqb (id y) (id item)) eqn:E.
  - apply Nat.eqb_eq in E. exfalso. apply Hnot. left. exact E.
  - simpl. f_equal. apply IH. intros Hin. apply Hnot. now right.
Qed.

End Counting.

(** ** Enqueuing through the form *)

Section Form.

Lemma settled_setDraft (f : ProductDraft -> ProductDraft) (s : State) :
  settled s -> settled (setDraft f s).
Proof. intros H. exact H. Qed.

Lemma step_draftChange (key : DraftKey) (value : string) (s : State) :
  settled s ->
  step (DraftChange key value) s = Some (setDraft (withKey key value) s).
Proof.
  intros H. unfold step. simpl. f_equal.
  apply commit_fix. now apply settled_setDraft.
Qed.

Lemma setDraft_setDraft (f g : ProductDraft -> ProductDraft) (s : State) :
  setDraft f (setDraft g s) = setDraft (fun d => f (g d)) s.
Proof. reflexivity. Qed.

Lemma fill_all_keys (d d0 : ProductDraft) :
  withKey key_leadTime (leadTime d)
    (withKey key_packaging (packaging d)
      (withKey key_features (features d)
        (withKey key_description (description d)
          (withKey key_shortDescription (shortDescription d)
            (withKey key_imageUrls (imageUrls d)
              (withKey key_keywords (keywords d)
                (withKey key_minOrderQty (minOrderQty d)
                  (withKey key_stock (stock d)
                    (withKey key_unit (unit d)
                      (withKey key_currency (currency d)
                        (withKey key_price (price d)
                          (withKey key_category (category d)
                            (withKey key_title (title d) d0)))))))))))))
  = d.
Proof. destruct d. vm_compute. reflexivity. Qed.

Lemma run_fillDraft (d : ProductDraft) (s : State) :
  settled s -> run (fillDraft d) s = Some (setDraft (fun _ => d) s).
Proof.
  intros H. unfold fillDraft. cbn [run].
  do 14 (rewrite step_draftChange by exact H; rewrite ?setDraft_setDraft).
  f_equal. unfold setDraft. f_equal. apply fill_all_keys.
Qed.

Lemma NoDup_snoc (l : list nat) (x : nat) :
  NoDup l -> (forall y, In y l -> y < x) -> NoDup (l ++ [x]).
Proof.
  intros Hl Hlt. apply NoDup_app; [exact Hl | repeat constructor; intros [] |].
  intros y Hy [<-|[]]. specialize (Hlt _ Hy). lia.
Qed.

(** [addToQueue] with the runner at rest and auto start off: one more item,
    with a new identifier, and one info event. *)
Lemma atRest_addToQueue (n c : nat) (p : ProductDraft) (h : State) :
  atRest n c h -> atRest (S n) c (addToQueue p h).
Proof.
  intros (Hp & Ha & Hi & Ht & Hauto & Hnd & Hlt & Hlen & Htc & Hoc).
  unfold addToQueue. rewrite Hauto. cbn [andb].
  unfold atRest.
  cbn [appendLog bumpId setLogs setQueue makeId
       settings draft queue processing activeProductId logs queueRef processingRef
       activeProductRef queueDirty settingsDirty idCounter clock inflight sent timers].
  split; [exact Hp|]. split; [exact Ha|]. split; [exact Hi|]. split; [exact Ht|].
  split; [exact Hauto|].
  split.
  { rewrite map_app. apply NoDup_snoc; [exact Hnd|].
    intros y Hy. apply in_map_iff in Hy as (x & <- & Hx). now apply Hlt. }
  split.
  { intros x Hx. apply in_app_or in Hx as [Hx|[<-|[]]].
    - specialize (Hlt x Hx). lia.
    - simpl. unfold makeId. lia. }
  split; [rewrite length_app; simpl; lia|].
  split.
  - rewrite terminalCount_app, Htc.
    unfold terminalCount. cbn [filter terminal level List.length]. lia.
  - rewrite outcomeCount_app, Hoc. reflexivity.
Qed.

(** The commit that follows, between two events again. *)
Lemma ready_commit (n c : nat) (h : State) : atRest n c h -> ready n c (commit h).
Proof.
  intros H. pose proof H as (Hp & _).
  rewrite (commit_idle h Hp). split; [apply syncRefs_settled | exact H].
Qed.

(** One more item enqueued through the form, the runner at rest. *)
Lemma ready_enqueue (n c : nat) (s : State) (d : ProductDraft) :
  ready n c s ->
  title d <> EmptyString ->
  exists s', run (enqueue d) s = Some s' /\ ready (S n) c s'.
Proof.
  intros (Hs & Hr) Htitle.
  unfold enqueue. rewrite run_app, (run_fillDraft d s Hs).
  set (sd := setDraft (fun _ => d) s).
  assert (Htruthy : Js.truthy (title d) = true)
    by (unfold Js.truthy; apply negb_true_iff, String.eqb_neq; exact Htitle).
  assert (Hh : handleAddDraftToQueue sd = resetDraft (addToQueue d sd)).
  { unfold handleAddDraftToQueue. change (draft sd) with d. now rewrite Htruthy. }
  cbn [run]. unfold step. cbn [handle option_map]. rewrite Hh.
  eexists. split; [reflexivity|].
  apply ready_commit.
  exact (atRest_addToQueue n c d sd Hr).
Qed.

Lemma ready_mounted (st : AgentSettings) : autoStart st = false -> ready 0 0 (mounted st).
Proof.
  intros H. unfold ready, atRest, mounted. simpl.
  repeat split; auto; try constructor. intros x [].
Qed.

End Form.

(** ** Enqueuing from a file *)

Section FromFile.

Lemma missingColumns_complete (headers : list string) :
  (forall name, In name expected -> In name headers) <-> missingColumns headers = [].
Proof.
  split.
  - intros Hall. destruct (missingColumns headers) as [|m ms] eqn:E; [reflexivity|].
    assert (Hm : In m (missingColumns headers)) by (rewrite E; now left).
    apply missingColumns_In in Hm as [H1 H2]. elim H2. now apply Hall.
  - intros E name Hin.
    destruct (Js.arrayIncludes headers name) eqn:Ea.
    + now apply arrayIncludes_In.
    + assert (Hm : In name (missingColumns headers)).
      { unfold missingColumns. apply filter_In. split; [exact Hin | now rewrite Ea]. }
      rewrite E in Hm. contradiction.
Qed.

Lemma atRest_rows (c : nat) (f : string -> ProductDraft) (rows : list string) :
  forall n h,
    atRest n c h ->
    atRest (n + List.length rows) c
      (fold_left (fun acc rowLine => addToQueue (f rowLine) acc) rows h).
Proof.
  induction rows as [|r rows IH]; intros n h H; cbn [fold_left List.length].
  - now rewrite Nat.add_0_r.
  - rewrite <- plus_n_Sm. apply (IH (S n)). now apply atRest_addToQueue.
Qed.

(** The event that closes an import is at level success and is not the
    outcome of an item. *)
Lemma atRest_imported (n c : nat) (d : option string) (h : State) :
  atRest n c h -> atRest n (S c) (appendLog success "CSV imported" d h).
Proof.
  intros (Hp & Ha & Hi & Ht & Hauto & Hnd & Hlt & Hlen & Htc & Hoc).
  unfold atRest.
  cbn [appendLog bumpId setLogs makeId
       settings draft queue processing activeProductId logs queueRef processingRef
       activeProductRef queueDirty settingsDirty idCounter clock inflight sent timers].
  split; [exact Hp|]. split; [exact Ha|]. split; [exact Hi|]. split; [exact Ht|].
  split; [exact Hauto|]. split; [exact Hnd|].
  split; [intros x Hx; specialize (Hlt x Hx); lia|].
  split; [exact Hlen|].
  split.
  - rewrite terminalCount_app, Htc.
    unfold terminalCount. cbn [filter terminal level List.length]. lia.
  - rewrite outcomeCount_app, Hoc. reflexivity.
Qed.

(** A file whose header names every expected column, uploaded with the
    runner at rest: one item per data line, and one success event. *)
Lemma ready_import (n c : nat) (s : State) (text : string) :
  ready n c s ->
  accepted (ViaCsv text) ->
  exists s',
    step (CsvUpload text) s = Some s' /\
    ready (n + admitted (ViaCsv text)) (S c) s'.
Proof.
  intros (Hs & Hr) (headerLine & rows & Hlines & Hall).
  unfold step. cbn [handle option_map]. eexists. split; [reflexivity|].
  apply ready_commit. unfold parseCsvFile, admitted. rewrite Hlines. cbn [tl].
  rewrite (proj1 (missingColumns_complete _) Hall). cbn [List.length Nat.eqb negb].
  apply atRest_imported. now apply atRest_rows.
Qed.

Lemma admitted_cons (q : Enqueue) (ops : list Enqueue) :
  list_sum (map admitted (q :: ops)) = admitted q + list_sum (map admitted ops).
Proof. reflexivity. Qed.

Lemma ready_enqueues (ops : list Enqueue) :
  forall n c s,
    ready n c s ->
    Forall accepted ops ->
    exists s',
      run (List.concat (map enqueueEvents ops)) s = Some s' /\
      ready (n + list_sum (map admitted ops)) (c + imports ops) s'.
Proof.
  induction ops as [|q ops IH]; intros n c s Hr Hall.
  - exists s. split; [reflexivity|]. cbn. now rewrite !Nat.add_0_r.
  - inversion Hall as [|q' l Hq Hrest]; subst.
    destruct q as [d|text].
    + destruct (ready_enqueue n c s d Hr Hq) as (s1 & Hrun1 & Hr1).
      destruct (IH (S n) c s1 Hr1 Hrest) as (s2 & Hrun2 & Hr2).
      exists s2. split.
      * cbn [map List.concat enqueueEvents]. rewrite run_app, Hrun1. exact Hrun2.
      * rewrite admitted_cons. cbn [admitted].
        replace (n + (1 + list_sum (map admitted ops)))
          with (S n + list_sum (map admitted ops)) by lia.
        exact Hr2.
    + destruct (ready_import n c s text Hr Hq) as (s1 & Hstep1 & Hr1).
      destruct (IH (n + admitted (ViaCsv text)) (S c) s1 Hr1 Hrest) as (s2 & Hrun2 & Hr2).
      exists s2. split.
      * cbn [map List.concat enqueueEvents app run]. rewrite Hstep1. exact Hrun2.
      * rewrite admitted_cons, Nat.add_assoc.
        change (imports (ViaCsv text :: ops)) with (S (imports ops)).
        rewrite <- plus_n_Sm. exact Hr2.
Qed.

End FromFile.

(** ** Draining the queue *)

Section Drain.

Ltac fields :=
  cbn [syncRefs startFetch appendLog bumpId setLogs setActiveProductId setProcessing
       setTimers setInflight setQueue advanceClock makeId
       settings draft queue processing activeProductId logs queueRef processingRef
       activeProductRef queueDirty settingsDirty idCounter clock inflight sent timers].

Lemma draining_inflight (total outcomes : nat) (s : State) :
  draining total outcomes s ->
  match queue s with
  | [] => inflight s = []
  | item :: _ => exists d, inflight s = [d] /\ next d = item
  end.
Proof.
  intros (_ & _ & Hin & _). destruct (queue s) as [|item rest]; simpl in Hin.
  - now destruct (inflight s).
  - destruct (inflight s) as [|d [|d' l]]; try discriminate.
    exists d. split; [reflexivity | now injection Hin].
Qed.

Lemma draining_running (total outcomes : nat) (s : State) (item : ProductPayload)
  (rest : list ProductPayload) :
  draining total outcomes s -> queue s = item :: rest -> processing s = true.
Proof.
  intros (_ & _ & _ & _ & Hidle & _) Hq.
  destruct (processing s); [reflexivity|].
  rewrite (Hidle eq_refl) in Hq. discriminate.
Qed.

(** The request in flight settles: its outcome is logged, its item leaves
    the queue, a timer is armed, and the next item, if any, is dispatched. *)
Lemma fetchDone_draining (total outcomes : nat) (s : State) (item : ProductPayload)
  (rest : list ProductPayload) (d : Dispatch) (r : ApiResult) :
  draining total outcomes s ->
  queue s = item :: rest ->
  inflight s = [d] ->
  next d = item ->
  exists s',
    step (FetchDone 0 r) s = Some s' /\
    draining total outcomes s' /\
    processing s' = true /\
    queue s' = rest /\
    timers s' = (timers s ++ [closureSettings d])%list.
Proof.
  intros Hd Hq Hin Hnext.
  pose proof (draining_running _ _ _ _ _ Hd Hq) as Hp.
  destruct Hd as (Hs & Hnd & _ & _ & _ & _ & Htc & Hoc).
  assert (Hk : nth_error (inflight s) 0 = Some d) by now rewrite Hin.
  rewrite (step_fetchDone s 0 d r Hk), (commit_settledRequest s 0 d r Hs).
  destruct (settledRequest_frame s 0 d r)
    as (H1 & H2 & H3 & H4 & H5 & H7 & H8 & H10 & H11 & H12 & H9 & Hlogs).
  rewrite Hq, Hnext, filter_head in H8 by (rewrite <- Hq; exact Hnd).
  rewrite Hin in H4. cbn [removeAt] in H4.
  destruct (outcomeEntry_counts d r s) as (Ht1 & Ho1).
  rewrite Hq in Hnd, Htc, Hoc. cbn [List.length] in Htc, Hoc.
  set (h := settledRequest s 0 d r) in *. clearbody h.
  rewrite Hp in *. cbn [andb].
  inversion Hnd as [|a l Hnot Hnd']; subst a l.
  destruct rest as [|item2 rest2].
  - rewrite H8. cbn [List.length Nat.ltb Nat.leb].
    eexists. split; [reflexivity|]. unfold draining. fields.
    rewrite H8, H1, H4, H7, H9, Hlogs, terminalCount_app, outcomeCount_app, Ht1, Ho1.
    split; [|repeat split].
    split; [apply syncRefs_settled|]. split; [constructor|]. split; [reflexivity|].
    split; [reflexivity|]. split; [intros; reflexivity|].
    split; [intros _ _; now destruct (timers s)|].
    cbn [List.length] in *. split; lia.
  - rewrite H8. cbn [List.length Nat.ltb Nat.leb].
    rewrite (processNextProduct_dispatch (settings s) (syncRefs h) item2 rest2);
      [|exact H1|exact H7|exact H8].
    eexists. split; [reflexivity|]. unfold draining. fields.
    rewrite H8, H1, H4, H9, Hlogs, !terminalCount_app, !outcomeCount_app, Ht1, Ho1.
    split; [|repeat split].
    split; [apply syncRefs_settled|]. split; [exact Hnd'|]. split; [reflexivity|].
    split; [reflexivity|]. split; [intros; discriminate|].
    split; [intros _; discriminate|].
    cbn [terminalCount outcomeCount filter terminal isOutcome level List.length] in *.
    split; lia.
Qed.

(** A timer fires: nothing happens, unless the runner is on with an empty
    queue, in which case it stops and logs that the queue is complete. *)
Lemma timer_draining (total outcomes : nat) (s : State) (st : AgentSettings)
  (ts : list AgentSettings) :
  draining total outcomes s ->
  timers s = st :: ts ->
  exists s',
    step TimerFire s = Some s' /\
    draining total outcomes s' /\
    timers s' = ts /\
    queue s' = queue s /\
    inflight s' = inflight s.
Proof.
  intros Hd Ht.
  pose proof (draining_inflight _ _ _ Hd) as Hfl.
  destruct Hd as (Hs & Hnd & Hin & Hact & Hidle & Harm & Htc & Hoc).
  pose proof Hs as (S1 & S2 & S3 & S4 & S5).
  unfold step. cbn [handle]. rewrite Ht. cbn [option_map].
  set (x := setTimers ts s).
  assert (Hx : settled x) by exact Hs.
  unfold timerCallback. change (processingRef x) with (processingRef s). rewrite S2.
  destruct (processing s) eqn:Hp.
  - destruct (queue s) as [|item rest] eqn:Hq.
    + rewrite (processNextProduct_complete st x);
        [|exact S2|exact (eq_trans S3 Hact)|exact S1].
      rewrite commit_idle by reflexivity.
      eexists. split; [reflexivity|]. unfold draining. subst x. fields.
      rewrite Hq, Hfl, Hact, terminalCount_app, outcomeCount_app.
      split; [|repeat split].
      split; [apply syncRefs_settled|]. split; [constructor|]. split; [reflexivity|].
      split; [reflexivity|]. split; [reflexivity|]. split; [intros; discriminate|].
      cbn [terminalCount outcomeCount filter terminal isOutcome level List.length] in *.
      split; [lia|]. cbn [headline]. simpl. lia.
    + rewrite (processNextProduct_busy st x (id item)) by exact (eq_trans S3 Hact).
      rewrite (commit_fix x Hx).
      eexists. split; [reflexivity|]. unfold draining. subst x. fields.
      rewrite Hq, Hp.
      split; [|repeat split].
      split; [exact Hs|]. split; [exact Hnd|]. split; [exact Hin|].
      split; [exact Hact|]. split; [exact Hidle|].
      split; [intros _ Hx0; discriminate|].
      split; assumption.
  - rewrite (commit_fix x Hx).
    eexists. split; [reflexivity|]. unfold draining. subst x. fields. rewrite Hp.
    split; [|repeat split].
    split; [exact Hs|]. split; [exact Hnd|]. split; [exact Hin|].
    split; [exact Hact|]. split; [exact Hidle|].
    split; [intros Hx0; discriminate|].
    split; assumption.
Qed.

Lemma clock_draining (total outcomes : nat) (s : State) (ms : nat) :
  draining total outcomes s ->
  step (ClockAdvance ms) s = Some (advanceClock ms s) /\
  draining total outcomes (advanceClock ms s).
Proof.
  intros Hd. split; [|exact Hd].
  unfold step. cbn [handle option_map]. f_equal. apply commit_fix.
  destruct Hd as (Hs & _). exact Hs.
Qed.

(** Events of the environment keep the drain in shape. *)
Lemma draining_step (total outcomes : nat) (e : Event) (s s' : State) :
  draining total outcomes s ->
  fromEnvironment e = true ->
  step e s = Some s' ->
  draining total outcomes s'.
Proof.
  intros Hd He Hstep. destruct e; try discriminate.
  - pose proof (draining_inflight _ _ _ Hd) as Hfl.
    destruct (queue s) as [|item rest] eqn:Hq.
    + unfold step in Hstep. cbn [handle] in Hstep. rewrite Hfl in Hstep.
      now destruct k.
    + destruct Hfl as (d & Hin & Hnext).
      destruct k as [|k].
      * destruct (fetchDone_draining _ _ s item rest d r Hd Hq Hin Hnext)
          as (s1 & H1 & Hd1 & _).
        rewrite H1 in Hstep. injection Hstep as <-. exact Hd1.
      * unfold step in Hstep. cbn [handle] in Hstep. rewrite Hin in Hstep.
        now destruct k.
  - destruct (timers s) as [|st ts] eqn:Ht.
    + unfold step in Hstep. cbn [handle] in Hstep. now rewrite Ht in Hstep.
    + destruct (timer_draining _ _ s st ts Hd Ht) as (s1 & H1 & Hd1 & _).
      rewrite H1 in Hstep. injection Hstep as <-. exact Hd1.
  - destruct (clock_draining _ _ s ms Hd) as (H1 & Hd1).
    rewrite H1 in Hstep. injection Hstep as <-. exact Hd1.
Qed.

Lemma draining_run (total outcomes : nat) (events : list Event) :
  forall s s',
    draining total outcomes s ->
    Forall (fun e => fromEnvironment e = true) events ->
    run events s = Some s' ->
    draining total outcomes s'.
Proof.
  induction events as [|e events IH]; intros s s' Hd Hall Hrun; simpl in Hrun.
  - now injection Hrun as <-.
  - inversion Hall as [|e' l He Hrest]; subst.
    destruct (step e s) as [s1|] eqn:Hstep; [|discriminate].
    apply (IH s1 s'); [|exact Hrest|exact Hrun].
    now apply (draining_step total outcomes e s).
Qed.

(** When nothing is pending any more, the drain is over. *)
Lemma draining_quiescent (total outcomes : nat) (s : State) :
  draining total outcomes s ->
  quiescent s = true ->
  queue s = [] /\ processing s = false /\
  terminalCount (logs s) = total /\ outcomeCount (logs s) = outcomes.
Proof.
  intros Hd Hquiet.
  pose proof (draining_inflight _ _ _ Hd) as Hfl.
  destruct Hd as (_ & _ & _ & _ & _ & Harm & Htc & Hoc).
  unfold quiescent in Hquiet. apply andb_true_iff in Hquiet as [Hi Ht].
  apply Nat.eqb_eq in Hi, Ht.
  destruct (queue s) as [|item rest] eqn:Hq.
  - assert (Hp : processing s = false).
    { destruct (processing s); [|reflexivity].
      exfalso. apply (Harm eq_refl eq_refl). now destruct (timers s). }
    rewrite Hp in Htc. cbn [List.length] in Htc, Hoc.
    repeat split; try assumption; lia.
  - destruct Hfl as (d & Hin & _). rewrite Hin in Hi. discriminate.
Qed.

End Drain.

(** ** Starting the runner and draining to the end *)

Section Start.

(** The start button, with the runner at rest: with an empty queue only an
    info event is logged; otherwise the head of the queue is dispatched. *)
Lemma start_draining (n c : nat) (s : State) :
  ready n c s ->
  exists s1,
    step RunAgent s = Some s1 /\
    draining (c + n + match n with 0 => 0 | S _ => 1 end) n s1 /\
    timers s1 = [] /\
    List.length (queue s1) = n /\
    match n with
    | 0 => inflight s1 = []
    | S _ => processing s1 = true
    end.
Proof.
  intros (Hs & Hp & Ha & Hi & Ht & Hauto & Hnd & Hlt & Hlen & Htc & Hoc).
  destruct s as [st dr q p a l qr pr ar qd sd idc clk inf snt tm].
  unfold settled in Hs.
  cbn [settings draft queue processing activeProductId logs queueRef processingRef
       activeProductRef queueDirty settingsDirty idCounter clock inflight sent timers]
    in Hs, Hp, Ha, Hi, Ht, Hnd, Hlen, Htc, Hoc.
  destruct Hs as (-> & -> & -> & -> & ->). subst p a inf tm.
  destruct q as [|item rest].
  - subst n. eexists. split; [reflexivity|].
    unfold draining. cbn -[terminalCount outcomeCount String.append].
    split; [|repeat split].
    split; [repeat split|]. split; [constructor|]. split; [reflexivity|].
    split; [reflexivity|]. split; [reflexivity|]. split; [discriminate|].
    rewrite terminalCount_app, outcomeCount_app, Htc, Hoc.
    cbn [terminalCount outcomeCount filter terminal isOutcome level List.length].
    split; lia.
  - cbn [List.length] in Hlen. subst n. eexists. split; [reflexivity|].
    unfold draining. cbn -[terminalCount outcomeCount String.append].
    split; [|repeat split].
    split; [repeat split|]. split; [exact Hnd|]. split; [reflexivity|].
    split; [reflexivity|]. split; [discriminate|]. split; [discriminate|].
    rewrite terminalCount_app, outcomeCount_app, Htc, Hoc.
    cbn [terminalCount outcomeCount filter terminal isOutcome level List.length].
    split; lia.
Qed.

Lemma drain_fetches (total outcomes : nat) (m : nat) :
  forall s,
    draining total outcomes s ->
    processing s = true ->
    List.length (queue s) = m ->
    exists s',
      run (repeat (FetchDone 0 replyOk) m) s = Some s' /\
      draining total outcomes s' /\
      processing s' = true /\
      queue s' = [] /\
      List.length (timers s') = List.length (timers s) + m.
Proof.
  induction m as [|m IH]; intros s Hd Hp Hlen.
  - exists s. split; [reflexivity|]. split; [exact Hd|]. split; [exact Hp|].
    split; [now apply length_zero_iff_nil | lia].
  - destruct (queue s) as [|item rest] eqn:Hq; [discriminate|].
    pose proof (draining_inflight _ _ _ Hd) as Hfl. rewrite Hq in Hfl.
    destruct Hfl as (d & Hin & Hnext).
    destruct (fetchDone_draining _ _ s item rest d replyOk Hd Hq Hin Hnext)
      as (s1 & Hstep & Hd1 & Hp1 & Hq1 & Ht1).
    destruct (IH s1 Hd1 Hp1) as (s2 & Hrun & Hd2 & Hp2 & Hq2 & Ht2).
    { rewrite Hq1. simpl in Hlen. lia. }
    exists s2. split; [cbn [repeat run]; now rewrite Hstep|].
    split; [exact Hd2|]. split; [exact Hp2|]. split; [exact Hq2|].
    rewrite Ht2, Ht1, length_app. simpl. lia.
Qed.

Lemma drain_timers (total outcomes : nat) (t : nat) :
  forall s,
    draining total outcomes s ->
    queue s = [] ->
    List.length (timers s) = t ->
    exists s',
      run (repeat TimerFire t) s = Some s' /\
      draining total outcomes s' /\
      quiescent s' = true.
Proof.
  induction t as [|t IH]; intros s Hd Hq Hlen.
  - exists s. split; [reflexivity|]. split; [exact Hd|].
    pose proof (draining_inflight _ _ _ Hd) as Hfl. rewrite Hq in Hfl.
    unfold quiescent. now rewrite Hfl, Hlen.
  - destruct (timers s) as [|st ts] eqn:Ht; [discriminate|].
    destruct (timer_draining _ _ s st ts Hd Ht) as (s1 & Hstep & Hd1 & Ht1 & Hq1 & _).
    destruct (IH s1 Hd1) as (s2 & Hrun & Hd2 & Hquiet).
    { now rewrite Hq1. }
    { rewrite Ht1. simpl in Hlen. lia. }
    exists s2. split; [cbn [repeat run]; now rewrite Hstep|].
    split; assumption.
Qed.

(** From a runner at rest with [n] items, the start button followed by the
    prompt schedule ends with nothing pending. *)
Lemma prompt_schedule_ends (n c : nat) (s : State) :
  ready n c s ->
  exists final,
    run (RunAgent :: promptSchedule n) s = Some final /\ quiescent final = true.
Proof.
  intros Hr.
  destruct (start_draining n c s Hr) as (s1 & Hstep & Hd & Ht & Hlen & Hcase).
  cbn [run]. rewrite Hstep. unfold promptSchedule. rewrite run_app.
  destruct n as [|n].
  - exists s1. split; [reflexivity|]. unfold quiescent. now rewrite Hcase, Ht.
  - destruct (drain_fetches _ _ (S n) s1 Hd Hcase Hlen)
      as (s2 & Hrun2 & Hd2 & _ & Hq2 & Ht2).
    rewrite Hrun2.
    destruct (drain_timers _ _ (S n) s2 Hd2 Hq2) as (s3 & Hrun3 & _ & Hquiet).
    { rewrite Ht2, Ht. reflexivity. }
    exists s3. split; assumption.
Qed.

End Start.

(** C3, counterexample.  One item is enqueued with auto start off, the
    start button is pressed, the request succeeds and the timer fires.  The
    runner is idle again, nothing is pending, the queue is empty, and the
    log holds two events at level success: the upload and the event that
    says the queue is complete.  The claim says one. *)
Lemma one_item_two_terminal_events_counterexample :
  let final :=
    afterEvents (enqueue (titled "Widget") ++ RunAgent :: promptSchedule 1)%list
                (mounted manualStart) in
  run (enqueue (titled "Widget") ++ RunAgent :: promptSchedule 1)%list (mounted manualStart)
  = Some final /\
  quiescent final = true /\
  processing final = false /\
  queue final = [] /\
  map (fun e => (level e, headline e)) (logs final)
  = [(info, "Product queued: Widget"); (info, "Processing: Widget");
     (success, "Uploaded: Widget"); (success, "Queue complete")] /\
  terminalCount (logs final) = 2 /\
  terminalCount (logs final) <> 1.
Proof. vm_compute. repeat split; discriminate. Qed.

(** C3, amended.  With auto start off, so that the runner is idle until the
    start button is pressed: take any sequence of enqueues that succeed
    (the form submitted with a title, which adds one item; a CSV file whose
    header names every expected column, which adds one item per data line
    and logs one success event that says the file is imported), N items in
    all, followed by a start.  The N items are in the queue and the runner
    is idle when the start button is pressed; some schedule of the environment brings the run to
    an end; and every schedule that does (requests settling with any
    outcome, timers firing, time passing, until nothing is pending) leaves
    the queue empty and the runner idle, with exactly one outcome event
    (uploaded or failed) per item in the log.  The events at level success
    or error are those N outcomes, one event per imported file and, when N
    is not zero, the success event that says the queue is complete. *)
Theorem drain_logs_one_outcome_per_item (st : AgentSettings) (ops : list Enqueue) :
  autoStart st = false ->
  Forall accepted ops ->
  let enqueues := List.concat (map enqueueEvents ops) in
  let N := list_sum (map admitted ops) in
  (exists before,
     run enqueues (mounted st) = Some before /\
     List.length (queue before) = N /\
     processing before = false) /\
  (exists schedule final,
     Forall (fun e => fromEnvironment e = true) schedule /\
     run (enqueues ++ RunAgent :: schedule)%list (mounted st) = Some final /\
     quiescent final = true) /\
  (forall schedule final,
     Forall (fun e => fromEnvironment e = true) schedule ->
     run (enqueues ++ RunAgent :: schedule)%list (mounted st) = Some final ->
     quiescent final = true ->
     queue final = [] /\
     processing final = false /\
     outcomeCount (logs final) = N /\
     terminalCount (logs final)
     = N + match N with 0 => 0 | S _ => 1 end + imports ops).
Proof.
  intros Hauto Hall enqueues N.
  destruct (ready_enqueues ops 0 0 (mounted st) (ready_mounted st Hauto) Hall)
    as (s0 & Hrun0 & Hr0).
  cbn [Nat.add] in Hr0. fold enqueues in Hrun0. fold N in Hr0.
  split; [|split].
  - exists s0. split; [exact Hrun0|].
    destruct Hr0 as (_ & Hp & _ & _ & _ & _ & _ & _ & Hlen & _).
    split; [exact Hlen | exact Hp].
  - destruct (prompt_schedule_ends _ _ s0 Hr0) as (final & Hrun & Hquiet).
    exists (promptSchedule N), final.
    split; [|split; [|exact Hquiet]].
    + unfold promptSchedule. apply Forall_app. split; apply Forall_forall;
        intros e He; apply repeat_spec in He; now subst e.
    + now rewrite run_app, Hrun0.
  - intros schedule final Henv Hrun Hquiet.
    rewrite run_app, Hrun0 in Hrun. cbn [run] in Hrun.
    destruct (start_draining _ _ s0 Hr0) as (s1 & Hstep & Hd & _).
    rewrite Hstep in Hrun.
    pose proof (draining_run _ _ schedule s1 final Hd Henv Hrun) as Hd'.
    destruct (draining_quiescent _ _ final Hd' Hquiet) as (Hq & Hp & Htc & Hoc).
    split; [exact Hq|]. split; [exact Hp|]. split; [exact Hoc|].
    rewrite Htc. lia.
Qed.

Lemma drain_logs_one_outcome_per_item_witness :
  let ops := [ViaForm (titled "Wire");
              ViaCsv (documentedHeader ++ String Js.LF "Bolt,Tools,100")] in
  let schedule :=
    [FetchDone 0 (ApiThrew (Some "Failed to fetch")); TimerFire;
     FetchDone 0 replyOk; ClockAdvance 600; TimerFire] in
  let final :=
    afterEvents (List.concat (map enqueueEvents ops) ++ RunAgent :: schedule)%list
                (mounted manualStart) in
  queue final = [] /\
  processing final = false /\
  outcomeCount (logs final) = 2 /\
  terminalCount (logs final) = 4.
Proof.
  destruct (drain_logs_one_outcome_per_item manualStart
              [ViaForm (titled "Wire");
               ViaCsv (documentedHeader ++ String Js.LF "Bolt,Tools,100")]
              eq_refl) as (_ & _ & Hall).
  - constructor; [discriminate|]. constructor; [|constructor].
    exists documentedHeader, ["Bolt,Tools,100"]. split; [vm_compute; reflexivity|].
    apply missingColumns_complete. vm_compute. reflexivity.
  - apply (Hall [FetchDone 0 (ApiThrew (Some "Failed to fetch")); TimerFire;
                 FetchDone 0 replyOk; ClockAdvance 600; TimerFire]).
    + repeat constructor.
    + vm_compute. reflexivity.
    + vm_compute. reflexivity.
Defined.


(** ** Enqueuing *)

Section Enqueue.

(** X2.  The form refuses a draft without a title: one error event, nothing
    enqueued, the draft kept as it is, the runner untouched. *)
Lemma form_refuses_empty_title (s : State) :
  title (draft s) = EmptyString ->
  handleAddDraftToQueue s
  = appendLog error "Missing product name" (Some "Add a product title before queuing.") s /\
  queue (handleAddDraftToQueue s) = queue s /\
  draft (handleAddDraftToQueue s) = draft s /\
  processing (handleAddDraftToQueue s) = processing s /\
  errorCount (logs (handleAddDraftToQueue s)) = S (errorCount (logs s)).
Proof.
  intros H. unfold handleAddDraftToQueue. rewrite H. cbn [Js.truthy String.eqb negb].
  repeat split. rewrite appendLog_logs, errorCount_app. unfold errorCount. simpl. lia.
Qed.

(** The form enqueues a draft with a title at the tail of the queue and
    clears the form. *)
Lemma form_enqueues_titled (s : State) :
  title (draft s) <> EmptyString ->
  queue (handleAddDraftToQueue s)
  = (queue s ++ [mkProductPayload (idCounter s) (clock s) (draft s)])%list /\
  draft (handleAddDraftToQueue s) = initialDraft /\
  errorCount (logs (handleAddDraftToQueue s)) = errorCount (logs s).
Proof.
  intros H. unfold handleAddDraftToQueue.
  assert (Ht : Js.truthy (title (draft s)) = true)
    by (unfold Js.truthy; apply negb_true_iff, String.eqb_neq; exact H).
  rewrite Ht. cbn [negb].
  change (queue (resetDraft ?x)) with (queue x).
  change (logs (resetDraft ?x)) with (logs x).
  rewrite addToQueue_queue. split; [reflexivity|]. split; [reflexivity|].
  unfold addToQueue. destruct (_ && _);
    cbn [setProcessing logs]; rewrite appendLog_logs, errorCount_app;
    unfold errorCount; simpl; lia.
Qed.

(** C1, at the failing input.  A CSV file with the documented header and
    the data line ,Tools,100 (empty title): the import logs no error and
    enqueues an item whose title is empty; the same draft typed into the
    form is refused with an error event.  The item is only caught when it
    is dispatched: the route answers that the title is missing. *)
Theorem csv_row_without_title_is_enqueued :
  let imported := parseCsvFile untitledCsv (mounted manualStart) in
  let row := rowProduct (csvHeaders documentedHeader) ",Tools,100" in
  let typed := handleAddDraftToQueue (setDraft (fun _ => row) (mounted manualStart)) in
  title row = EmptyString /\
  map payload (queue imported) = [row] /\
  map (fun e => (level e, headline e)) (logs imported)
  = [(info, "Product queued: Untitled"); (success, "CSV imported")] /\
  errorCount (logs imported) = 0 /\
  queue typed = [] /\
  map (fun e => (level e, headline e)) (logs typed) = [(error, "Missing product name")] /\
  thrownMessage (routeReply manualStart row)
  = Some "Missing required product fields: title, description, shortDescription".
Proof. vm_compute. repeat split. Qed.

End Enqueue.

(** ** Further properties *)

(** Every answer of the route with a status outside 200-299 is a failure
    for the console, with the error text of the route for message. *)
Lemma route_error_is_failure (resp : Route.NextResponse) (e : string) :
  (Route.status resp <? 200)%nat || (299 <? Route.status resp)%nat = true ->
  Route.body resp = Route.ErrorBody e ->
  thrownMessage (ofResponse resp) = Some e.
Proof.
  intros Hst Hb. unfold ofResponse. rewrite Hb.
  replace ((200 <=? Route.status resp)%nat && (Route.status resp <=? 299)%nat) with false;
    [reflexivity|].
  symmetry. apply orb_true_iff in Hst as [H|H]; apply Nat.ltb_lt in H.
  - apply andb_false_iff. left. apply Nat.leb_gt. exact H.
  - apply andb_false_iff. right. apply Nat.leb_gt. exact H.
Qed.

Lemma splitCsvLine_encodeLine_witness :
  splitCsvLine (encodeLine [Js.q ++ "hi" ++ Js.q; "16 AWG, copper"; EmptyString])
  = [Js.q ++ "hi" ++ Js.q; "16 AWG, copper"; EmptyString].
Proof.
  apply (splitCsvLine_encodeLine [Js.q ++ "hi" ++ Js.q; "16 AWG, copper"; EmptyString]).
  discriminate.
Defined.

Lemma form_refuses_empty_title_witness :
  queue (handleAddDraftToQueue (mounted defaultSettings)) = [] /\
  errorCount (logs (handleAddDraftToQueue (mounted defaultSettings))) = 1.
Proof.
  destruct (form_refuses_empty_title (mounted defaultSettings) eq_refl)
    as (_ & Hq & _ & _ & He).
  split; [exact Hq | exact He].
Defined.

(** With auto start on, as it is by default, enqueuing an item while the
    runner is idle sends two requests for it: the commit that follows runs
    the effect on [processing] and then the effect on [queue], and both
    call [processNextProduct] before [activeProductRef] is brought up to
    date. *)
Lemma autoStart_sends_first_item_twice :
  let s := afterEvents (enqueue (titled "Wire")) (mounted defaultSettings) in
  run (enqueue (titled "Wire")) (mounted defaultSettings) = Some s /\
  sentTitles s = ["Wire"; "Wire"] /\
  List.length (inflight s) = 2 /\
  List.length (queue s) = 1.
Proof. vm_compute. repeat split. Qed.

(** ** Cells, quotes and list fields *)

Section Trimming.

Lemma trimStart_idem (s : string) : Js.trimStart (Js.trimStart s) = Js.trimStart s.
Proof.
  induction s as [|c s IH]; [reflexivity|].
  simpl. destruct (Js.isWhiteSpace c) eqn:Hc; [exact IH|].
  simpl. now rewrite Hc.
Qed.

Lemma trimEnd_idem (s : string) : Js.trimEnd (Js.trimEnd s) = Js.trimEnd s.
Proof.
  induction s as [|c s IH]; [reflexivity|].
  simpl. destruct (Js.trimEnd s) as [|d t] eqn:E.
  - destruct (Js.isWhiteSpace c) eqn:Hc; [reflexivity|].
    simpl. now rewrite Hc.
  - change (Js.trimEnd (String c (String d t)))
      with (match Js.trimEnd (String d t) with
            | EmptyString => if Js.isWhiteSpace c then EmptyString else String c EmptyString
            | String a b => String c (String a b)
            end).
    now rewrite IH.
Qed.

Lemma trim_idem (s : string) : Js.trim (Js.trim s) = Js.trim s.
Proof.
  unfold Js.trim.
  rewrite <- (trim_comm (Js.trimStart s)), trimStart_idem.
  apply trimEnd_idem.
Qed.

Lemma trimStart_skip (w s : string) :
  blank w = true -> Js.trimStart (w ++ s) = Js.trimStart s.
Proof.
  induction w as [|c w IH]; [reflexivity|].
  simpl. intros H. apply andb_true_iff in H as [Hc Hw]. rewrite Hc. now apply IH.
Qed.

Lemma trimEnd_blank (w : string) : blank w = true -> Js.trimEnd w = EmptyString.
Proof.
  induction w as [|c w IH]; [reflexivity|].
  simpl. intros H. apply andb_true_iff in H as [Hc Hw].
  now rewrite (IH Hw), Hc.
Qed.

Lemma trimEnd_skip (s w : string) :
  blank w = true -> Js.trimEnd (s ++ w) = Js.trimEnd s.
Proof.
  intros Hw. induction s as [|c s IH]; simpl.
  - now apply trimEnd_blank.
  - now rewrite IH.
Qed.

(** A string that ends with a code unit that is not white space is its own
    [trimEnd]. *)
Lemma trimEnd_snoc (m : string) (c : ascii) :
  Js.isWhiteSpace c = false ->
  Js.trimEnd (m ++ String c EmptyString) = m ++ String c EmptyString.
Proof.
  intros Hc. induction m as [|x m IH]; simpl.
  - now rewrite Hc.
  - rewrite IH. now destruct m.
Qed.

Lemma trim_wrapped (w1 w2 m : string) (c d : ascii) :
  blank w1 = true -> blank w2 = true ->
  Js.isWhiteSpace c = false -> Js.isWhiteSpace d = false ->
  Js.trim (w1 ++ String c (m ++ String d EmptyString) ++ w2)
  = String c (m ++ String d EmptyString).
Proof.
  intros H1 H2 Hc Hd. unfold Js.trim.
  rewrite trimStart_skip by exact H1.
  change (Js.trimStart (String c (m ++ String d EmptyString) ++ w2))
    with (if Js.isWhiteSpace c
          then Js.trimStart ((m ++ String d EmptyString) ++ w2)
          else String c (m ++ String d EmptyString) ++ w2).
  rewrite Hc, trimEnd_skip by exact H2.
  change (String c (m ++ String d EmptyString))
    with (String c m ++ String d EmptyString).
  now apply trimEnd_snoc.
Qed.

End Trimming.

Section CleanCell.

Lemma endsWith_snoc (m p : string) : Js.endsWith p (m ++ p) = true.
Proof.
  induction m as [|x m IH].
  - cbn [append]. destruct p; cbn [Js.endsWith]; now rewrite String.eqb_refl.
  - change (Js.endsWith p (String x m ++ p))
      with (String.eqb (String x (m ++ p)) p || Js.endsWith p (m ++ p)).
    rewrite IH. apply orb_true_r.
Qed.

Lemma substring_prefix (m rest : string) :
  String.substring 0 (String.length m) (m ++ rest) = m.
Proof.
  induction m as [|x m IH]; simpl.
  - now destruct rest.
  - now rewrite IH.
Qed.

(** [slice(1, -1)] takes the first and the last code unit off. *)
Lemma slice_inner (c d : ascii) (m : string) :
  Js.slice 1 (-1) (String c (m ++ String d EmptyString)) = m.
Proof.
  unfold Js.slice.
  assert (Hlen : String.length (String c (m ++ String d EmptyString))
                 = S (S (String.length m))).
  { simpl. f_equal. induction m as [|x m IH]; simpl; [reflexivity | now rewrite IH]. }
  rewrite Hlen.
  change (1 <? 0)%Z with false. change (-1 <? 0)%Z with true. cbv iota.
  replace (Z.min 1 (Z.of_nat (S (S (String.length m))))) with 1%Z by lia.
  replace (Z.max (Z.of_nat (S (S (String.length m))) + -1) 0)
    with (Z.of_nat (S (String.length m))) by lia.
  replace (Z.max (Z.of_nat (S (String.length m)) - 1) 0)
    with (Z.of_nat (String.length m)) by lia.
  rewrite Nat2Z.id. change (Z.to_nat 1) with 1.
  change (String.substring 1 (String.length m) (String c (m ++ String d EmptyString)))
    with (String.substring 0 (String.length m) (m ++ String d EmptyString)).
  apply substring_prefix.
Qed.

Lemma replaceDoubledQuotes_doubleQuotes (field : string) :
  Js.replaceDoubledQuotes (doubleQuotes field) = field.
Proof.
  induction field as [|c r IH]; [reflexivity|].
  simpl doubleQuotes. destruct (Ascii.eqb c Js.dquote) eqn:Hc.
  - apply Ascii.eqb_eq in Hc. subst c.
    change (Js.replaceDoubledQuotes (String Js.dquote (String Js.dquote (doubleQuotes r))))
      with (String Js.dquote (Js.replaceDoubledQuotes (doubleQuotes r))).
    now rewrite IH.
  - destruct (doubleQuotes r) as [|c2 rest] eqn:E.
    + simpl in *. now rewrite <- IH.
    + change (Js.replaceDoubledQuotes (String c (String c2 rest)))
        with (if Ascii.eqb c Js.dquote && Ascii.eqb c2 Js.dquote
              then String Js.dquote (Js.replaceDoubledQuotes rest)
              else String c (Js.replaceDoubledQuotes (String c2 rest))).
      rewrite Hc. cbn [andb]. now rewrite IH.
Qed.

(** X4.  [cleanCell] is a decoder of quoted fields in its own right: a field
    wrapped in quotes with its quotes doubled, white space allowed around
    the quotes, comes out as the field. *)
Theorem cleanCell_decodes_quoted_field (w1 w2 field : string) :
  blank w1 = true -> blank w2 = true ->
  cleanCell (w1 ++ quoteField field ++ w2) = field.
Proof.
  intros H1 H2. unfold cleanCell, quoteField, Js.q.
  change (String Js.dquote EmptyString ++ doubleQuotes field ++ String Js.dquote EmptyString)
    with (String Js.dquote (doubleQuotes field ++ String Js.dquote EmptyString)).
  rewrite (trim_wrapped w1 w2 (doubleQuotes field) Js.dquote Js.dquote H1 H2 eq_refl eq_refl).
  cbv zeta.
  fold Js.q. rewrite startsWith_q, Ascii.eqb_refl.
  change (String Js.dquote (doubleQuotes field ++ Js.q))
    with (String Js.dquote (doubleQuotes field) ++ Js.q) at 1.
  rewrite endsWith_snoc. cbn [andb].
  unfold Js.q. rewrite slice_inner. apply replaceDoubledQuotes_doubleQuotes.
Qed.

Lemma cleanCell_decodes_quoted_field_witness :
  cleanCell (" " ++ quoteField ("5" ++ Js.q ++ " pipe, steel") ++ "  ")
  = "5" ++ Js.q ++ " pipe, steel".
Proof.
  apply (cleanCell_decodes_quoted_field " " "  " ("5" ++ Js.q ++ " pipe, steel"));
    reflexivity.
Defined.

End CleanCell.

Section TokenizerEdges.

Lemma unquoted_app (a b : string) :
  unquoted a = true -> unquoted b = true -> unquoted (a ++ b) = true.
Proof.
  intros Ha Hb. induction a as [|c a IH]; [exact Hb|].
  simpl in *. apply andb_true_iff in Ha as [Hc Ha]. now rewrite Hc, IH.
Qed.

Lemma splitCsvLoop_quote_free (line : string) :
  forall values current inside,
    noDoubledQuote line = true ->
    Forall (fun f => unquoted f = true) values ->
    unquoted current = true ->
    Forall (fun f => unquoted f = true) (splitCsvLoop line values current inside).
Proof.
  induction line as [|c|c1 c2 s IHs IHc] using string_pair_ind;
    intros values current inside Hline Hvalues Hcurrent.
  - simpl. apply Forall_app. split; [exact Hvalues | now constructor].
  - simpl. destruct (Ascii.eqb c Js.dquote) eqn:Hc.
    + simpl. apply Forall_app. split; [exact Hvalues | now constructor].
    + destruct (Ascii.eqb c Js.comma && negb inside); simpl.
      * apply Forall_app. split; [|now constructor].
        apply Forall_app. split; [exact Hvalues | now constructor].
      * apply Forall_app. split; [exact Hvalues|]. constructor; [|constructor].
        apply unquoted_app; [exact Hcurrent|]. simpl. now rewrite Hc.
  - assert (Htail : noDoubledQuote (String c2 s) = true).
    { change (negb (Ascii.eqb c1 Js.dquote && Ascii.eqb c2 Js.dquote)
              && noDoubledQuote (String c2 s) = true) in Hline.
      now apply andb_true_iff in Hline as [_ H]. }
    assert (Hpair : Ascii.eqb c1 Js.dquote && Ascii.eqb c2 Js.dquote = false).
    { change (negb (Ascii.eqb c1 Js.dquote && Ascii.eqb c2 Js.dquote)
              && noDoubledQuote (String c2 s) = true) in Hline.
      apply andb_true_iff in Hline as [H _]. now apply negb_true_iff in H. }
    rewrite splitCsvLoop_cons2.
    destruct (Ascii.eqb c1 Js.dquote) eqn:H1.
    + cbn [andb] in Hpair. rewrite Hpair, andb_false_r.
      now apply IHc.
    + destruct (Ascii.eqb c1 Js.comma && negb inside).
      * apply IHc; [exact Htail | | reflexivity].
        apply Forall_app. split; [exact Hvalues | now constructor].
      * apply IHc; [exact Htail | exact Hvalues |].
        apply unquoted_app; [exact Hcurrent|]. simpl. now rewrite H1.
Qed.

(** X5.  The tokenizer only ever writes a quote into a field for two quotes that
    stand side by side: on a line where no two quotes touch, every quote
    of the line is dropped and no field holds one. *)
Theorem lone_quotes_are_dropped (line : string) :
  noDoubledQuote line = true ->
  Forall (fun f => unquoted f = true) (splitCsvLine line).
Proof.
  intros H. unfold splitCsvLine. now apply splitCsvLoop_quote_free.
Qed.

Lemma lone_quotes_are_dropped_witness :
  Forall (fun f => unquoted f = true)
         (splitCsvLine ("Pipe 5" ++ Js.q ++ " steel," ++ Js.q ++ "a,b" ++ Js.q ++ ",x")).
Proof.
  apply (lone_quotes_are_dropped
           ("Pipe 5" ++ Js.q ++ " steel," ++ Js.q ++ "a,b" ++ Js.q ++ ",x")).
  reflexivity.
Defined.

(** Inside quotes, text without a quote is copied to the field, commas
    included, up to the end of the line. *)
Lemma splitCsvLoop_inside (s : string) :
  forall values current,
    unquoted s = true ->
    splitCsvLoop s values current true = (values ++ [(current ++ s)%string])%list.
Proof.
  induction s as [|c s IH]; intros values current H.
  - now rewrite append_empty_r.
  - simpl in H. apply andb_true_iff in H as [Hc Hs]. apply negb_true_iff in Hc.
    rewrite (splitCsvLoop_plain _ _ _ _ _ Hc), andb_false_r.
    rewrite (IH _ _ Hs). now rewrite append_char_assoc.
Qed.

Lemma splitCsvLoop_fields_then (fields : list Field) (tail : string) :
  Forall bareOk fields ->
  forall values,
    splitCsvLoop (Js.join "," (map render fields ++ [tail])%list) values EmptyString false
    = splitCsvLoop tail (values ++ map snd fields)%list EmptyString false.
Proof.
  induction fields as [|f fs IH]; intros Hall values.
  - simpl. now rewrite app_nil_r.
  - inversion Hall as [|f' l Hf Hfs]; subst.
    assert (Hjoin : Js.join "," (map render (f :: fs) ++ [tail])%list
                    = render f ++ String Js.comma (Js.join "," (map render fs ++ [tail])%list)).
    { unfold Js.join. cbn [map app String.concat].
      destruct (map render fs ++ [tail])%list eqn:E; [|reflexivity].
      now destruct (map render fs). }
    rewrite Hjoin, splitCsvLoop_rendered_field by eauto.
    rewrite splitCsvLoop_plain by reflexivity.
    cbn [andb negb]. rewrite Ascii.eqb_refl. cbn [andb].
    rewrite (IH Hfs). cbn [map]. now rewrite <- app_assoc.
Qed.

(** X6.  A quote that is opened and never closed takes the rest of the line,
    commas included, as one field. *)
Theorem unclosed_quote_takes_rest_of_line (fields : list Field) (rest : string) :
  Forall bareOk fields ->
  unquoted rest = true ->
  splitCsvLine (Js.join "," (map render fields ++ [(Js.q ++ rest)%string])%list)
  = (map snd fields ++ [rest])%list.
Proof.
  intros Hall Hrest. unfold splitCsvLine.
  rewrite (splitCsvLoop_fields_then fields (Js.q ++ rest) Hall).
  change (Js.q ++ rest) with (String Js.dquote rest).
  rewrite splitCsvLoop_open. now apply splitCsvLoop_inside.
Qed.

Lemma unclosed_quote_takes_rest_of_line_witness :
  splitCsvLine ("Wire," ++ Js.q ++ "16 AWG, copper,10") = ["Wire"; "16 AWG, copper,10"].
Proof.
  apply (unclosed_quote_takes_rest_of_line [(false, "Wire")] "16 AWG, copper,10").
  - repeat constructor.
  - reflexivity.
Defined.

End TokenizerEdges.

Section RowsAndLineFeeds.

Lemma splitLines_free (s : string) : free Js.LF s = true -> Js.splitLines s = [s].
Proof.
  induction s as [|c s IH]; [reflexivity|].
  intros H. simpl in H. apply andb_true_iff in H as [Hc Hs].
  apply negb_true_iff in Hc. specialize (IH Hs).
  destruct s as [|c2 s'].
  - simpl. now rewrite Hc.
  - rewrite splitLines_cons2, Hc.
    assert (H2 : Ascii.eqb c2 Js.LF = false).
    { simpl in Hs. apply andb_true_iff in Hs as [H2 _]. now apply negb_true_iff in H2. }
    rewrite H2, andb_false_r, IH. reflexivity.
Qed.

Lemma doubleQuotes_app (a b : string) :
  doubleQuotes (a ++ b) = doubleQuotes a ++ doubleQuotes b.
Proof.
  induction a as [|c a IH]; [reflexivity|].
  simpl. destruct (Ascii.eqb c Js.dquote); simpl; now rewrite IH.
Qed.

Lemma free_doubleQuotes (a : string) :
  free Js.LF a = true -> free Js.LF (doubleQuotes a) = true.
Proof.
  induction a as [|c a IH]; [reflexivity|].
  simpl. intros H. apply andb_true_iff in H as [Hc Ha].
  destruct (Ascii.eqb c Js.dquote) eqn:E.
  - apply Ascii.eqb_eq in E. subst c. simpl. now apply IH.
  - simpl. now rewrite Hc, IH.
Qed.

Lemma free_app (sep : ascii) (a b : string) :
  free sep a = true -> free sep b = true -> free sep (a ++ b) = true.
Proof.
  intros Ha Hb. induction a as [|c a IH]; [exact Hb|].
  simpl in *. apply andb_true_iff in Ha as [Hc Ha]. now rewrite Hc, IH.
Qed.

Lemma trimStart_keeps_last (m : string) (c : ascii) :
  Js.isWhiteSpace c = false ->
  Js.trimStart (m ++ String c EmptyString) <> EmptyString.
Proof.
  intros Hc. induction m as [|x m IH]; simpl.
  - now rewrite Hc.
  - now destruct (Js.isWhiteSpace x).
Qed.

Lemma csvLines_one (x : string) :
  free Js.LF x = true -> Js.trim x <> EmptyString -> csvLines x = [Js.trim x].
Proof.
  intros Hx Hne. unfold csvLines. rewrite splitLines_free by exact Hx.
  cbn [map filter]. destruct (Js.trim x); [congruence | reflexivity].
Qed.

(** X7.  A line feed ends the row even inside quotes: a quoted field that holds
    a line feed is read as two lines, the first with a quote that is never
    closed, the second with a quote that was never opened. *)
Theorem line_feed_inside_quotes_ends_row (a b : string) :
  free Js.LF a = true ->
  free Js.LF b = true ->
  csvLines (quoteField (a ++ String Js.LF b))
  = [Js.trim (Js.q ++ doubleQuotes a); Js.trim (doubleQuotes b ++ Js.q)].
Proof.
  intros Ha Hb. unfold quoteField.
  rewrite doubleQuotes_app.
  change (doubleQuotes (String Js.LF b)) with (String Js.LF (doubleQuotes b)).
  rewrite <- !append_assoc.
  change ((Js.q ++ doubleQuotes a) ++ String Js.LF (doubleQuotes b))
    with ((Js.q ++ doubleQuotes a) ++ String Js.LF (doubleQuotes b)).
  rewrite append_assoc.
  change (String Js.LF (doubleQuotes b) ++ Js.q)
    with (String Js.LF (doubleQuotes b ++ Js.q)).
  rewrite csvLines_app_LF.
  rewrite (csvLines_one (Js.q ++ doubleQuotes a)).
  - rewrite (csvLines_one (doubleQuotes b ++ Js.q)); [reflexivity | |].
    + apply free_app; [now apply free_doubleQuotes | reflexivity].
    + unfold Js.trim. rewrite trim_comm. unfold Js.q.
      rewrite trimEnd_snoc by reflexivity. now apply trimStart_keeps_last.
  - apply free_app; [reflexivity | now apply free_doubleQuotes].
  - unfold Js.trim.
    change (Js.trimStart (Js.q ++ doubleQuotes a)) with (String Js.dquote (doubleQuotes a)).
    destruct (trimEnd_head Js.dquote (doubleQuotes a) eq_refl) as [t Ht].
    rewrite Ht. discriminate.
Qed.

Lemma line_feed_inside_quotes_ends_row_witness :
  csvLines (quoteField ("first" ++ String Js.LF "second"))
  = [Js.q ++ "first"; "second" ++ Js.q].
Proof.
  apply (line_feed_inside_quotes_ends_row "first" "second"); reflexivity.
Defined.

End RowsAndLineFeeds.

Section Explode.

Lemma split_free (sep : ascii) (s : string) :
  Forall (fun x => free sep x = true) (Js.split sep s).
Proof.
  induction s as [|c s IH]; [repeat constructor|].
  simpl. destruct (Ascii.eqb c sep) eqn:Hc.
  - constructor; [reflexivity | exact IH].
  - destruct (Js.split sep s) as [|x xs]; simpl.
    + repeat constructor. simpl. now rewrite Hc.
    + inversion IH; subst. constructor; [|assumption]. simpl. now rewrite Hc.
Qed.

Lemma free_trimStart (sep : ascii) (s : string) :
  free sep s = true -> free sep (Js.trimStart s) = true.
Proof.
  induction s as [|c s IH]; [reflexivity|].
  intros H. simpl. destruct (Js.isWhiteSpace c); [|exact H].
  simpl in H. apply andb_true_iff in H as [_ H]. now apply IH.
Qed.

Lemma free_trimEnd (sep : ascii) (s : string) :
  free sep s = true -> free sep (Js.trimEnd s) = true.
Proof.
  induction s as [|c s IH]; [reflexivity|].
  intros H. simpl in H. apply andb_true_iff in H as [Hc H].
  simpl. specialize (IH H).
  destruct (Js.trimEnd s) as [|d t].
  - destruct (Js.isWhiteSpace c); simpl; [reflexivity | now rewrite Hc].
  - simpl in *. now rewrite Hc, IH.
Qed.

Lemma explode_In (sep : ascii) (text x : string) :
  In x (explode sep text) ->
  tidy x /\ free sep x = true.
Proof.
  unfold explode. intros H. apply filter_In in H as [Hin Ht].
  apply in_map_iff in Hin as (y & <- & Hy).
  split; [split|].
  - unfold Js.truthy in Ht. apply negb_true_iff, String.eqb_neq in Ht. exact Ht.
  - apply trim_idem.
  - unfold Js.trim. apply free_trimEnd, free_trimStart.
    pose proof (split_free sep text) as Hf. rewrite Forall_forall in Hf. now apply Hf.
Qed.

(** X8.  The three lists that [normalizeProduct] builds never hold an empty
    entry, an entry with white space at either end, or an entry that
    contains its separator. *)
Theorem normalizeProduct_entries_are_tidy (p : ProductDraft) :
  Forall (fun x => tidy x /\ free Js.comma x = true) (n_keywords (normalizeProduct p)) /\
  Forall (fun x => tidy x /\ free Js.LF x = true) (n_imageUrls (normalizeProduct p)) /\
  Forall (fun x => tidy x /\ free Js.LF x = true) (n_features (normalizeProduct p)).
Proof.
  cbn [normalizeProduct n_keywords n_imageUrls n_features].
  repeat split; apply Forall_forall; intros x Hx; now apply explode_In in Hx.
Qed.

Lemma split_one (sep : ascii) (x : string) : free sep x = true -> Js.split sep x = [x].
Proof.
  induction x as [|c x IH]; [reflexivity|].
  simpl. intros H. apply andb_true_iff in H as [Hc Hx]. apply negb_true_iff in Hc.
  now rewrite Hc, (IH Hx).
Qed.

Lemma split_app (sep : ascii) (x rest : string) :
  free sep x = true ->
  Js.split sep (x ++ String sep rest) = x :: Js.split sep rest.
Proof.
  induction x as [|c x IH]; intros H.
  - simpl. now rewrite Ascii.eqb_refl.
  - simpl in H. apply andb_true_iff in H as [Hc Hx]. apply negb_true_iff in Hc.
    simpl. now rewrite Hc, (IH Hx).
Qed.

Lemma split_join (sep : ascii) (xs : list string) :
  xs <> [] ->
  Forall (fun x => free sep x = true) xs ->
  Js.split sep (Js.join (String sep EmptyString) xs) = xs.
Proof.
  unfold Js.join.
  induction xs as [|x xs IH]; intros Hne Hall; [congruence|].
  inversion Hall as [|x' l Hx Hxs]; subst.
  destruct xs as [|y ys].
  - simpl. now apply split_one.
  - change (String.concat (String sep EmptyString) (x :: y :: ys))
      with (x ++ String sep (String.concat (String sep EmptyString) (y :: ys))).
    rewrite split_app by exact Hx. f_equal. apply IH; [discriminate | exact Hxs].
Qed.

(** X9.  Round trip of the list fields: entries that are tidy and free of the
    separator, joined with the separator, come back as they were. *)
Theorem explode_join (sep : ascii) (xs : list string) :
  Forall (fun x => tidy x /\ free sep x = true) xs ->
  explode sep (Js.join (String sep EmptyString) xs) = xs.
Proof.
  intros Hall. destruct xs as [|x xs]; [reflexivity|].
  unfold explode. rewrite split_join.
  - induction Hall as [|y ys [[Hne Ht] _] _ IH]; [reflexivity|].
    cbn [map filter]. rewrite Ht.
    unfold Js.truthy at 1. apply String.eqb_neq in Hne. rewrite Hne. cbn [negb].
    now rewrite IH.
  - discriminate.
  - apply Forall_forall. intros y Hy. rewrite Forall_forall in Hall.
    now destruct (Hall y Hy).
Qed.

Lemma explode_join_witness :
  explode Js.comma (Js.join "," ["copper wire"; "hvac"; "16 AWG"])
  = ["copper wire"; "hvac"; "16 AWG"].
Proof.
  apply (explode_join Js.comma ["copper wire"; "hvac"; "16 AWG"]).
  repeat constructor; discriminate.
Defined.

Lemma trim_empty_blank (s : string) : Js.trim s = EmptyString -> blank s = true.
Proof.
  unfold Js.trim. induction s as [|c s IH]; [reflexivity|].
  simpl Js.trimStart. destruct (Js.isWhiteSpace c) eqn:Hc.
  - intros H. simpl. rewrite Hc. now apply IH.
  - intros H. destruct (trimEnd_head c s Hc) as [t Ht]. congruence.
Qed.

(** X10.  A list field gives the empty list exactly when it is empty or holds
    white space and separators only. *)
Theorem explode_blank (sep : ascii) (text : string) :
  explode sep text = [] <-> Forall (fun x => blank x = true) (Js.split sep text).
Proof.
  unfold explode. split.
  - induction (Js.split sep text) as [|x xs IH]; [constructor|].
    cbn [map filter]. unfold Js.truthy at 1.
    destruct (String.eqb (Js.trim x) EmptyString) eqn:E; cbn [negb]; [|discriminate].
    intros H. constructor; [|now apply IH].
    apply trim_empty_blank. now apply String.eqb_eq.
  - intros H. induction H as [|x xs Hx _ IH]; [reflexivity|].
    cbn [map filter]. now rewrite (trim_blank x Hx).
Qed.

Lemma explode_blank_witness :
  explode Js.comma " , ,, " = [] /\ explode Js.LF EmptyString = [].
Proof.
  split.
  - apply (explode_blank Js.comma " , ,, "). repeat constructor.
  - apply (explode_blank Js.LF EmptyString). repeat constructor.
Defined.

End Explode.

(** ** Generated descriptions *)

Section GeneratedCopy.

Lemma append_nonempty_r (a b : string) : b <> EmptyString -> a ++ b <> EmptyString.
Proof. intros Hb. destruct a; [exact Hb | discriminate]. Qed.

Lemma generated_is_filled (s : State) :
  shortDescription (draft (autoGenerateDescriptions s)) <> EmptyString /\
  description (draft (autoGenerateDescriptions s)) <> EmptyString /\
  title (draft (autoGenerateDescriptions s)) = title (draft s).
Proof.
  unfold autoGenerateDescriptions.
  cbn [appendLog bumpId setLogs setDraft draft withKey shortDescription description title].
  split; [|split; [|reflexivity]]; apply append_nonempty_r; discriminate.
Qed.

(** X11.  Auto-generate writes the two descriptions and nothing else.  The other
    twelve fields of the draft, the queue and the runner are untouched and
    nothing is sent; one success event is logged.  Both descriptions come
    out filled in and start with the title (or with the words This product
    when there is none).  What was typed in the two description fields
    before is overwritten without being read: two states whose drafts
    agree on the other fields get the same draft, so a second click changes
    nothing. *)
Theorem autoGenerate_overwrites_descriptions_only (s : State) :
  (forall key,
     key <> key_shortDescription -> key <> key_description ->
     fieldOf key (draft (autoGenerateDescriptions s)) = fieldOf key (draft s)) /\
  shortDescription (draft (autoGenerateDescriptions s)) <> EmptyString /\
  description (draft (autoGenerateDescriptions s)) <> EmptyString /\
  String.prefix (Js.orElse (title (draft s)) "This product")
                (shortDescription (draft (autoGenerateDescriptions s))) = true /\
  String.prefix (Js.orElse (title (draft s)) "This product")
                (description (draft (autoGenerateDescriptions s))) = true /\
  (forall other,
     (forall key,
        key <> key_shortDescription -> key <> key_description ->
        fieldOf key (draft other) = fieldOf key (draft s)) ->
     draft (autoGenerateDescriptions other) = draft (autoGenerateDescriptions s)) /\
  draft (autoGenerateDescriptions (autoGenerateDescriptions s))
  = draft (autoGenerateDescriptions s) /\
  queue (autoGenerateDescriptions s) = queue s /\
  processing (autoGenerateDescriptions s) = processing s /\
  sent (autoGenerateDescriptions s) = sent s /\
  logs (autoGenerateDescriptions s)
  = (logs s ++ [mkLogEntry (idCounter s) success "Descriptions generated"
                  (Some "Draft updated using the agent template.") (clock s)])%list.
Proof.
  assert (Hsame : forall other,
             (forall key,
                key <> key_shortDescription -> key <> key_description ->
                fieldOf key (draft other) = fieldOf key (draft s)) ->
             draft (autoGenerateDescriptions other) = draft (autoGenerateDescriptions s)).
  { intros other H.
    assert (K : forall key,
               (if match key with
                   | key_shortDescription | key_description => true
                   | _ => false
                   end
                then True
                else fieldOf key (draft other) = fieldOf key (draft s))).
    { intros key. destruct key; try exact I; apply H; discriminate. }
    pose proof (K key_title) as K1. pose proof (K key_category) as K2.
    pose proof (K key_price) as K3. pose proof (K key_currency) as K4.
    pose proof (K key_unit) as K5. pose proof (K key_stock) as K6.
    pose proof (K key_minOrderQty) as K7. pose proof (K key_keywords) as K8.
    pose proof (K key_imageUrls) as K9. pose proof (K key_features) as K10.
    pose proof (K key_packaging) as K11. pose proof (K key_leadTime) as K12.
    cbn [fieldOf] in K1, K2, K3, K4, K5, K6, K7, K8, K9, K10, K11, K12.
    unfold autoGenerateDescriptions.
    cbn [appendLog bumpId setLogs setDraft draft withKey].
    cbn [title category price currency unit stock minOrderQty keywords imageUrls
         shortDescription description features packaging leadTime].
    now rewrite K1, K2, K3, K4, K5, K6, K7, K8, K9, K10, K11, K12. }
  destruct (generated_is_filled s) as (Hshort & Hlong & _).
  split.
  { intros key H1 H2. destruct key; try reflexivity; congruence. }
  split; [exact Hshort|]. split; [exact Hlong|].
  split; [apply prefix_append|]. split; [apply prefix_append|].
  split; [exact Hsame|].
  split.
  { apply Hsame. intros key H1 H2. destruct key; try reflexivity; congruence. }
  repeat split.
Qed.

End GeneratedCopy.

(** ** Replies of the route *)

Section RouteReplies.

Variable fetch : Route.RemoteRequest -> Route.FetchResult.

Lemma isJson_declaresJson (r : Route.RemoteResponse) :
  match Route.contentType r with
  | Some ct => Js.truthy ct && Js.includes "application/json" ct
  | None => false
  end = declaresJson r.
Proof.
  unfold declaresJson. destruct (Route.contentType r) as [ct|]; [|reflexivity].
  destruct ct; reflexivity.
Qed.

(** The three shapes of a reply after the remote call. *)
Lemma afterFetch_shape (outcome : Route.FetchResult) :
  (exists e, Route.afterFetch outcome = Route.mkNextResponse (Route.ErrorBody e) 504 /\
             (forall r, outcome = Route.Resolved r -> ~ readable r)) \/
  (exists r v, outcome = Route.Resolved r /\ readable r /\ Route.ok r = false /\
               Route.afterFetch outcome
               = Route.mkNextResponse
                   (Route.RemoteErrorBody "IndiaMART API returned an error."
                      (Route.remoteStatus r) v) 502) \/
  (exists r v, outcome = Route.Resolved r /\ readable r /\ Route.ok r = true /\
               Route.afterFetch outcome = Route.mkNextResponse (Route.SuccessBody v) 200).
Proof.
  destruct outcome as [thrown|r].
  - left. eexists. split; [reflexivity | discriminate].
  - unfold Route.afterFetch. rewrite isJson_declaresJson.
    destruct (declaresJson r) eqn:Hj.
    + destruct (Route.jsonBody r) as [thrown|v] eqn:Hb.
      * left. eexists. split; [reflexivity|].
        intros r' Hr' Hread. injection Hr' as <-.
        unfold readable in Hread. rewrite Hj in Hread.
        destruct Hread as [v Hv]. congruence.
      * assert (Hread : readable r) by (unfold readable; rewrite Hj; eauto).
        destruct (Route.ok r) eqn:Hok; cbn [negb].
        -- right. right. exists r. eexists. eauto.
        -- right. left. exists r. eexists. eauto.
    + destruct (Route.textBody r) as [thrown|v] eqn:Hb.
      * left. eexists. split; [reflexivity|].
        intros r' Hr' Hread. injection Hr' as <-.
        unfold readable in Hread. rewrite Hj in Hread.
        destruct Hread as [v Hv]. congruence.
      * assert (Hread : readable r) by (unfold readable; rewrite Hj; eauto).
        destruct (Route.ok r) eqn:Hok; cbn [negb].
        -- right. right. exists r. eexists. eauto.
        -- right. left. exists r. eexists. eauto.
Qed.

(** X12.  What the route answers once the remote call has been made: 200
    exactly when the marketplace answered ok with a body that can be read,
    502 (carrying the status of the marketplace) exactly when it answered
    not ok with a body that can be read, and 504 otherwise: the call
    failed, or reading the body failed (as JSON when the answer is declared
    to be JSON, as text otherwise). *)
Theorem afterFetch_reports_remote_outcome (outcome : Route.FetchResult) :
  (Route.status (Route.afterFetch outcome) = 200 <->
     exists r, outcome = Route.Resolved r /\ Route.ok r = true /\ readable r) /\
  (Route.status (Route.afterFetch outcome) = 502 <->
     exists r, outcome = Route.Resolved r /\ Route.ok r = false /\ readable r) /\
  (Route.status (Route.afterFetch outcome) = 504 <->
     forall r, outcome = Route.Resolved r -> ~ readable r) /\
  (forall r, outcome = Route.Resolved r -> Route.ok r = false -> readable r ->
     exists v, Route.body (Route.afterFetch outcome)
               = Route.RemoteErrorBody "IndiaMART API returned an error."
                   (Route.remoteStatus r) v).
Proof.
  destruct (afterFetch_shape outcome)
    as [(e & He & Hno) | [(r & v & Hr & Hread & Hok & He) | (r & v & Hr & Hread & Hok & He)]];
    rewrite He; cbn [Route.status Route.body].
  - split; [|split; [|split]].
    + split; [discriminate|]. intros (r & Hr & _ & Hread). now elim (Hno r Hr).
    + split; [discriminate|]. intros (r & Hr & _ & Hread). now elim (Hno r Hr).
    + split; [intros _; exact Hno | reflexivity].
    + intros r Hr _ Hread. now elim (Hno r Hr).
  - split; [|split; [|split]].
    + split; [discriminate|]. intros (r' & Hr' & Hok' & _). congruence.
    + split; [|reflexivity]. intros _. exists r. auto.
    + split; [discriminate|]. intros Hno. now elim (Hno r Hr).
    + intros r' Hr' _ _. exists v. congruence.
  - split; [|split; [|split]].
    + split; [|reflexivity]. intros _. exists r. auto.
    + split; [discriminate|]. intros (r' & Hr' & Hok' & _). congruence.
    + split; [discriminate|]. intros Hno. now elim (Hno r Hr).
    + intros r' Hr' Hok' _. congruence.
Qed.

(** The shapes of a reply of [POST] and the remote calls behind each. *)
Lemma POST_shape (request : option Route.RequestBody) :
  (exists e, Route.POST fetch request = (Route.mkNextResponse (Route.ErrorBody e) 400, [])) \/
  (exists w, Route.POST fetch request = (Route.mkNextResponse (Route.SimulatedBody w) 200, [])) \/
  (exists call,
     Route.POST fetch request = (Route.afterFetch (fetch call), [call]) /\
     Route.method call = "POST" /\
     Route.authtoken call <> EmptyString).
Proof.
  unfold Route.POST.
  destruct request as [rq|]; [|left; eauto].
  destruct (Route.product rq) as [p|]; [|left; eauto].
  destruct (negb _); [left; eauto|].
  cbv zeta. cbn [Route.mode Route.apiKey Route.sellerId Route.baseUrl].
  destruct (Route.nullish _ Route.simulate); [right; left; eauto|].
  destruct (Route.falsy (Route.trimmedField (Route.settings rq) Route.apiKey)) eqn:Hk;
    [left; eauto|].
  destruct (Route.falsy (Route.trimmedField (Route.settings rq) Route.sellerId));
    [left; eauto|].
  right. right. eexists. split; [reflexivity|]. split; [reflexivity|].
  cbn [Route.authtoken].
  destruct (Route.trimmedField (Route.settings rq) Route.apiKey) as [k|]; [|discriminate].
  cbn [Route.falsy Route.nullish] in *. unfold Js.truthy in Hk.
  rewrite negb_involutive in Hk. now apply String.eqb_neq.
Qed.

(** X13.  For a request whose body is not JSON at all, or is a JSON object
    whose fields have the declared types (the requests [Route.POST]
    models): [POST] never calls the marketplace twice, never calls it
    without an authentication token, and never calls it for a request that
    it answers with 400 or with a simulated payload; the status of its
    reply is then one of 200, 400, 502 and 504. *)
Theorem POST_calls_at_most_once (request : option Route.RequestBody) :
  let reply := fst (Route.POST fetch request) in
  let calls := snd (Route.POST fetch request) in
  (calls = [] /\
   ((Route.status reply = 400 /\ exists e, Route.body reply = Route.ErrorBody e) \/
    (Route.status reply = 200 /\ exists w, Route.body reply = Route.SimulatedBody w))) \/
  (exists call,
     calls = [call] /\
     reply = Route.afterFetch (fetch call) /\
     Route.method call = "POST" /\
     Route.authtoken call <> EmptyString /\
     (Route.status reply = 200 \/ Route.status reply = 502 \/ Route.status reply = 504)).
Proof.
  cbv zeta.
  destruct (POST_shape request) as [(e & ->) | [(w & ->) | (call & -> & Hm & Hk)]];
    cbn [fst snd Route.status Route.body].
  - left. split; [reflexivity|]. left. eauto.
  - left. split; [reflexivity|]. right. eauto.
  - right. exists call. repeat (split; [assumption || reflexivity|]).
    destruct (afterFetch_shape (fetch call))
      as [(e & -> & _) | [(r & v & _ & _ & _ & ->) | (r & v & _ & _ & _ & ->)]];
      cbn [Route.status]; auto.
Qed.

(** X14.  The console and the route agree on what a failure is: the console
    takes a reply for a success exactly when its status is 200, and for
    every other reply the message it logs is the error text of the route,
    never its own fallback text. *)
Theorem console_reads_route_reply (request : option Route.RequestBody) :
  let reply := fst (Route.POST fetch request) in
  (Route.status reply = 200 -> thrownMessage (ofResponse reply) = None) /\
  (Route.status reply <> 200 ->
     exists e, errorText (Route.body reply) = Some e /\
               thrownMessage (ofResponse reply) = Some e).
Proof.
  cbv zeta.
  destruct (POST_shape request) as [(e & ->) | [(w & ->) | (call & -> & _)]];
    cbn [fst].
  - split; [discriminate|]. intros _. exists e. split; reflexivity.
  - split; [reflexivity|]. intros H. now elim H.
  - destruct (afterFetch_shape (fetch call))
      as [(e & -> & _) | [(r & v & _ & _ & _ & ->) | (r & v & _ & _ & _ & ->)]].
    + split; [discriminate|]. intros _. exists e. split; reflexivity.
    + split; [discriminate|]. intros _. eexists. split; reflexivity.
    + split; [reflexivity|]. intros H. now elim H.
Qed.

(** X15.  A request that says nothing about the mode, or that carries no
    settings at all, is simulated: with the required fields there it is
    answered 200 with the payload, and the marketplace is not called. *)
Theorem request_without_mode_is_simulated (rq : Route.RequestBody)
  (p : Route.ProductPayload) :
  Route.product rq = Some p ->
  present (Route.title p) ->
  present (Route.description p) ->
  present (Route.shortDescription p) ->
  (Route.settings rq = None \/
   exists st, Route.settings rq = Some st /\ Route.mode st = None) ->
  exists w,
    Route.POST fetch (Some rq) = (Route.mkNextResponse (Route.SimulatedBody w) 200, []) /\
    Route.PRODUCT_NAME w = Route.title p /\
    (Route.settings rq = None -> Route.SELLER_ID w = EmptyString).
Proof.
  intros Hp Ht Hd Hs Hmode.
  rewrite (POST_product fetch rq p Hp). cbv zeta.
  rewrite (no_missing_fields p Ht Hd Hs). cbn [List.length Nat.eqb negb Route.mode].
  assert (Hsim : Route.nullish (match Route.settings rq with
                                | Some s => Route.mode s
                                | None => None
                                end) Route.simulate = Route.simulate).
  { destruct Hmode as [-> | (st & -> & ->)]; reflexivity. }
  rewrite Hsim. eexists. split; [reflexivity|].
  split; [reflexivity|]. intros ->. reflexivity.
Qed.

(** The record the route receives for a draft: every field is there. *)
Lemma consoleReply_product (st : AgentSettings) (d : ProductDraft) :
  Route.product (requestBody st (normalizeProduct d))
  = Some (Route.mkProductPayload
            (Some (title d)) (Some (category d)) (Some (price d)) (Some (currency d))
            (Some (unit d)) (Some (stock d)) (Some (minOrderQty d))
            (Some (explode Js.comma (keywords d))) (Some (explode Js.LF (imageUrls d)))
            (Some (shortDescription d)) (Some (description d))
            (Some (explode Js.LF (features d))) (Some (packaging d))
            (Some (leadTime d))).
Proof. reflexivity. Qed.

Lemma consoleReply_simulated (st : AgentSettings) (d : ProductDraft) :
  mode st = simulate ->
  title d <> EmptyString ->
  description d <> EmptyString ->
  shortDescription d <> EmptyString ->
  consoleReply fetch st d = ApiReplied true None (Some "simulated").
Proof.
  intros Hmode Ht Hd Hs. unfold consoleReply.
  rewrite (POST_product fetch _ _ (consoleReply_product st d)).
  cbv zeta. unfold Route.MINIMUM_FIELDS, Route.isMissing.
  cbn [filter Route.fieldValue Route.title Route.description Route.shortDescription].
  apply String.eqb_neq in Ht, Hd, Hs. rewrite Ht, Hd, Hs.
  cbn [List.length Nat.eqb negb requestBody Route.settings Route.mode Route.nullish].
  rewrite Hmode. reflexivity.
Qed.

Lemma consoleReply_refused (st : AgentSettings) (d : ProductDraft) :
  title d = EmptyString \/ description d = EmptyString \/
  shortDescription d = EmptyString ->
  exists missing,
    missing <> [] /\
    missing
    = ((if String.eqb (title d) EmptyString then [Route.k_title] else [])
       ++ (if String.eqb (description d) EmptyString then [Route.k_description] else [])
       ++ (if String.eqb (shortDescription d) EmptyString
           then [Route.k_shortDescription] else []))%list /\
    thrownMessage (consoleReply fetch st d)
    = Some ("Missing required product fields: "
            ++ Js.join ", " (map Route.fieldName missing)).
Proof.
  intros Hempty. unfold consoleReply.
  rewrite (POST_product fetch _ _ (consoleReply_product st d)).
  cbv zeta. unfold Route.MINIMUM_FIELDS, Route.isMissing.
  cbn [filter Route.fieldValue Route.title Route.description Route.shortDescription].
  eexists. split; [|split; [reflexivity|]].
  - destruct Hempty as [-> | [-> | ->]]; cbn [String.eqb].
    + discriminate.
    + destruct (String.eqb (title d) EmptyString); discriminate.
    + destruct (String.eqb (title d) EmptyString);
        destruct (String.eqb (description d) EmptyString); discriminate.
  - destruct (String.eqb (title d) EmptyString) eqn:E1;
      destruct (String.eqb (description d) EmptyString) eqn:E2;
      destruct (String.eqb (shortDescription d) EmptyString) eqn:E3;
      try reflexivity.
    exfalso. apply String.eqb_neq in E1, E2, E3.
    destruct Hempty as [H | [H | H]]; congruence.
Qed.

(** X16.  The route asks for more than the form does.  Whatever the mode, the
    request the console sends for a draft whose title, description or
    short description is empty is refused with the list of the missing
    fields, so a draft that the form accepts because it has a title fails
    when it is dispatched unless the two descriptions are filled in too.
    In simulation mode a draft with the three fields filled in succeeds. *)
Theorem route_requires_more_than_the_form (st : AgentSettings) (d : ProductDraft) :
  (title d = EmptyString \/ description d = EmptyString \/
   shortDescription d = EmptyString ->
     exists message,
       thrownMessage (consoleReply fetch st d) = Some message /\
       String.prefix "Missing required product fields: " message = true /\
       (description d = EmptyString -> Js.includes "description" message = true) /\
       (shortDescription d = EmptyString ->
          Js.includes "shortDescription" message = true)) /\
  (mode st = simulate ->
   title d <> EmptyString -> description d <> EmptyString ->
   shortDescription d <> EmptyString ->
     consoleReply fetch st d = ApiReplied true None (Some "simulated") /\
     thrownMessage (consoleReply fetch st d) = None).
Proof.
  split.
  - intros Hempty.
    destruct (consoleReply_refused st d Hempty) as (missing & _ & Hm & Hmsg).
    eexists. split; [exact Hmsg|]. split; [apply prefix_append|].
    split.
    + intros Hd. apply includes_append_r.
      apply (includes_join ", " "description").
      change "description" with (Route.fieldName Route.k_description).
      apply in_map. rewrite Hm, Hd. cbn [String.eqb].
      apply in_or_app. right. now left.
    + intros Hs. apply includes_append_r.
      apply (includes_join ", " "shortDescription").
      change "shortDescription" with (Route.fieldName Route.k_shortDescription).
      apply in_map. rewrite Hm, Hs. cbn [String.eqb].
      apply in_or_app. right. apply in_or_app. right. now left.
  - intros Hmode Ht Hd Hs.
    rewrite (consoleReply_simulated st d Hmode Ht Hd Hs). split; reflexivity.
Qed.

(** X17.  Auto-generate makes a draft that has a title fit for the route: in
    simulation mode the request the console sends for the generated draft
    succeeds.  Without a title the generated text starts with the words
    This product, and the route still refuses the draft, for its title
    alone. *)
Theorem generated_copy_passes_the_route (st : AgentSettings) (s : State) :
  (mode st = simulate ->
   title (draft s) <> EmptyString ->
     consoleReply fetch st (draft (autoGenerateDescriptions s))
     = ApiReplied true None (Some "simulated")) /\
  (title (draft s) = EmptyString ->
     thrownMessage (consoleReply fetch st (draft (autoGenerateDescriptions s)))
     = Some "Missing required product fields: title").
Proof.
  destruct (generated_is_filled s) as (Hshort & Hlong & Htitle).
  split.
  - intros Hmode Ht. apply consoleReply_simulated; [exact Hmode | | exact Hlong | exact Hshort].
    now rewrite Htitle.
  - intros Ht.
    destruct (consoleReply_refused st (draft (autoGenerateDescriptions s)))
      as (missing & _ & Hm & Hmsg).
    { left. now rewrite Htitle. }
    rewrite Hmsg, Hm, Htitle, Ht. cbn [String.eqb].
    apply String.eqb_neq in Hshort, Hlong. rewrite Hshort, Hlong. reflexivity.
Qed.

End RouteReplies.

Lemma request_without_mode_is_simulated_witness :
  exists w,
    Route.POST (fun _ => Route.Rejected None)
      (Some (Route.mkRequestBody None
               (Some (Route.mkProductPayload (Some "Wire") None None None None None None
                        None None (Some "short") (Some "long") None None None))))
    = (Route.mkNextResponse (Route.SimulatedBody w) 200, []) /\
    Route.PRODUCT_NAME w = Some "Wire" /\
    Route.SELLER_ID w = EmptyString.
Proof.
  destruct (request_without_mode_is_simulated (fun _ => Route.Rejected None)
              (Route.mkRequestBody None
                 (Some (Route.mkProductPayload (Some "Wire") None None None None None None
                          None None (Some "short") (Some "long") None None None)))
              (Route.mkProductPayload (Some "Wire") None None None None None None
                 None None (Some "short") (Some "long") None None None)
              eq_refl (present_some _ _) (present_some _ _) (present_some _ _)
              (or_introl eq_refl))
    as (w & Hpost & Hname & Hseller).
  exists w. exact (conj Hpost (conj Hname (Hseller eq_refl))).
Defined.

Lemma route_requires_more_than_the_form_witness :
  exists message,
    thrownMessage (consoleReply (fun _ => Route.Rejected None) defaultSettings (titled "Wire"))
    = Some message /\
    String.prefix "Missing required product fields: " message = true.
Proof.
  destruct (route_requires_more_than_the_form (fun _ => Route.Rejected None)
              defaultSettings (titled "Wire")) as [Hrefused _].
  destruct Hrefused as (message & Hm & Hp & _); [right; left; reflexivity|].
  exists message. split; [exact Hm | exact Hp].
Defined.

Lemma generated_copy_passes_the_route_witness :
  consoleReply (fun _ => Route.Rejected None) defaultSettings
    (draft (autoGenerateDescriptions
              (setDraft (fun _ => titled "Wire") (mounted defaultSettings))))
  = ApiReplied true None (Some "simulated").
Proof.
  destruct (generated_copy_passes_the_route (fun _ => Route.Rejected None)
              defaultSettings
              (setDraft (fun _ => titled "Wire") (mounted defaultSettings)))
    as [Hok _].
  apply Hok; [reflexivity | discriminate].
Defined.

Lemma console_reads_route_reply_witness :
  thrownMessage (ofResponse (fst (Route.POST (fun _ => Route.Rejected None) None)))
  = Some "Invalid JSON payload received.".
Proof.
  destruct (console_reads_route_reply (fun _ => Route.Rejected None) None) as [_ H].
  destruct H as (e & He & Hm); [discriminate|].
  rewrite Hm. rewrite <- He. reflexivity.
Defined.

(** ** What the page shows about the runner *)

Section Coherence.

Lemma commit_coherent (h : State) : committable h -> coherent (commit h).
Proof.
  intros [HA HB]. rewrite commit_eq.
  destruct h as [st dr q p a l qr pr ar qd sd idc clk inf snt tm].
  cbn [activeProductId processing queue queueDirty settingsDirty processingRef] in HA, HB.
  unfold commitPass.
  cbn [syncRefs settings draft queue processing activeProductId logs queueRef processingRef
       activeProductRef queueDirty settingsDirty idCounter clock inflight sent timers].
  destruct p.
  - destruct a as [i|].
    + (* an item is active: nothing is dispatched *)
      destruct (HA i eq_refl) as [_ Hhead].
      unfold processNextProduct.
      cbn [syncRefs settings draft queue processing activeProductId logs queueRef
           processingRef activeProductRef queueDirty settingsDirty idCounter clock
           inflight sent timers negb isSome orb andb].
      destruct ((negb (Bool.eqb true pr) || sd) && true);
        destruct (qd || sd);
        cbn [syncRefs settings draft queue processing activeProductId logs queueRef
             processingRef activeProductRef queueDirty settingsDirty idCounter clock
             inflight sent timers negb isSome orb andb];
        (split; [intros i' Hi'; injection Hi' as <-; split; [reflexivity | exact Hhead]
                | intros _ Hn; discriminate]).
    + destruct q as [|item rest].
      * (* nothing queued: the runner may stop *)
        unfold processNextProduct.
        cbn [syncRefs settings draft queue processing activeProductId logs queueRef
             processingRef activeProductRef queueDirty settingsDirty idCounter clock
             inflight sent timers negb isSome orb andb].
        destruct ((negb (Bool.eqb true pr) || sd) && true);
          destruct (qd || sd);
          cbn [syncRefs appendLog bumpId setLogs setProcessing makeId
               settings draft queue processing activeProductId logs queueRef
               processingRef activeProductRef queueDirty settingsDirty idCounter clock
               inflight sent timers negb isSome orb andb List.length Nat.ltb Nat.leb];
          (split; [intros i' Hi'; discriminate | intros _ _; reflexivity]).
      * (* items queued: one of the two effects dispatches the head *)
        assert (Hrun : qd = true \/ sd = true \/ pr = false)
          by (apply HB; [reflexivity | reflexivity | discriminate]).
        unfold processNextProduct.
        cbn [syncRefs settings draft queue processing activeProductId logs queueRef
             processingRef activeProductRef queueDirty settingsDirty idCounter clock
             inflight sent timers negb isSome orb andb].
        destruct pr, sd, qd;
          try (exfalso; destruct Hrun as [H|[H|H]]; discriminate);
          cbn [syncRefs startFetch appendLog bumpId setLogs setActiveProductId makeId
               settings draft queue processing activeProductId logs queueRef
               processingRef activeProductRef queueDirty settingsDirty idCounter clock
               inflight sent timers negb isSome orb andb Bool.eqb
               List.length Nat.ltb Nat.leb];
          (split; [intros i' Hi'; injection Hi' as <-; split; reflexivity
                  | intros _ Hn; discriminate]).
  - (* the runner is off *)
    destruct a as [i|]; [destruct (HA i eq_refl); discriminate|].
    cbn [andb orb negb isSome].
    rewrite andb_false_r.
    destruct (qd || sd);
      cbn [syncRefs settings draft queue processing activeProductId logs queueRef
           processingRef activeProductRef queueDirty settingsDirty idCounter clock
           inflight sent timers negb isSome orb andb];
      (split; [intros i' Hi'; discriminate | intros Hp; discriminate]).
Qed.

Lemma committable_same (s h : State) :
  settled s -> coherent s ->
  processing h = processing s ->
  activeProductId h = activeProductId s ->
  queue h = queue s ->
  committable h.
Proof.
  intros _ [HA HB] Hp Ha Hq. split.
  - intros i Hi. rewrite Hp, Hq. apply HA. now rewrite <- Ha.
  - intros H1 H2 H3. exfalso. apply H3. rewrite Hq. apply HB; congruence.
Qed.

Lemma committable_grown (s h : State) (added : list ProductPayload) :
  coherent s ->
  activeProductId h = activeProductId s ->
  queue h = (queue s ++ added)%list ->
  (processing s = true -> processing h = true) ->
  queueDirty h = true ->
  committable h.
Proof.
  intros [HA _] Ha Hq Hp Hd. split.
  - intros i Hi. rewrite Ha in Hi. destruct (HA i Hi) as [H1 H2].
    split; [now apply Hp|]. rewrite Hq.
    destruct (queue s) as [|item rest]; [discriminate | exact H2].
  - intros _ _ _. now left.
Qed.

Lemma addToQueue_runner (p : ProductDraft) (s : State) :
  activeProductId (addToQueue p s) = activeProductId s /\
  (processing s = true -> processing (addToQueue p s) = true) /\
  queueDirty (addToQueue p s) = true.
Proof. unfold addToQueue. destruct (_ && _); repeat split; auto. Qed.

Lemma rows_runner (f : string -> ProductDraft) (rows : list string) :
  forall s,
    let h := fold_left (fun acc rowLine => addToQueue (f rowLine) acc) rows s in
    activeProductId h = activeProductId s /\
    (processing s = true -> processing h = true) /\
    (exists added, queue h = (queue s ++ added)%list) /\
    (rows <> [] -> queueDirty h = true).
Proof.
  induction rows as [|r rows IH]; intros s; cbn [fold_left].
  - repeat split; auto. exists []. now rewrite app_nil_r.
  - destruct (IH (addToQueue (f r) s)) as (I1 & I2 & (added & I3) & I4).
    destruct (addToQueue_runner (f r) s) as (A1 & A2 & A3).
    cbv zeta in I1, I2, I3, I4.
    split; [congruence|]. split; [auto|]. split.
    + rewrite I3, addToQueue_queue, <- app_assoc. eauto.
    + intros _. destruct rows as [|r' rows']; [exact A3|]. apply I4. discriminate.
Qed.

(** Every handler leaves a state that the commit can put right. *)
Lemma handle_committable (e : Event) (s h : State) :
  settled s -> coherent s -> handle e s = Some h -> committable h.
Proof.
  intros Hs Hc Hh.
  pose proof Hs as (S1 & S2 & S3 & S4 & S5).
  pose proof Hc as (HA & HB).
  destruct e; cbn [handle] in Hh.
  - injection Hh as <-. now apply (committable_same s).
  - injection Hh as <-. now apply (committable_same s).
  - injection Hh as <-. unfold handleAddDraftToQueue.
    destruct (negb _); [now apply (committable_same s)|].
    destruct (addToQueue_runner (draft s) s) as (A1 & A2 & A3).
    apply (committable_grown s _ [mkProductPayload (idCounter s) (clock s) (draft s)]);
      [exact Hc | exact A1 | apply addToQueue_queue | exact A2 | exact A3].
  - injection Hh as <-. now apply (committable_same s).
  - injection Hh as <-. now apply (committable_same s).
  - injection Hh as <-. unfold parseCsvFile.
    destruct (csvLines text) as [|headerLine rows]; [now apply (committable_same s)|].
    destruct (negb _); [now apply (committable_same s)|].
    destruct (rows_runner (rowProduct (csvHeaders headerLine)) rows s)
      as (R1 & R2 & (added & R3) & R4).
    cbv zeta in R1, R2, R3, R4.
    destruct rows as [|r rows'].
    + now apply (committable_same s).
    + apply (committable_grown s _ added); try assumption.
      apply R4. discriminate.
  - injection Hh as <-. unfold runAgent. rewrite S2.
    destruct (processing s) eqn:Hp; [now apply (committable_same s)|].
    destruct (Nat.eqb _ _); [now apply (committable_same s)|].
    split.
    + intros i Hi. cbn [setProcessing activeProductId] in Hi.
      destruct (HA i Hi) as [H _]. congruence.
    + intros _ _ _. right. right. cbn [setProcessing processingRef]. now rewrite S2.
  - injection Hh as <-. split.
    + intros i Hi. discriminate.
    + intros Hp. discriminate.
  - destruct (nth_error (inflight s) k) as [d|]; [|discriminate].
    injection Hh as <-.
    destruct (settleFetch_frame d r (setInflight (removeAt k (inflight s)) s))
      as (_ & _ & _ & _ & _ & _ & F7 & _ & _ & _ & F11 & _).
    cbv zeta in F7, F11. split.
    + intros i Hi. congruence.
    + intros _ _ _. now left.
  - destruct (timers s) as [|st rest]; [discriminate|].
    injection Hh as <-. unfold timerCallback.
    change (processingRef (setTimers rest s)) with (processingRef s). rewrite S2.
    destruct (processing s) eqn:Hp; [|now apply (committable_same s)].
    destruct (activeProductId s) as [i|] eqn:Ha.
    + rewrite (processNextProduct_busy st (setTimers rest s) i) by exact S3.
      apply (committable_same s); [exact Hs | exact Hc | | |];
        cbn [setTimers processing activeProductId queue]; congruence.
    + rewrite (processNextProduct_complete st (setTimers rest s));
        [|exact S2 | exact S3 | exact (eq_trans S1 (HB eq_refl eq_refl))].
      split.
      * intros i Hi. cbn [appendLog bumpId setLogs setProcessing activeProductId setTimers] in Hi.
        congruence.
      * intros H. discriminate.
  - injection Hh as <-. now apply (committable_same s).
Qed.

Lemma step_coherent (e : Event) (s s' : State) :
  settled s -> coherent s -> step e s = Some s' -> coherent s'.
Proof.
  intros Hs Hc Hstep. unfold step in Hstep.
  destruct (handle e s) as [h|] eqn:Hh; [|discriminate].
  injection Hstep as <-. apply commit_coherent.
  now apply (handle_committable e s).
Qed.

Lemma run_coherent (events : list Event) :
  forall s s',
    settled s -> coherent s -> run events s = Some s' ->
    settled s' /\ coherent s'.
Proof.
  induction events as [|e events IH]; intros s s' Hs Hc Hrun; cbn [run] in Hrun.
  - injection Hrun as <-. now split.
  - destruct (step e s) as [s1|] eqn:Hstep; [|discriminate].
    apply (IH s1 s'); [now apply (step_settled e s) | now apply (step_coherent e s) | exact Hrun].
Qed.

Lemma mounted_coherent (st : AgentSettings) : settled (mounted st) /\ coherent (mounted st).
Proof.
  split; [apply syncRefs_settled|]. split.
  - intros i Hi. discriminate.
  - intros Hp. discriminate.
Qed.



(** A timer that fires in a state that hangs together sends nothing. *)
Lemma timerFire_sends_nothing (s s' : State) :
  settled s -> coherent s ->
  step TimerFire s = Some s' ->
  sent s' = sent s /\ inflight s' = inflight s /\ queue s' = queue s /\
  (processing s' = true -> processing s = true) /\
  (processing s = true -> processing s' = false ->
     queue s = [] /\
     logs s' = (logs s ++ [mkLogEntry (idCounter s) success "Queue complete"
                             (Some "All products processed successfully.") (clock s)])%list).
Proof.
  intros Hs [HA HB] Hstep.
  pose proof Hs as (S1 & S2 & S3 & S4 & S5).
  unfold step in Hstep. cbn [handle] in Hstep.
  destruct (timers s) as [|t rest]; [discriminate|].
  cbn [option_map] in Hstep. injection Hstep as <-.
  unfold timerCallback.
  change (processingRef (setTimers rest s)) with (processingRef s). rewrite S2.
  assert (Hx : settled (setTimers rest s)) by exact Hs.
  destruct (processing s) eqn:Hp.
  - destruct (activeProductId s) as [i|] eqn:Ha.
    + rewrite (processNextProduct_busy t (setTimers rest s) i) by exact S3.
      rewrite (commit_fix _ Hx). cbn [setTimers sent inflight queue processing].
      rewrite Hp. repeat split; auto; discriminate.
    + rewrite (processNextProduct_complete t (setTimers rest s));
        [|exact S2 | exact S3 | exact (eq_trans S1 (HB eq_refl eq_refl))].
      rewrite commit_idle by reflexivity.
      repeat split; auto.
  - rewrite (commit_fix _ Hx). cbn [setTimers sent inflight queue processing].
    rewrite Hp. repeat split; auto; discriminate.
Qed.

End Coherence.

Section Quiet.

(** A change of the settings in a state that hangs together sends
    nothing, although it makes both effects run again. *)
Lemma settingsChange_sends_nothing (u : SettingsUpdate) (s s' : State) :
  settled s -> coherent s ->
  step (SettingsChange u) s = Some s' ->
  sent s' = sent s /\ inflight s' = inflight s /\ queue s' = queue s /\
  (processing s' = true -> processing s = true) /\
  (processing s = true -> processing s' = false ->
     queue s = [] /\
     logs s' = (logs s ++ [mkLogEntry (idCounter s) success "Queue complete"
                             (Some "All products processed successfully.") (clock s)])%list).
Proof.
  intros Hs [HA HB] Hstep.
  unfold step in Hstep. cbn [handle option_map] in Hstep. injection Hstep as <-.
  rewrite commit_eq.
  destruct s as [st dr q p a l qr pr ar qd sd idc clk inf snt tm].
  unfold settled in Hs.
  cbn [settings draft queue processing activeProductId logs queueRef processingRef
       activeProductRef queueDirty settingsDirty idCounter clock inflight sent timers]
    in Hs, HA, HB.
  destruct Hs as (-> & -> & -> & -> & ->).
  unfold commitPass, setSettings.
  cbn [syncRefs settings draft queue processing activeProductId logs queueRef processingRef
       activeProductRef queueDirty settingsDirty idCounter clock inflight sent timers].
  rewrite Bool.eqb_reflx. cbn [negb orb].
  destruct p.
  - destruct a as [i|].
    + unfold processNextProduct.
      cbn [syncRefs settings draft queue processing activeProductId logs queueRef
           processingRef activeProductRef queueDirty settingsDirty idCounter clock
           inflight sent timers negb isSome orb andb].
      repeat split; auto; discriminate.
    + rewrite (HB eq_refl eq_refl).
      unfold processNextProduct.
      cbn [syncRefs appendLog bumpId setLogs setProcessing makeId
           settings draft queue processing activeProductId logs queueRef
           processingRef activeProductRef queueDirty settingsDirty idCounter clock
           inflight sent timers negb isSome orb andb List.length Nat.ltb Nat.leb].
      repeat split; auto.
  - cbn [andb negb orb isSome
         syncRefs settings draft queue processing activeProductId logs queueRef
         processingRef activeProductRef queueDirty settingsDirty idCounter clock
         inflight sent timers].
    repeat split; auto; discriminate.
Qed.

(** X19.  Only three things ever send a request: the start button, an attempt
    to enqueue, and a request that settles.  Whatever has happened since
    the page was mounted, every other event (typing in the form, reset,
    auto-generate, a change of the settings, pause, a timer, time passing)
    sends nothing, cancels nothing and leaves the queue as it is.  In
    particular the timer armed after each request never dispatches the
    next item: all that a timer or a change of the settings can do to the
    runner is stop it, when it is on with an empty queue, logging that the
    queue is complete. *)
Theorem only_start_enqueue_and_settle_send (st : AgentSettings) (events : list Event)
  (e : Event) (s s' : State) :
  run events (mounted st) = Some s ->
  quietEvent e = true ->
  step e s = Some s' ->
  sent s' = sent s /\ inflight s' = inflight s /\ queue s' = queue s /\
  (processing s' = true -> processing s = true) /\
  (processing s = true -> processing s' = false -> e <> StopAgent ->
     queue s = [] /\
     logs s' = (logs s ++ [mkLogEntry (idCounter s) success "Queue complete"
                             (Some "All products processed successfully.") (clock s)])%list).
Proof.
  intros Hrun Hquiet Hstep.
  destruct (mounted_coherent st) as [Hs0 Hc0].
  destruct (run_coherent events (mounted st) s Hs0 Hc0 Hrun) as [Hs Hc].
  assert (Hsame : forall h, settled h ->
                    sent h = sent s -> inflight h = inflight s -> queue h = queue s ->
                    processing h = processing s ->
                    step e s = Some (commit h) ->
                    sent s' = sent s /\ inflight s' = inflight s /\ queue s' = queue s /\
                    (processing s' = true -> processing s = true) /\
                    (processing s = true -> processing s' = false -> e <> StopAgent ->
                       queue s = [] /\
                       logs s' = (logs s ++ [mkLogEntry (idCounter s) success "Queue complete"
                                               (Some "All products processed successfully.")
                                               (clock s)])%list)).
  { intros h Hh H1 H2 H3 H4 Hst. rewrite Hst in Hstep. injection Hstep as <-.
    rewrite (commit_fix h Hh).
    split; [exact H1|]. split; [exact H2|]. split; [exact H3|].
    split; [intros H; now rewrite <- H4|].
    intros Hp Hp'. congruence. }
  destruct e; try discriminate.
  - apply (Hsame (handleDraftChange key value s)); try reflexivity. exact Hs.
  - apply (Hsame (resetDraft s)); try reflexivity. exact Hs.
  - apply (Hsame (autoGenerateDescriptions s)); try reflexivity. exact Hs.
  - destruct (settingsChange_sends_nothing u s s' Hs Hc Hstep) as (H1 & H2 & H3 & H4 & H5).
    repeat (split; [assumption|]). intros Hp Hp' _. now apply H5.
  - unfold step in Hstep. cbn [handle option_map] in Hstep.
    rewrite commit_idle in Hstep by reflexivity. injection Hstep as <-.
    split; [reflexivity|]. split; [reflexivity|]. split; [reflexivity|].
    split; [discriminate|]. intros _ _ H. now elim H.
  - destruct (timerFire_sends_nothing s s' Hs Hc Hstep) as (H1 & H2 & H3 & H4 & H5).
    repeat (split; [assumption|]). intros Hp Hp' _. now apply H5.
  - apply (Hsame (advanceClock ms s)); try reflexivity. exact Hs.
Qed.

Lemma only_start_enqueue_and_settle_send_witness :
  let events := (enqueue (titled "Wire") ++ [RunAgent; FetchDone 0 replyOk])%list in
  let s := afterEvents events (mounted manualStart) in
  let s' := afterEvents [TimerFire] s in
  sent s' = sent s /\ processing s = true /\ processing s' = false.
Proof.
  destruct (only_start_enqueue_and_settle_send manualStart
              (enqueue (titled "Wire") ++ [RunAgent; FetchDone 0 replyOk])%list
              TimerFire
              (afterEvents (enqueue (titled "Wire") ++ [RunAgent; FetchDone 0 replyOk])%list
                           (mounted manualStart))
              (afterEvents [TimerFire]
                 (afterEvents (enqueue (titled "Wire") ++ [RunAgent; FetchDone 0 replyOk])%list
                              (mounted manualStart))))
    as (Hsent & _).
  - vm_compute. reflexivity.
  - reflexivity.
  - vm_compute. reflexivity.
  - split; [exact Hsent|]. split; vm_compute; reflexivity.
Defined.

End Quiet.

(** ** When a request is sent *)

Section Dispatching.

Ltac fields :=
  cbn [syncRefs startFetch appendLog bumpId setLogs setActiveProductId setProcessing
       setTimers setInflight setQueue setDraft resetDraft advanceClock makeId
       settings draft queue processing activeProductId logs queueRef processingRef
       activeProductRef queueDirty settingsDirty idCounter clock inflight sent timers].

(** The start button while it is enabled. *)
Lemma step_runAgent (s : State) (item : ProductPayload) (rest : list ProductPayload) :
  settled s ->
  processing s = false ->
  activeProductId s = None ->
  queue s = item :: rest ->
  step RunAgent s
  = Some (syncRefs
            (startFetch (mkDispatch item (settings s))
               (appendLog info
                  ("Processing: " ++ Js.orElse (title (payload item)) "Untitled product")
                  (Some ("Attempting IndiaMART sync in " ++ modeWord (mode (settings s))
                         ++ " mode."))
                  (setActiveProductId (Some (id item)) (setProcessing true s))))).
Proof.
  intros Hs Hp Ha Hq.
  destruct s as [st dr q p a l qr pr ar qd sd idc clk inf snt tm].
  unfold settled in Hs.
  cbn [settings draft queue processing activeProductId logs queueRef processingRef
       activeProductRef queueDirty settingsDirty idCounter clock inflight sent timers]
    in Hs, Hp, Ha, Hq.
  destruct Hs as (-> & -> & -> & -> & ->). subst p a q.
  reflexivity.
Qed.

(** X20.  The start button, when a click gets through.  While the button is
    enabled (the runner is off and the queue is not empty) a click turns
    the runner on and the head of the queue is dispatched at once, with
    one request; while it is disabled a click sends nothing and leaves the
    runner and the queue as they are. *)
Theorem start_button_dispatches_head (s : State) :
  settled s ->
  activeProductId s = None ->
  (startDisabled s = false ->
     exists item rest s',
       queue s = item :: rest /\
       step RunAgent s = Some s' /\
       processing s' = true /\
       activeProductId s' = Some (id item) /\
       queue s' = queue s /\
       sent s' = (sent s ++ [mkDispatch item (settings s)])%list /\
       inflight s' = (inflight s ++ [mkDispatch item (settings s)])%list /\
       logs s' = (logs s ++ [processingEntry (settings s) item s])%list) /\
  (startDisabled s = true ->
     exists s',
       step RunAgent s = Some s' /\
       processing s' = processing s /\
       queue s' = queue s /\
       sent s' = sent s /\
       inflight s' = inflight s).
Proof.
  intros Hs Ha. unfold startDisabled. split.
  - intros Hd. apply orb_false_iff in Hd as [Hp Hq].
    destruct (queue s) as [|item rest] eqn:Eq; [discriminate|].
    exists item, rest. eexists. split; [reflexivity|].
    split; [exact (step_runAgent s item rest Hs Hp Ha Eq)|].
    fields. rewrite Eq. repeat split.
  - intros Hd.
    pose proof Hs as (S1 & S2 & S3 & S4 & S5).
    unfold step. cbn [handle option_map]. unfold runAgent. rewrite S2, S1.
    destruct (processing s) eqn:Hp.
    + rewrite (commit_fix s Hs). eexists. split; [reflexivity|]. now repeat split.
    + cbn [orb] in Hd. rewrite Hd.
      rewrite commit_idle by exact Hp.
      eexists. split; [reflexivity|]. now repeat split.
Qed.

Lemma start_button_dispatches_head_witness :
  let s := afterEvents (enqueue (titled "Wire") ++ enqueue (titled "Bolt"))%list
                       (mounted manualStart) in
  exists item rest s',
    queue s = item :: rest /\
    step RunAgent s = Some s' /\
    sent s' = [mkDispatch item manualStart].
Proof.
  destruct (start_button_dispatches_head
              (afterEvents (enqueue (titled "Wire") ++ enqueue (titled "Bolt"))%list
                           (mounted manualStart)))
    as [Henabled _].
  - vm_compute. repeat split.
  - vm_compute. reflexivity.
  - destruct Henabled as (item & rest & s' & Hq & Hstep & _ & _ & _ & Hsent & _).
    + vm_compute. reflexivity.
    + exists item, rest, s'. split; [exact Hq|]. split; [exact Hstep|].
      rewrite Hsent. reflexivity.
Defined.

(** X21.  Pause, then start, while the head of the queue is still queued (its
    request is pending, say): the request is not cancelled, the item is
    not taken off the queue, and the start sends a second request for it. *)
Theorem stop_then_start_sends_head_again (s : State) (item : ProductPayload)
  (rest : list ProductPayload) :
  settled s ->
  queue s = item :: rest ->
  exists s',
    run [StopAgent; RunAgent] s = Some s' /\
    processing s' = true /\
    activeProductId s' = Some (id item) /\
    queue s' = queue s /\
    sent s' = (sent s ++ [mkDispatch item (settings s)])%list /\
    inflight s' = (inflight s ++ [mkDispatch item (settings s)])%list.
Proof.
  intros Hs Hq.
  assert (Hstop : step StopAgent s = Some (syncRefs (stopAgent s))).
  { unfold step. cbn [handle option_map]. now rewrite commit_idle. }
  cbn [run]. rewrite Hstop.
  rewrite (step_runAgent (syncRefs (stopAgent s)) item rest
             (syncRefs_settled _) eq_refl eq_refl Hq).
  eexists. split; [reflexivity|].
  unfold stopAgent. fields. rewrite Hq. repeat split.
Qed.

Lemma stop_then_start_sends_head_again_witness :
  let s := afterEvents (enqueue (titled "Wire") ++ [RunAgent])%list (mounted manualStart) in
  exists s',
    run [StopAgent; RunAgent] s = Some s' /\
    sentTitles s = ["Wire"] /\
    sentTitles s' = ["Wire"; "Wire"] /\
    List.length (inflight s') = 2.
Proof.
  destruct (stop_then_start_sends_head_again
              (afterEvents (enqueue (titled "Wire") ++ [RunAgent])%list (mounted manualStart))
              (mkProductPayload 0 0 (titled "Wire")) [])
    as (s' & Hrun & _ & _ & _ & Hsent & Hfl).
  - vm_compute. repeat split.
  - vm_compute. reflexivity.
  - exists s'. split; [exact Hrun|]. split; [vm_compute; reflexivity|].
    unfold sentTitles. rewrite Hsent, Hfl. split; vm_compute; reflexivity.
Defined.

(** The commit after a handler has turned the runner on and changed the
    queue: both effects run, and each of them dispatches the head. *)
Lemma commit_turned_on_with_new_queue (h : State) (item : ProductPayload)
  (rest : list ProductPayload) :
  processing h = true ->
  processingRef h = false ->
  queueDirty h = true ->
  activeProductId h = None ->
  queue h = item :: rest ->
  queue (commit h) = item :: rest /\
  processing (commit h) = true /\
  activeProductId (commit h) = Some (id item) /\
  sent (commit h)
  = (sent h ++ [mkDispatch item (settings h); mkDispatch item (settings h)])%list /\
  inflight (commit h)
  = (inflight h ++ [mkDispatch item (settings h); mkDispatch item (settings h)])%list.
Proof.
  intros Hp Hr Hd Ha Hq. rewrite commit_eq.
  destruct h as [st dr q p a l qr pr ar qd sd idc clk inf snt tm].
  cbn [settings draft queue processing activeProductId logs queueRef processingRef
       activeProductRef queueDirty settingsDirty idCounter clock inflight sent timers]
    in Hp, Hr, Hd, Ha, Hq.
  subst p pr qd a q.
  unfold commitPass, processNextProduct. fields.
  cbn [Bool.eqb negb orb andb isSome List.length Nat.ltb Nat.leb]. fields.
  cbn [negb orb andb isSome List.length Nat.ltb Nat.leb]. fields.
  rewrite <- !app_assoc. repeat split.
Qed.

(** X3.  With auto start on, enqueuing through the form while the runner is off
    turns the runner on and sends two requests for the head of the queue
    in the same commit: the effect on [processing] dispatches it, and the
    effect on [queue] dispatches it again, because [activeProductRef] is
    only brought up to date by the next render. *)
Theorem autoStart_enqueue_sends_head_twice (s : State) (first : ProductPayload)
  (rest : list ProductPayload) :
  settled s ->
  processing s = false ->
  activeProductId s = None ->
  autoStart (settings s) = true ->
  title (draft s) <> EmptyString ->
  (queue s ++ [mkProductPayload (idCounter s) (clock s) (draft s)])%list = first :: rest ->
  exists s',
    step SubmitDraft s = Some s' /\
    queue s' = first :: rest /\
    processing s' = true /\
    activeProductId s' = Some (id first) /\
    sent s'
    = (sent s ++ [mkDispatch first (settings s); mkDispatch first (settings s)])%list /\
    inflight s'
    = (inflight s ++ [mkDispatch first (settings s); mkDispatch first (settings s)])%list.
Proof.
  intros Hs Hp Ha Hauto Htitle Hq.
  pose proof Hs as (S1 & S2 & S3 & S4 & S5).
  assert (Ht : Js.truthy (title (draft s)) = true)
    by (unfold Js.truthy; apply negb_true_iff, String.eqb_neq; exact Htitle).
  assert (Hh : handleAddDraftToQueue s
               = resetDraft
                   (setProcessing true
                      (appendLog info
                         ("Product queued: " ++ Js.orElse (title (draft s)) "Untitled")
                         (Some "Added to automation queue")
                         (setQueue
                            (fun prev =>
                               (prev ++ [mkProductPayload (idCounter s) (clock s) (draft s)])%list)
                            (bumpId s))))).
  { unfold handleAddDraftToQueue. rewrite Ht. cbn [negb]. unfold addToQueue.
    rewrite Hauto.
    change (processingRef (appendLog ?a ?b ?c (setQueue ?f (bumpId s))))
      with (processingRef s).
    rewrite S2, Hp. reflexivity. }
  unfold step. cbn [handle option_map]. rewrite Hh.
  set (h := resetDraft _).
  destruct (commit_turned_on_with_new_queue h first rest) as (C1 & C2 & C3 & C4 & C5).
  - reflexivity.
  - exact (eq_trans S2 Hp).
  - reflexivity.
  - exact Ha.
  - exact Hq.
  - exists (commit h). split; [reflexivity|].
    split; [exact C1|]. split; [exact C2|]. split; [exact C3|].
    split; [exact C4 | exact C5].
Qed.

Lemma autoStart_enqueue_sends_head_twice_witness :
  let s := setDraft (fun _ => titled "Wire") (mounted defaultSettings) in
  exists s',
    step SubmitDraft s = Some s' /\
    sentTitles s' = ["Wire"; "Wire"] /\
    List.length (inflight s') = 2 /\
    List.length (queue s') = 1.
Proof.
  destruct (autoStart_enqueue_sends_head_twice
              (setDraft (fun _ => titled "Wire") (mounted defaultSettings))
              (mkProductPayload 0 0 (titled "Wire")) [])
    as (s' & Hstep & Hq & _ & _ & Hsent & Hfl).
  - repeat split.
  - reflexivity.
  - reflexivity.
  - reflexivity.
  - discriminate.
  - reflexivity.
  - exists s'. split; [exact Hstep|].
    unfold sentTitles. rewrite Hsent, Hfl, Hq. repeat split.
Defined.

(** X22.  A request settles for an item that is not the head of the queue (a
    duplicate, left over from a pause or from the double dispatch) while
    the runner is on: the active marker is cleared all the same, and the
    commit dispatches the head of the queue, whether or not a request for
    it is pending already. *)
Theorem stale_settle_dispatches_head_again (s : State) (k : nat) (d : Dispatch)
  (r : ApiResult) (item : ProductPayload) (rest : list ProductPayload) :
  settled s ->
  processing s = true ->
  nth_error (inflight s) k = Some d ->
  queue s = item :: rest ->
  id (next d) <> id item ->
  exists s',
    step (FetchDone k r) s = Some s' /\
    hd_error (queue s') = Some item /\
    activeProductId s' = Some (id item) /\
    sent s' = (sent s ++ [mkDispatch item (settings s)])%list /\
    inflight s' = (removeAt k (inflight s) ++ [mkDispatch item (settings s)])%list.
Proof.
  intros Hs Hp Hk Hq Hid.
  rewrite (step_fetchDone s k d r Hk), (commit_settledRequest s k d r Hs).
  destruct (settledRequest_frame s k d r)
    as (H1 & H2 & H3 & H4 & H5 & H7 & H8 & H10 & H11 & H12 & H9 & Hlogs).
  assert (Hhead : queue (settledRequest s k d r)
                  = item :: filter (fun x => negb (Nat.eqb (id x) (id (next d)))) rest).
  { rewrite H8, Hq. cbn [filter].
    replace (Nat.eqb (id item) (id (next d))) with false; [reflexivity|].
    symmetry. apply Nat.eqb_neq. congruence. }
  set (h := settledRequest s k d r) in *. clearbody h.
  rewrite Hp, Hhead. cbn [andb List.length Nat.ltb Nat.leb].
  rewrite (processNextProduct_dispatch (settings s) (syncRefs h) item
             (filter (fun x => negb (Nat.eqb (id x) (id (next d)))) rest));
    [| exact (eq_trans H1 Hp) | exact H7 | exact Hhead].
  eexists. split; [reflexivity|]. fields.
  rewrite Hhead, H3, H4. repeat split.
Qed.

Lemma stale_settle_dispatches_head_again_witness :
  let s := afterEvents (enqueue (titled "Wire") ++ enqueue (titled "Bolt")
                        ++ [FetchDone 0 replyOk])%list
                       (mounted defaultSettings) in
  exists s',
    step (FetchDone 0 replyOk) s = Some s' /\
    sentTitles s = ["Wire"; "Wire"; "Bolt"] /\
    sentTitles s' = ["Wire"; "Wire"; "Bolt"; "Bolt"].
Proof.
  destruct (stale_settle_dispatches_head_again
              (afterEvents (enqueue (titled "Wire") ++ enqueue (titled "Bolt")
                            ++ [FetchDone 0 replyOk])%list
                           (mounted defaultSettings))
              0 (mkDispatch (mkProductPayload 0 0 (titled "Wire")) defaultSettings)
              replyOk (mkProductPayload 4 0 (titled "Bolt")) [])
    as (s' & Hstep & _ & _ & Hsent & _).
  - vm_compute. repeat split.
  - vm_compute. reflexivity.
  - vm_compute. reflexivity.
  - vm_compute. reflexivity.
  - vm_compute. discriminate.
  - exists s'. split; [exact Hstep|]. split; [vm_compute; reflexivity|].
    unfold sentTitles. rewrite Hsent. vm_compute. reflexivity.
Defined.

End Dispatching.

(** ** The order in which items are sent *)

Section Order.

Ltac fields :=
  cbn [syncRefs startFetch appendLog bumpId setLogs setActiveProductId setProcessing
       setTimers setInflight setQueue setDraft resetDraft advanceClock makeId
       settings draft queue processing activeProductId logs queueRef processingRef
       activeProductRef queueDirty settingsDirty idCounter clock inflight sent timers].

Lemma draining_coherent (total outcomes : nat) (s : State) :
  draining total outcomes s -> settled s /\ coherent s.
Proof.
  intros (Hs & _ & _ & Hact & Hidle & _). split; [exact Hs|]. split.
  - intros i Hi. rewrite Hact in Hi. split; [|exact Hi].
    destruct (processing s); [reflexivity|].
    rewrite (Hidle eq_refl) in Hi. discriminate.
  - intros _ Ha. rewrite Hact in Ha. destruct (queue s); [reflexivity | discriminate].
Qed.

(** While the queue drains, the drafts sent so far followed by the drafts
    behind the head of the queue stay the same list. *)
Lemma fetchDone_order (total outcomes : nat) (s s' : State) (k : nat) (r : ApiResult) :
  draining total outcomes s ->
  step (FetchDone k r) s = Some s' ->
  (sentDrafts s' ++ map payload (tl (queue s')))%list
  = (sentDrafts s ++ map payload (tl (queue s)))%list.
Proof.
  intros Hd Hstep.
  pose proof (draining_inflight _ _ _ Hd) as Hfl.
  destruct (queue s) as [|item rest] eqn:Hq.
  - unfold step in Hstep. cbn [handle] in Hstep. rewrite Hfl in Hstep.
    destruct k; discriminate.
  - destruct Hfl as (d & Hin & Hnext).
    destruct k as [|k];
      [|unfold step in Hstep; cbn [handle] in Hstep; rewrite Hin in Hstep;
        destruct k; discriminate].
    assert (Hp : processing s = true)
      by exact (draining_running total outcomes s item rest Hd Hq).
    destruct Hd as (Hs & Hnd & _).
    assert (Hk : nth_error (inflight s) 0 = Some d) by now rewrite Hin.
    rewrite (step_fetchDone s 0 d r Hk), (commit_settledRequest s 0 d r Hs) in Hstep.
    destruct (settledRequest_frame s 0 d r) as (H1 & H2 & H3 & H4 & H5 & H7 & H8 & _).
    rewrite Hq, Hnext, filter_head in H8 by (rewrite <- Hq; exact Hnd).
    set (h := settledRequest s 0 d r) in *. clearbody h.
    rewrite Hp, H8 in Hstep. cbn [andb] in Hstep.
    destruct rest as [|item2 rest2].
    + cbn [List.length Nat.ltb Nat.leb] in Hstep. injection Hstep as <-.
      unfold sentDrafts. fields. now rewrite H3, H8.
    + cbn [List.length Nat.ltb Nat.leb] in Hstep.
      rewrite (processNextProduct_dispatch (settings s) (syncRefs h) item2 rest2) in Hstep;
        [|exact (eq_trans H1 Hp) | exact H7 | exact H8].
      injection Hstep as <-.
      unfold sentDrafts. fields. rewrite H3, H8, map_app. cbn [map tl next payload].
      now rewrite <- app_assoc.
Qed.

Lemma environment_order (total outcomes : nat) (e : Event) (s s' : State) :
  draining total outcomes s ->
  fromEnvironment e = true ->
  step e s = Some s' ->
  (sentDrafts s' ++ map payload (tl (queue s')))%list
  = (sentDrafts s ++ map payload (tl (queue s)))%list.
Proof.
  intros Hd He Hstep. destruct e; try discriminate.
  - now apply (fetchDone_order total outcomes s s' k r).
  - destruct (draining_coherent _ _ _ Hd) as [Hs Hc].
    destruct (timerFire_sends_nothing s s' Hs Hc Hstep) as (H1 & _ & H3 & _).
    unfold sentDrafts. now rewrite H1, H3.
  - destruct (clock_draining _ _ s ms Hd) as [H1 _].
    rewrite H1 in Hstep. injection Hstep as <-. reflexivity.
Qed.

Lemma schedule_order (total outcomes : nat) (schedule : list Event) :
  forall s s',
    draining total outcomes s ->
    Forall (fun e => fromEnvironment e = true) schedule ->
    run schedule s = Some s' ->
    (sentDrafts s' ++ map payload (tl (queue s')))%list
    = (sentDrafts s ++ map payload (tl (queue s)))%list.
Proof.
  induction schedule as [|e schedule IH]; intros s s' Hd Hall Hrun; cbn [run] in Hrun.
  - now injection Hrun as <-.
  - inversion Hall as [|e' l He Hrest]; subst.
    destruct (step e s) as [s1|] eqn:Hstep; [|discriminate].
    rewrite (IH s1 s' (draining_step total outcomes e s s1 Hd He Hstep) Hrest Hrun).
    now apply (environment_order total outcomes e s s1).
Qed.

(** The start button with the runner at rest: the head of the queue, if
    any, is the first draft sent. *)
Lemma start_order (n c : nat) (s s1 : State) :
  ready n c s ->
  step RunAgent s = Some s1 ->
  (sentDrafts s1 ++ map payload (tl (queue s1)))%list
  = (sentDrafts s ++ map payload (queue s))%list.
Proof.
  intros (Hs & Hp & Ha & _) Hstep.
  pose proof Hs as (S1 & S2 & S3 & S4 & S5).
  destruct (queue s) as [|item rest] eqn:Hq.
  - unfold step in Hstep. cbn [handle option_map] in Hstep. unfold runAgent in Hstep.
    rewrite S2, Hp, S1 in Hstep. cbn [List.length Nat.eqb] in Hstep.
    rewrite commit_idle in Hstep by exact Hp.
    injection Hstep as <-. unfold sentDrafts. fields. now rewrite Hq.
  - rewrite (step_runAgent s item rest Hs Hp Ha Hq) in Hstep. injection Hstep as <-.
    unfold sentDrafts. fields. rewrite Hq, map_app. cbn [map tl next payload].
    now rewrite <- app_assoc.
Qed.

Lemma enqueue_order (n c : nat) (s s1 : State) (d : ProductDraft) :
  ready n c s ->
  title d <> EmptyString ->
  run (enqueue d) s = Some s1 ->
  map payload (queue s1) = (map payload (queue s) ++ [d])%list /\ sent s1 = sent s.
Proof.
  intros (Hs & Hp & _ & _ & _ & Hauto & _) Htitle Hrun.
  unfold enqueue in Hrun. rewrite run_app, (run_fillDraft d s Hs) in Hrun.
  set (sd := setDraft (fun _ => d) s) in *.
  cbn [run] in Hrun.
  destruct (step SubmitDraft sd) as [s2|] eqn:Hstep; [|discriminate].
  injection Hrun as <-.
  destruct (idle_step SubmitDraft sd s2 Hs Hp Hauto Hstep) as (_ & _ & Hsent & _).
  split; [|exact Hsent].
  unfold step in Hstep. cbn [handle option_map] in Hstep. injection Hstep as <-.
  destruct (commit_footprint (handleAddDraftToQueue sd)) as (Hq & _).
  rewrite Hq.
  destruct (form_enqueues_titled sd Htitle) as (Hqueue & _).
  rewrite Hqueue, map_app. reflexivity.
Qed.

Lemma enqueues_order (drafts : list ProductDraft) :
  forall n c s,
    ready n c s ->
    Forall (fun d => title d <> EmptyString) drafts ->
    exists s',
      run (List.concat (map enqueue drafts)) s = Some s' /\
      ready (n + List.length drafts) c s' /\
      map payload (queue s') = (map payload (queue s) ++ drafts)%list /\
      sent s' = sent s.
Proof.
  induction drafts as [|d drafts IH]; intros n c s Hr Hall.
  - exists s. split; [reflexivity|]. rewrite Nat.add_0_r, app_nil_r. auto.
  - inversion Hall as [|d' l Hd Hrest]; subst.
    destruct (ready_enqueue n c s d Hr Hd) as (s1 & Hrun1 & Hr1).
    destruct (enqueue_order n c s s1 d Hr Hd Hrun1) as (Hq1 & Hs1).
    destruct (IH (S n) c s1 Hr1 Hrest) as (s2 & Hrun2 & Hr2 & Hq2 & Hs2).
    exists s2. split; [cbn [map List.concat]; rewrite run_app, Hrun1; exact Hrun2|].
    split; [cbn [List.length]; now rewrite <- plus_n_Sm|].
    split; [rewrite Hq2, Hq1, <- app_assoc; reflexivity | congruence].
Qed.

(** X23.  With auto start off, items enqueued through the form and then started
    are sent in the order in which they were enqueued, each of them once:
    at every moment of the drain the drafts sent so far are the first ones
    enqueued, and once nothing is pending they are all of them, whatever
    the outcomes and the order of the events of the environment. *)
Theorem manual_drain_sends_in_order (st : AgentSettings) (drafts : list ProductDraft)
  (schedule : list Event) (final : State) :
  autoStart st = false ->
  Forall (fun d => title d <> EmptyString) drafts ->
  Forall (fun e => fromEnvironment e = true) schedule ->
  run (List.concat (map enqueue drafts) ++ RunAgent :: schedule)%list (mounted st)
  = Some final ->
  sentDrafts final = firstn (List.length (sent final)) drafts /\
  (quiescent final = true -> sentDrafts final = drafts).
Proof.
  intros Hauto Hall Henv Hrun.
  destruct (enqueues_order drafts 0 0 (mounted st) (ready_mounted st Hauto) Hall)
    as (s0 & Hrun0 & Hr0 & Hq0 & Hs0).
  cbn [Nat.add] in Hr0.
  rewrite run_app, Hrun0 in Hrun. cbn [run] in Hrun.
  destruct (start_draining _ _ s0 Hr0) as (s1 & Hstep & Hd & _).
  rewrite Hstep in Hrun.
  pose proof (start_order _ _ s0 s1 Hr0 Hstep) as Hstart.
  pose proof (schedule_order _ _ schedule s1 final Hd Henv Hrun) as Horder.
  rewrite Hstart in Horder.
  unfold sentDrafts at 2 in Horder. rewrite Hs0, Hq0 in Horder.
  change (sent (mounted st)) with (@nil Dispatch) in Horder.
  change (queue (mounted st)) with (@nil ProductPayload) in Horder.
  cbn [map app] in Horder.
  split.
  - rewrite <- Horder.
    replace (List.length (sent final)) with (List.length (sentDrafts final) + 0)
      by (unfold sentDrafts; rewrite length_map; lia).
    rewrite firstn_app_2. cbn [firstn]. now rewrite app_nil_r.
  - intros Hquiet.
    pose proof (draining_run _ _ schedule s1 final Hd Henv Hrun) as Hd'.
    destruct (draining_quiescent _ _ final Hd' Hquiet) as (Hq & _).
    rewrite Hq in Horder. cbn [tl map] in Horder. now rewrite app_nil_r in Horder.
Qed.

Lemma manual_drain_sends_in_order_witness :
  let drafts := [titled "Wire"; titled "Bolt"; titled "Nut"] in
  let schedule :=
    [FetchDone 0 (ApiThrew None); TimerFire; FetchDone 0 replyOk; FetchDone 0 replyOk;
     TimerFire; TimerFire] in
  let final :=
    afterEvents (List.concat (map enqueue drafts) ++ RunAgent :: schedule)%list
                (mounted manualStart) in
  sentDrafts final = drafts.
Proof.
  destruct (manual_drain_sends_in_order manualStart
              [titled "Wire"; titled "Bolt"; titled "Nut"]
              [FetchDone 0 (ApiThrew None); TimerFire; FetchDone 0 replyOk;
               FetchDone 0 replyOk; TimerFire; TimerFire]
              (afterEvents
                 (List.concat (map enqueue [titled "Wire"; titled "Bolt"; titled "Nut"])
                  ++ RunAgent
                  :: [FetchDone 0 (ApiThrew None); TimerFire; FetchDone 0 replyOk;
                      FetchDone 0 replyOk; TimerFire; TimerFire])%list
                 (mounted manualStart))
              eq_refl) as [_ Hall].
  - repeat constructor; discriminate.
  - repeat constructor.
  - vm_compute. reflexivity.
  - apply Hall. vm_compute. reflexivity.
Defined.

End Order.

(** ** What stays: the log and the queue *)

Section History.

Lemma grows_refl {A : Type} (l : list A) : grows l l.
Proof. exists []. now rewrite app_nil_r. Qed.

Lemma grows_trans {A : Type} (l1 l2 l3 : list A) :
  grows l1 l2 -> grows l2 l3 -> grows l1 l3.
Proof.
  intros [m1 ->] [m2 ->]. exists (m1 ++ m2)%list. now rewrite app_assoc.
Qed.

Lemma processNextProduct_logs (st : AgentSettings) (s : State) :
  grows (logs s) (logs (processNextProduct st s)).
Proof.
  unfold processNextProduct.
  destruct (negb (processingRef s)); [apply grows_refl|].
  destruct (activeProductRef s); [apply grows_refl|].
  destruct (queueRef s); eexists; reflexivity.
Qed.

Lemma commit_logs (h : State) : grows (logs h) (logs (commit h)).
Proof.
  rewrite commit_eq. change (logs (syncRefs ?x)) with (logs x).
  unfold commitPass.
  set (s1 := syncRefs h).
  set (s2 := if (negb (Bool.eqb (processing h) (processingRef h)) || settingsDirty h)
                && processing s1
             then processNextProduct (settings s1) s1 else s1).
  assert (H2 : grows (logs h) (logs s2)).
  { subst s2. destruct (_ && _); [|apply grows_refl].
    apply (processNextProduct_logs (settings s1) s1). }
  destruct (queueDirty h || settingsDirty h); [|exact H2].
  destruct (negb (processingRef s2) || isSome (activeProductRef s2)); [exact H2|].
  destruct (Nat.ltb 0 (List.length (queueRef s2))); [|exact H2].
  eapply grows_trans; [exact H2 | apply processNextProduct_logs].
Qed.

Lemma addToQueue_logs (p : ProductDraft) (s : State) :
  logs (addToQueue p s)
  = (logs s ++ [mkLogEntry (S (idCounter s)) info
                  ("Product queued: " ++ Js.orElse (title p) "Untitled")
                  (Some "Added to automation queue") (clock s)])%list.
Proof. unfold addToQueue. destruct (_ && _); reflexivity. Qed.

Lemma rows_logs (f : string -> ProductDraft) (rows : list string) :
  forall s,
    let h := fold_left (fun acc rowLine => addToQueue (f rowLine) acc) rows s in
    exists queued,
      logs h = (logs s ++ queued)%list /\
      List.length queued = List.length rows /\
      Forall (fun e => level e = info /\
                       String.prefix "Product queued: " (headline e) = true) queued /\
      clock h = clock s /\
      List.length (queue h) = List.length (queue s) + List.length rows.
Proof.
  induction rows as [|r rows IH]; intros s; cbn [fold_left].
  - exists []. rewrite app_nil_r. cbn [List.length]. repeat split; auto.
  - destruct (IH (addToQueue (f r) s)) as (queued & I1 & I2 & I3 & I4 & I5).
    cbv zeta in I1, I2, I3, I4, I5.
    eexists (_ :: queued). rewrite I1, addToQueue_logs, <- app_assoc.
    split; [reflexivity|]. cbn [List.length].
    split; [now rewrite I2|].
    split.
    + constructor; [|exact I3]. split; [reflexivity | apply prefix_append].
    + split.
      * rewrite I4. unfold addToQueue. destruct (_ && _); reflexivity.
      * rewrite I5, addToQueue_queue, length_app. cbn [List.length]. lia.
Qed.

Lemma handle_logs (e : Event) (s h : State) :
  handle e s = Some h -> grows (logs s) (logs h).
Proof.
  intros Hh. destruct e; cbn [handle] in Hh.
  - injection Hh as <-. apply grows_refl.
  - injection Hh as <-. apply grows_refl.
  - injection Hh as <-. unfold handleAddDraftToQueue.
    destruct (negb _); [eexists; reflexivity|].
    change (logs (resetDraft ?x)) with (logs x).
    rewrite addToQueue_logs. eexists; reflexivity.
  - injection Hh as <-. eexists; reflexivity.
  - injection Hh as <-. apply grows_refl.
  - injection Hh as <-. unfold parseCsvFile.
    destruct (csvLines text) as [|headerLine rows]; [eexists; reflexivity|].
    destruct (negb _); [eexists; reflexivity|].
    destruct (rows_logs (rowProduct (csvHeaders headerLine)) rows s) as (queued & R1 & _).
    cbv zeta in R1. rewrite appendLog_logs, R1, <- app_assoc. eexists; reflexivity.
  - injection Hh as <-. unfold runAgent.
    destruct (processingRef s); [apply grows_refl|].
    destruct (Nat.eqb _ _); [eexists; reflexivity | apply grows_refl].
  - injection Hh as <-. eexists; reflexivity.
  - destruct (nth_error (inflight s) k) as [d|]; [|discriminate].
    injection Hh as <-. rewrite settleFetch_logs. eexists; reflexivity.
  - destruct (timers s) as [|st rest]; [discriminate|].
    injection Hh as <-. unfold timerCallback.
    destruct (processingRef (setTimers rest s)); [|apply grows_refl].
    apply (processNextProduct_logs st (setTimers rest s)).
  - injection Hh as <-. apply grows_refl.
Qed.

(** X24.  The log only grows: whatever happens (pause, reset, settings, imports,
    requests settling), the entries logged so far stay in the state, in
    place and unchanged, and new entries are added after them.  The page
    shows the last fifty; the state keeps them all. *)
Theorem log_is_append_only (events : list Event) (s s' : State) :
  run events s = Some s' ->
  exists more, logs s' = (logs s ++ more)%list.
Proof.
  revert s. induction events as [|e events IH]; intros s Hrun; cbn [run] in Hrun.
  - injection Hrun as <-. apply grows_refl.
  - destruct (step e s) as [s1|] eqn:Hstep; [|discriminate].
    unfold step in Hstep. destruct (handle e s) as [h|] eqn:Hh; [|discriminate].
    cbn [option_map] in Hstep. injection Hstep as <-.
    eapply grows_trans; [|apply (IH _ Hrun)].
    eapply grows_trans; [apply (handle_logs e s h Hh) | apply commit_logs].
Qed.

Lemma log_is_append_only_witness :
  exists more,
    logs (afterEvents (enqueue (titled "Wire") ++ [StopAgent; ResetDraft])%list
                      (mounted defaultSettings))
    = (logs (mounted defaultSettings) ++ more)%list.
Proof.
  apply (log_is_append_only (enqueue (titled "Wire") ++ [StopAgent; ResetDraft])%list
           (mounted defaultSettings)).
  vm_compute. reflexivity.
Defined.

Lemma rows_queue (f : string -> ProductDraft) (rows : list string) :
  forall s,
    exists added,
      queue (fold_left (fun acc rowLine => addToQueue (f rowLine) acc) rows s)
      = (queue s ++ added)%list.
Proof.
  induction rows as [|r rows IH]; intros s; cbn [fold_left].
  - apply grows_refl.
  - destruct (IH (addToQueue (f r) s)) as (added & ->).
    rewrite addToQueue_queue, <- app_assoc. eexists; reflexivity.
Qed.

(** X25.  Items leave the queue only when a request settles, and then only the
    items that carry the identifier of that request.  Every other event
    (pause, start, reset, a change of the settings, an import, a timer)
    leaves the queued items where they are, in the same order, and can
    only add items behind them: there is no way to take an item back. *)
Theorem only_a_settled_request_removes_items (e : Event) (s s' : State) :
  step e s = Some s' ->
  match e with
  | FetchDone k r =>
      exists d,
        nth_error (inflight s) k = Some d /\
        queue s' = filter (fun item => negb (Nat.eqb (id item) (id (next d)))) (queue s)
  | _ => exists added, queue s' = (queue s ++ added)%list
  end.
Proof.
  unfold step. intros Hstep.
  destruct (handle e s) as [h|] eqn:Hh; [|discriminate].
  cbn [option_map] in Hstep. injection Hstep as <-.
  destruct (commit_footprint h) as (-> & _).
  destruct e; cbn [handle] in Hh.
  - injection Hh as <-. apply grows_refl.
  - injection Hh as <-. apply grows_refl.
  - injection Hh as <-. unfold handleAddDraftToQueue.
    destruct (negb _); [apply grows_refl|].
    change (queue (resetDraft ?x)) with (queue x).
    rewrite addToQueue_queue. eexists; reflexivity.
  - injection Hh as <-. apply grows_refl.
  - injection Hh as <-. apply grows_refl.
  - injection Hh as <-. unfold parseCsvFile.
    destruct (csvLines text) as [|headerLine rows]; [apply grows_refl|].
    destruct (negb _); [apply grows_refl|].
    rewrite appendLog_queue. apply rows_queue.
  - injection Hh as <-. unfold runAgent.
    destruct (processingRef s); [apply grows_refl|].
    destruct (Nat.eqb _ _); apply grows_refl.
  - injection Hh as <-. apply grows_refl.
  - destruct (nth_error (inflight s) k) as [d|]; [|discriminate].
    injection Hh as <-. exists d. split; [reflexivity|].
    now destruct (settleFetch_frame d r (setInflight (removeAt k (inflight s)) s))
      as (_ & _ & _ & _ & _ & _ & _ & Hq & _).
  - destruct (timers s) as [|st rest]; [discriminate|].
    injection Hh as <-. unfold timerCallback.
    destruct (processingRef (setTimers rest s)); [|apply grows_refl].
    destruct (processNextProduct_frame st (setTimers rest s)) as (_ & _ & -> & _).
    apply grows_refl.
  - injection Hh as <-. apply grows_refl.
Qed.

Lemma only_a_settled_request_removes_items_witness :
  let s := afterEvents (enqueue (titled "Wire") ++ enqueue (titled "Bolt") ++ [RunAgent])%list
                       (mounted manualStart) in
  exists added, queue (afterEvents [StopAgent] s) = (queue s ++ added)%list.
Proof.
  apply (only_a_settled_request_removes_items StopAgent
           (afterEvents (enqueue (titled "Wire") ++ enqueue (titled "Bolt") ++ [RunAgent])%list
                        (mounted manualStart))).
  vm_compute. reflexivity.
Defined.

End History.

Section FormAndImport.

(** X26.  The form with a title filled in: the draft is enqueued behind the items
    already queued, the form is cleared, one info event names the item,
    nothing is sent by the handler itself, and the runner is turned on
    exactly when auto start is on and the runner was off. *)
Theorem form_enqueues_draft_at_tail (s : State) :
  title (draft s) <> EmptyString ->
  queue (handleAddDraftToQueue s)
  = (queue s ++ [mkProductPayload (idCounter s) (clock s) (draft s)])%list /\
  draft (handleAddDraftToQueue s) = initialDraft /\
  logs (handleAddDraftToQueue s)
  = (logs s ++ [mkLogEntry (S (idCounter s)) info ("Product queued: " ++ title (draft s))
                  (Some "Added to automation queue") (clock s)])%list /\
  processing (handleAddDraftToQueue s)
  = (processing s || (autoStart (settings s) && negb (processingRef s))) /\
  sent (handleAddDraftToQueue s) = sent s /\
  inflight (handleAddDraftToQueue s) = inflight s.
Proof.
  intros H. unfold handleAddDraftToQueue.
  assert (Ht : Js.truthy (title (draft s)) = true)
    by (unfold Js.truthy; apply negb_true_iff, String.eqb_neq; exact H).
  rewrite Ht. cbn [negb].
  change (queue (resetDraft ?x)) with (queue x).
  change (logs (resetDraft ?x)) with (logs x).
  change (processing (resetDraft ?x)) with (processing x).
  change (sent (resetDraft ?x)) with (sent x).
  change (inflight (resetDraft ?x)) with (inflight x).
  rewrite addToQueue_queue, addToQueue_logs, (orElse_truthy _ _ H).
  split; [reflexivity|]. split; [reflexivity|]. split; [reflexivity|].
  unfold addToQueue.
  change (processingRef (appendLog ?a ?b ?c (setQueue ?f (bumpId s))))
    with (processingRef s).
  destruct (autoStart (settings s) && negb (processingRef s)).
  - cbn [setProcessing processing sent inflight]. rewrite orb_true_r. repeat split.
  - rewrite orb_false_r. repeat split.
Qed.

Lemma form_enqueues_draft_at_tail_witness :
  let s := setDraft (fun _ => titled "Wire") (mounted defaultSettings) in
  queue (handleAddDraftToQueue s) = [mkProductPayload 0 0 (titled "Wire")] /\
  draft (handleAddDraftToQueue s) = initialDraft /\
  processing (handleAddDraftToQueue s) = true.
Proof.
  destruct (form_enqueues_draft_at_tail
              (setDraft (fun _ => titled "Wire") (mounted defaultSettings)))
    as (Hq & Hd & _ & Hp & _).
  - discriminate.
  - split; [exact Hq|]. split; [exact Hd|]. rewrite Hp. reflexivity.
Defined.

Lemma errorCount_info (l : list LogEntry) :
  Forall (fun e => level e = info /\
                   String.prefix "Product queued: " (headline e) = true) l ->
  errorCount l = 0.
Proof.
  unfold errorCount. induction 1 as [|e l [He _] _ IH]; [reflexivity|].
  cbn [filter]. now rewrite He.
Qed.

(** X27.  An import whose header has all the columns never reports a data row:
    it logs one info event per data line, whatever the line holds (too few
    cells, no title), then one success event that gives the number of data
    lines, and no error event; the queue grows by that number. *)
Theorem csv_import_report (text : string) (s : State) (headerLine : string)
  (rows : list string) :
  csvLines text = headerLine :: rows ->
  missingColumns (csvHeaders headerLine) = [] ->
  exists queued final,
    logs (parseCsvFile text s) = (logs s ++ queued ++ [final])%list /\
    List.length queued = List.length rows /\
    Forall (fun e => level e = info /\
                     String.prefix "Product queued: " (headline e) = true) queued /\
    level final = success /\
    headline final = "CSV imported" /\
    details final = Some (Js.ofNat (List.length rows) ++ " product rows processed.") /\
    errorCount (logs (parseCsvFile text s)) = errorCount (logs s) /\
    List.length (queue (parseCsvFile text s)) = List.length (queue s) + List.length rows.
Proof.
  intros Hlines Hmissing. unfold parseCsvFile. rewrite Hlines, Hmissing.
  cbn [List.length Nat.eqb negb].
  destruct (rows_logs (rowProduct (csvHeaders headerLine)) rows s)
    as (queued & R1 & R2 & R3 & R4 & R5).
  cbv zeta in R1, R2, R3, R4, R5.
  exists queued. eexists.
  rewrite appendLog_logs, appendLog_queue, R1, R5, <- app_assoc.
  split; [reflexivity|].
  split; [exact R2|]. split; [exact R3|].
  cbn [level headline details]. split; [reflexivity|]. split; [reflexivity|].
  split; [reflexivity|]. split; [|reflexivity].
  rewrite !errorCount_app, (errorCount_info queued R3). unfold errorCount at 2.
  cbn [filter level List.length]. lia.
Qed.

Lemma csv_import_report_witness :
  exists queued final,
    logs (parseCsvFile untitledCsv (mounted manualStart)) = (queued ++ [final])%list /\
    List.length queued = 1 /\
    details final = Some "1 product rows processed." /\
    errorCount (logs (parseCsvFile untitledCsv (mounted manualStart))) = 0.
Proof.
  destruct (csv_import_report untitledCsv (mounted manualStart) documentedHeader
              [",Tools,100"])
    as (queued & final & Hl & Hn & _ & _ & _ & Hd & He & _).
  - vm_compute. reflexivity.
  - vm_compute. reflexivity.
  - exists queued, final. split; [exact Hl|]. split; [exact Hn|].
    split; [exact Hd | exact He].
Defined.

Lemma blank_of_lines (s : string) :
  Forall (fun x => blank x = true) (Js.splitLines s) -> blank s = true.
Proof.
  induction s as [|c|c1 c2 s IHs IHc] using string_pair_ind; intros H.
  - reflexivity.
  - simpl in H. destruct (Ascii.eqb c Js.LF) eqn:Hc.
    + apply Ascii.eqb_eq in Hc. now subst c.
    + inversion H; subst. assumption.
  - rewrite splitLines_cons2 in H.
    destruct (Ascii.eqb c1 Js.LF) eqn:H1.
    + apply Ascii.eqb_eq in H1. subst c1. inversion H; subst.
      change (blank (String Js.LF (String c2 s))) with (true && blank (String c2 s)).
      now rewrite IHc.
    + destruct (Ascii.eqb c1 Js.CR && Ascii.eqb c2 Js.LF) eqn:H2.
      * apply andb_true_iff in H2 as [Ha Hb].
        apply Ascii.eqb_eq in Ha, Hb. subst c1 c2. inversion H; subst.
        change (blank (String Js.CR (String Js.LF s))) with (true && (true && blank s)).
        now rewrite IHs.
      * destruct (Js.splitLines (String c2 s)) as [|x xs] eqn:E.
        -- cbn [Js.consHead] in H. inversion H as [|a l Ha _]; subst.
           simpl in Ha. rewrite andb_true_r in Ha.
           change (blank (String c1 (String c2 s)))
             with (Js.isWhiteSpace c1 && blank (String c2 s)).
           rewrite Ha. cbn [andb]. apply IHc. constructor.
        -- cbn [Js.consHead] in H. inversion H as [|a l Ha Hl]; subst.
           simpl in Ha. apply andb_true_iff in Ha as [Hc Hx].
           change (blank (String c1 (String c2 s)))
             with (Js.isWhiteSpace c1 && blank (String c2 s)).
           rewrite Hc. cbn [andb]. apply IHc. now constructor.
Qed.

Lemma blank_of_csvLines (text : string) : csvLines text = [] -> blank text = true.
Proof.
  rewrite csvLines_nonBlank. unfold nonBlank. intros H.
  apply blank_of_lines.
  induction (Js.splitLines text) as [|x xs IH]; [constructor|].
  cbn [map filter] in H.
  destruct (Js.trim x) as [|c t] eqn:E; [|discriminate].
  constructor; [now apply trim_empty_blank | now apply IH].
Qed.

(** X28.  An import reports an empty CSV exactly for a file that holds white
    space only (line breaks included, the empty file too): it then logs
    one error event and leaves the queue alone; for any other file the
    first line that is not blank is taken for the header. *)
Theorem empty_csv_is_white_space_only (text : string) (s : State) :
  (csvLines text = [] <-> blank text = true) /\
  (blank text = true ->
     parseCsvFile text s
     = appendLog error "Empty CSV" (Some "No header row detected.") s /\
     queue (parseCsvFile text s) = queue s /\
     errorCount (logs (parseCsvFile text s)) = S (errorCount (logs s))) /\
  (blank text = false ->
     exists headerLine rows, csvLines text = headerLine :: rows /\
                             headerLine <> EmptyString).
Proof.
  split; [split; [apply blank_of_csvLines | apply csvLines_blank]|].
  split.
  - intros H. unfold parseCsvFile. rewrite (csvLines_blank text H).
    split; [reflexivity|]. split; [reflexivity|].
    rewrite appendLog_logs, errorCount_app. unfold errorCount. cbn. lia.
  - intros H. destruct (csvLines text) as [|headerLine rows] eqn:E.
    + rewrite (blank_of_csvLines text E) in H. discriminate.
    + exists headerLine, rows. split; [reflexivity|].
      assert (Hin : In headerLine (csvLines text)) by (rewrite E; now left).
      unfold csvLines in Hin. apply filter_In in Hin as [_ Hlen].
      intros ->. discriminate.
Qed.

Lemma empty_csv_is_white_space_only_witness :
  let text := String Js.LF (" " ++ String Js.CR (String Js.LF "  ")) in
  parseCsvFile text (mounted defaultSettings)
  = appendLog error "Empty CSV" (Some "No header row detected.") (mounted defaultSettings).
Proof.
  destruct (empty_csv_is_white_space_only
              (String Js.LF (" " ++ String Js.CR (String Js.LF "  ")))
              (mounted defaultSettings)) as (_ & Hblank & _).
  destruct Hblank as (Hparse & _); [reflexivity | exact Hparse].
Defined.

End FormAndImport.

(** ** The activity log on the page *)

Section ActivityLog.

Lemma insertSorted_perm (x : LogEntry) (l : list LogEntry) :
  Permutation (Js.insertSorted byLatest x l) (x :: l).
Proof.
  induction l as [|a l IH]; cbn [Js.insertSorted]; [reflexivity|].
  destruct (byLatest x a <=? 0)%Z; [reflexivity|].
  rewrite IH. apply perm_swap.
Qed.

Lemma sort_perm (l : list LogEntry) : Permutation (Js.sort byLatest l) l.
Proof.
  unfold Js.sort. induction l as [|a l IH]; cbn [fold_right]; [constructor|].
  rewrite insertSorted_perm. now constructor.
Qed.

Lemma insertSorted_sorted (x : LogEntry) (l : list LogEntry) :
  StronglySorted notOlder l -> StronglySorted notOlder (Js.insertSorted byLatest x l).
Proof.
  induction 1 as [|a l Hl IH Ha]; cbn [Js.insertSorted].
  - repeat constructor.
  - destruct (byLatest x a <=? 0)%Z eqn:E.
    + apply Z.leb_le in E. unfold byLatest in E.
      constructor; [now constructor|].
      constructor; [unfold notOlder; lia|].
      apply Forall_forall. intros y Hy. rewrite Forall_forall in Ha.
      specialize (Ha y Hy). unfold notOlder in *. lia.
    + apply Z.leb_gt in E. unfold byLatest in E.
      constructor; [exact IH|].
      apply (Permutation_Forall (Permutation_sym (insertSorted_perm x l))).
      constructor; [unfold notOlder; lia | exact Ha].
Qed.

Lemma sort_sorted (l : list LogEntry) : StronglySorted notOlder (Js.sort byLatest l).
Proof.
  unfold Js.sort. induction l as [|a l IH]; cbn [fold_right]; [constructor|].
  now apply insertSorted_sorted.
Qed.

Lemma lastN_length {A : Type} (n : nat) (l : list A) :
  List.length (Js.lastN n l) = Nat.min n (List.length l).
Proof. unfold Js.lastN. rewrite length_skipn. lia. Qed.

Lemma lastN_app {A : Type} (n : nat) (before recent : list A) :
  List.length recent = n -> Js.lastN n (before ++ recent) = recent.
Proof.
  intros H. unfold Js.lastN. rewrite length_app, H.
  replace (List.length before + n - n) with (List.length before) by lia.
  rewrite skipn_app, skipn_all, Nat.sub_diag. reflexivity.
Qed.

(** X29.  The activity log shows the last fifty entries and nothing else: what
    is displayed is a rearrangement of the last fifty entries of the log
    (all of them when there are fewer), no entry above one that has a
    later time.  An entry that fifty others have followed is not shown
    any more, whatever its level. *)
Theorem filteredLogs_shows_last_fifty (entries : list LogEntry) :
  Permutation (filteredLogs entries) (Js.lastN 50 entries) /\
  List.length (filteredLogs entries) = Nat.min 50 (List.length entries) /\
  StronglySorted notOlder (filteredLogs entries) /\
  (forall before recent,
     entries = (before ++ recent)%list ->
     List.length recent = 50 ->
     filteredLogs entries = filteredLogs recent /\
     forall e, In e (filteredLogs entries) -> In e recent).
Proof.
  unfold filteredLogs.
  change (fun a b => (Z.of_nat (timestamp b) - Z.of_nat (timestamp a))%Z) with byLatest.
  split; [apply sort_perm|].
  split; [rewrite (Permutation_length (sort_perm _)); apply lastN_length|].
  split; [apply sort_sorted|].
  intros before recent -> Hlen.
  rewrite (lastN_app 50 before recent Hlen).
  replace (Js.lastN 50 recent) with recent
    by (symmetry; apply (lastN_app 50 [] recent Hlen)).
  split; [reflexivity|].
  intros e He. apply (Permutation_in e (sort_perm recent) He).
Qed.

(** Sorting leaves alone a list that is in order already. *)
Lemma sort_sorted_id (l : list LogEntry) :
  StronglySorted notOlder l -> Js.sort byLatest l = l.
Proof.
  unfold Js.sort. induction 1 as [|a l Hl IH Ha]; cbn [fold_right]; [reflexivity|].
  rewrite IH. destruct l as [|b l']; [reflexivity|].
  cbn [Js.insertSorted].
  inversion Ha as [|b' l'' Hab _]; subst. unfold notOlder in Hab.
  replace (byLatest a b <=? 0)%Z with true; [reflexivity|].
  symmetry. apply Z.leb_le. unfold byLatest. lia.
Qed.

Lemma insertSorted_last (x : LogEntry) (l : list LogEntry) :
  Forall (older x) l -> Js.insertSorted byLatest x l = (l ++ [x])%list.
Proof.
  induction 1 as [|a l Ha _ IH]; cbn [Js.insertSorted]; [reflexivity|].
  unfold older in Ha.
  replace (byLatest x a <=? 0)%Z with false.
  - now rewrite IH.
  - symmetry. apply Z.leb_gt. unfold byLatest. lia.
Qed.

Lemma sort_ascending_rev (l : list LogEntry) :
  StronglySorted older l -> Js.sort byLatest l = rev l.
Proof.
  unfold Js.sort. induction 1 as [|a l Hl IH Ha]; cbn [fold_right rev]; [reflexivity|].
  rewrite IH. apply insertSorted_last.
  apply Forall_forall. intros y Hy. apply in_rev in Hy.
  rewrite Forall_forall in Ha. now apply Ha.
Qed.

Lemma StronglySorted_skipn {A : Type} (R : A -> A -> Prop) (n : nat) (l : list A) :
  StronglySorted R l -> StronglySorted R (skipn n l).
Proof.
  revert l. induction n as [|n IH]; intros l H; [exact H|].
  destruct l as [|a l]; [constructor|].
  cbn [skipn]. apply IH. now inversion H.
Qed.

(** X30.  The order of the entries on the page.  Entries whose times go up
    strictly along the log are shown latest first: the last fifty,
    reversed.  Entries that all carry the same time (the events of one
    import, say) keep the order of the log, the oldest first: the sort
    leaves entries that compare equal where they are. *)
Theorem filteredLogs_order (entries : list LogEntry) :
  (StronglySorted older entries ->
     filteredLogs entries = rev (Js.lastN 50 entries)) /\
  (StronglySorted notOlder entries ->
     filteredLogs entries = Js.lastN 50 entries) /\
  (forall t, Forall (fun e => timestamp e = t) entries ->
     filteredLogs entries = Js.lastN 50 entries).
Proof.
  unfold filteredLogs.
  change (fun a b => (Z.of_nat (timestamp b) - Z.of_nat (timestamp a))%Z) with byLatest.
  split; [|split].
  - intros H. apply sort_ascending_rev. unfold Js.lastN. now apply StronglySorted_skipn.
  - intros H. apply sort_sorted_id. unfold Js.lastN. now apply StronglySorted_skipn.
  - intros t H. apply sort_sorted_id. unfold Js.lastN. apply StronglySorted_skipn.
    induction H as [|e l He Hl IH]; [constructor|].
    constructor; [exact IH|].
    apply Forall_forall. intros y Hy. rewrite Forall_forall in Hl.
    unfold notOlder. rewrite He, (Hl y Hy). lia.
Qed.

Lemma filteredLogs_order_witness :
  let imported := logs (parseCsvFile untitledCsv (mounted manualStart)) in
  map headline (filteredLogs imported) = ["Product queued: Untitled"; "CSV imported"].
Proof.
  destruct (filteredLogs_order (logs (parseCsvFile untitledCsv (mounted manualStart))))
    as (_ & _ & Hsame).
  cbv zeta. rewrite (Hsame 0).
  - vm_compute. reflexivity.
  - vm_compute. repeat constructor.
Defined.

End ActivityLog.
